(** * ZANS Task Manager: task store and reminder engine

    A shallow embedding of the bot's core (the "upgraded" index.js draft):
    the per-assignee task index with its shared task objects, the
    deduplication and lookup helpers, the command handlers that mutate the
    index, the reminder scan, the start-up reconciliation and the backup
    rotation, followed by the properties the specification states of them.

    Conventions of the embedding.
    - JavaScript strings are [string]s of bytes; case mapping and white
      space are the ASCII ones.
    - JavaScript numbers are exact: integers are [Z], the results of
      [parseFloat] are rationals [Q] (no rounding, no overflow to
      Infinity from large exponents).
    - Task objects live in a heap of cells; the collections of the index
      hold references, so two collections may share one object.
    - [Date] parsing and printing are parameters of the development. *)

From Stdlib Require Import QArith String Ascii Sorted.
From stdpp Require Import base list strings gmap.

(** ** Strings *)

Module Str.

Definition is_space (c : ascii) : bool :=
  let n := nat_of_ascii c in
  ((9 <=? n) && (n <=? 13))%nat || (n =? 32)%nat.

Definition is_upper (c : ascii) : bool :=
  let n := nat_of_ascii c in ((65 <=? n) && (n <=? 90))%nat.

Definition is_digit (c : ascii) : bool :=
  let n := nat_of_ascii c in ((48 <=? n) && (n <=? 57))%nat.

Definition lower_char (c : ascii) : ascii :=
  if is_upper c then ascii_of_nat (nat_of_ascii c + 32) else c.

(** [s.toLowerCase()] *)
Fixpoint toLowerCase (s : string) : string :=
  match s with
  | EmptyString => EmptyString
  | String c r => String (lower_char c) (toLowerCase r)
  end.

Fixpoint trimStart (s : string) : string :=
  match s with
  | EmptyString => EmptyString
  | String c r => if is_space c then trimStart r else s
  end.

Fixpoint trimEnd (s : string) : string :=
  match s with
  | EmptyString => EmptyString
  | String c r =>
      match trimEnd r with
      | EmptyString => if is_space c then EmptyString else String c EmptyString
      | r' => String c r'
      end
  end.

(** [s.trim()] *)
Definition trim (s : string) : string := trimEnd (trimStart s).

(** [s.startsWith(p)] *)
Definition startsWith (p s : string) : bool := String.prefix p s.

(** [s.endsWith(p)] *)
Fixpoint endsWith (p s : string) : bool :=
  String.eqb s p ||
  match s with
  | EmptyString => false
  | String _ r => endsWith p r
  end.

(** [s.includes(p)] *)
Fixpoint includes (p s : string) : bool :=
  String.prefix p s ||
  match s with
  | EmptyString => false
  | String _ r => includes p r
  end.

(** [[...s]]: the characters of [s], in order. *)
Definition chars (s : string) : list ascii := list_ascii_of_string s.

Definition of_char (c : ascii) : string := String c EmptyString.

End Str.

(** ** Numbers read from text *)

(** The values [parseFloat] can return. *)
Inductive jsnum : Type :=
| JNaN
| JInf (negative : bool)
| JNum (q : Q).

Definition isNaN (x : jsnum) : bool :=
  match x with JNaN => true | _ => false end.

(** [x * k] for a positive constant [k]. *)
Definition jsmul (x : jsnum) (k : Q) : jsnum :=
  match x with
  | JNaN => JNaN
  | JInf n => JInf n
  | JNum q => JNum (q * k)
  end.

Module ParseFloat.
Import Str.

Definition digit_val (c : ascii) : Z := Z.of_nat (nat_of_ascii c) - 48.

Definition digits_val (ds : list ascii) : Z :=
  fold_left (fun acc c => 10 * acc + digit_val c)%Z ds 0%Z.

(** The longest run of decimal digits at the head of [s], and the rest. *)
Fixpoint span_digits (s : string) : list ascii * string :=
  match s with
  | EmptyString => ([], EmptyString)
  | String c r =>
      if is_digit c
      then let '(ds, r') := span_digits r in (c :: ds, r')
      else ([], s)
  end.

Definition read_sign (s : string) : bool * string :=
  match s with
  | String "-"%char r => (true, r)
  | String "+"%char r => (false, r)
  | _ => (false, s)
  end.

(** An exponent part counts only when it is complete: an indicator, an
    optional sign and at least one digit. *)
Definition read_exponent (s : string) : Z :=
  match s with
  | String c r =>
      if Ascii.eqb c "e" || Ascii.eqb c "E" then
        let '(neg, r1) := read_sign r in
        match fst (span_digits r1) with
        | [] => 0%Z
        | ds => if neg then (- digits_val ds)%Z else digits_val ds
        end
      else 0%Z
  | EmptyString => 0%Z
  end.

(** [n * 10^k] as a rational. *)
Definition scale10 (n k : Z) : Q :=
  if (0 <=? k)%Z then inject_Z (n * 10 ^ k)
  else n # Z.to_pos (10 ^ (- k)).

Definition read_unsigned (s : string) : jsnum :=
  if String.prefix "Infinity" s then JInf false
  else
    let '(ip, r1) := span_digits s in
    let '(fp, r2) :=
      match r1 with
      | String "."%char r => span_digits r
      | _ => ([], r1)
      end in
    match ip ++ fp with
    | [] => JNaN
    | ds => JNum (scale10 (digits_val ds) (read_exponent r2 - Z.of_nat (length fp)))
    end.

Definition negate (x : jsnum) : jsnum :=
  match x with
  | JNaN => JNaN
  | JInf n => JInf (negb n)
  | JNum q => JNum (- q)
  end.

(** [parseFloat(s)]: the value of the longest prefix of [s], after leading
    white space, that is a decimal literal; [JNaN] when there is none. *)
Definition parseFloat (s : string) : jsnum :=
  let '(neg, r) := read_sign (trimStart s) in
  let x := read_unsigned r in
  if neg then negate x else x.


End ParseFloat.

(** ** Reminder windows *)

(** [String(s).trim().toLowerCase()] *)
Definition normalize (s : string) : string := Str.toLowerCase (Str.trim s).


(** [parseWindowToMinutes(s)]; [None] is the source's [null]. *)
Definition parseWindowToMinutes (s : string) : option jsnum :=
  if String.eqb s "" then None
  else
    let s := normalize s in
    if Str.endsWith "h" s then Some (jsmul (ParseFloat.parseFloat s) 60)
    else if Str.endsWith "m" s then Some (ParseFloat.parseFloat s)
    else if Str.endsWith "d" s then Some (jsmul (jsmul (ParseFloat.parseFloat s) 60) 24)
    else Some (jsmul (ParseFloat.parseFloat s) 60).

(** ** Task records and the store *)

Record User : Type := { u_id : string; username : string }.

Record LogEntry : Type := { date : string; action : string }.

(** A task object. [due] is [None] for the source's [null]. *)
Record Task : Type := {
  t_id : Z;
  title : string;
  description : string;
  due : option string;
  status : string;
  createdBy : string;
  assignedTo : list string;
  department : option string;
  logs : list LogEntry;
  remindersSent : list string
}.

Definition set_status (st : string) (t : Task) : Task :=
  {| t_id := t_id t; title := title t; description := description t;
     due := due t; status := st; createdBy := createdBy t;
     assignedTo := assignedTo t; department := department t;
     logs := logs t; remindersSent := remindersSent t |}.

(** [t.logs.push(e)] *)
Definition push_log (e : LogEntry) (t : Task) : Task :=
  {| t_id := t_id t; title := title t; description := description t;
     due := due t; status := status t; createdBy := createdBy t;
     assignedTo := assignedTo t; department := department t;
     logs := logs t ++ [e]; remindersSent := remindersSent t |}.

(** [t.remindersSent.push(k)] *)
Definition push_reminder (k : string) (t : Task) : Task :=
  {| t_id := t_id t; title := title t; description := description t;
     due := due t; status := status t; createdBy := createdBy t;
     assignedTo := assignedTo t; department := department t;
     logs := logs t; remindersSent := remindersSent t ++ [k] |}.

(** A reference to a task object: its position in the heap. *)
Abbreviation loc := nat (only parsing).

(** The module state [tasks]: a [Map] from user id to an array of task
    objects. The map keeps its keys in insertion order; the arrays hold
    references into [heap], where the objects themselves live. *)
Record Store : Type := {
  heap : list Task;
  tasks : list (string * list loc)
}.

Definition empty_store : Store := {| heap := []; tasks := [] |}.

(** [tasks.get(uid)] *)
Fixpoint map_get (uid : string) (m : list (string * list loc)) : option (list loc) :=
  match m with
  | [] => None
  | (k, l) :: r => if String.eqb k uid then Some l else map_get uid r
  end.

(** [tasks.get(uid) || []] *)
Definition map_get_or_empty (uid : string) (m : list (string * list loc)) : list loc :=
  default [] (map_get uid m).

(** [if(!tasks.has(uid)) tasks.set(uid,[]); tasks.get(uid).push(l)] *)
Fixpoint map_push (uid : string) (l : loc) (m : list (string * list loc))
  : list (string * list loc) :=
  match m with
  | [] => [(uid, [l])]
  | (k, ls) :: r =>
      if String.eqb k uid then (k, ls ++ [l]) :: r
      else (k, ls) :: map_push uid l r
  end.

(** [tasks.get(uid)[i] = l] *)
Fixpoint map_set_at (uid : string) (i : nat) (l : loc) (m : list (string * list loc))
  : list (string * list loc) :=
  match m with
  | [] => []
  | (k, ls) :: r =>
      if String.eqb k uid then (k, <[i:=l]> ls) :: r
      else (k, ls) :: map_set_at uid i l r
  end.

(** Allocation of a fresh task object. *)
Definition alloc (t : Task) (s : Store) : loc * Store :=
  (length (heap s), {| heap := heap s ++ [t]; tasks := tasks s |}).

(** In-place mutation of the object behind a reference. *)
Definition mutate (f : Task -> Task) (l : loc) (s : Store) : Store :=
  {| heap := alter f l (heap s); tasks := tasks s |}.

(** Every (user id, reference) entry of the index, in iteration order:
    the order of the two nested [for ... of] loops over [tasks.entries()]. *)
Definition entries (m : list (string * list loc)) : list (string * loc) :=
  flat_map (fun '(uid, ls) => map (pair uid) ls) m.

(** ** Persistence of the index *)

(** What [JSON.stringify(Object.fromEntries(tasks))] writes: every
    collection with the value of each task in it. User ids are Discord
    snowflakes, which are not array indices, so the object keeps the keys in
    the order of the map. *)
Definition Snapshot : Type := list (string * list Task).

Definition serialize (s : Store) : Snapshot :=
  map (fun '(uid, ls) => (uid, omap (fun l => heap s !! l) ls)) (tasks s).

(** [new Map(Object.entries(readJson(tasksFile)))]: every task value of the
    file becomes an object of its own. *)
Fixpoint load_list (ts : list Task) (h : list Task) : list loc * list Task :=
  match ts with
  | [] => ([], h)
  | t :: r => let '(ls, h') := load_list r (h ++ [t]) in (length h :: ls, h')
  end.

Fixpoint load_from (snap : Snapshot) (h : list Task) : list (string * list loc) * list Task :=
  match snap with
  | [] => ([], h)
  | (uid, ts) :: r =>
      let '(ls, h1) := load_list ts h in
      let '(m, h2) := load_from r h1 in
      ((uid, ls) :: m, h2)
  end.

Definition load (snap : Snapshot) : Store :=
  let '(m, h) := load_from snap [] in {| heap := h; tasks := m |}.

(** A save followed by a restart of the process. *)
Definition reload (s : Store) : Store := load (serialize s).

(** ** Authorisation *)

Record Registry : Type := {
  departments : gmap string (list string);
  managers : gmap string bool
}.

Definition ADMIN_IDS : list string := [].

(** [guild] is the owner id of the guild of the interaction, if any. *)
Definition isAdmin (userId : string) (guild : option string) : bool :=
  bool_decide (userId ∈ ADMIN_IDS) || bool_decide (guild = Some userId).

Definition isManager (reg : Registry) (userId : string) : bool :=
  bool_decide (managers reg !! userId = Some true).

Definition isAdminOrManager (reg : Registry) (userId : string) (guild : option string) : bool :=
  isAdmin userId guild || isManager reg userId.

(** What [options.getMentionable] hands over. *)
Inductive Mentionable : Type :=
| NoMention
| OneMention (u : User)
| ManyMentions (us : list User).

Definition safeMentionableArray (entity : Mentionable) : list User :=
  match entity with
  | NoMention => []
  | OneMention u => [u]
  | ManyMentions us => us
  end.

(** [[...new Set(l)]]: the elements of [l] in order of first occurrence. *)
Fixpoint dedupe_from {A} `{EqDecision A} (seen l : list A) : list A :=
  match l with
  | [] => []
  | x :: r =>
      if decide (x ∈ seen) then dedupe_from seen r
      else x :: dedupe_from (x :: seen) r
  end.

Definition dedupe {A} `{EqDecision A} (l : list A) : list A := dedupe_from [] l.

(** The replies of the command handlers, by kind. *)
Inductive Reply : Type :=
| Accepted
| NotFound          (* 'Invalid global index', 'Invalid index', 'Task not found' *)
| Forbidden         (* 'You are not assigned to this task', 'Only admins/managers' *)
| InvalidStatus     (* 'Invalid status. Allowed: ...' *)
| EmptyAssignment.  (* 'No users to assign' *)

(** The interaction: who issued the command, and in which guild. *)
Record Caller : Type := { user : User; guild : option string }.

(** A JavaScript value used as a condition: [null], [0] and [''] are false. *)
Definition truthyZ (o : option Z) : bool :=
  match o with Some z => negb (z =? 0)%Z | None => false end.

Definition truthyS (o : option string) : bool :=
  match o with Some s => negb (String.eqb s "") | None => false end.

(** [o || d] on strings *)
Definition or_else (o : option string) (d : string) : string :=
  match o with Some s => if String.eqb s "" then d else s | None => d end.

(** ** Deduplication and lookup *)

(** An entry of [getAllTasksUnique]: a copy [{...t, userId: uid}]. *)
Record Tagged : Type := { task : Task; userId : string }.

Definition unique_step (h : list Task) (uid : string)
    (acc : gset Z * list Tagged) (l : loc) : gset Z * list Tagged :=
  match h !! l with
  | Some t =>
      if decide (t_id t ∈ acc.1) then acc
      else ({[ t_id t ]} ∪ acc.1, acc.2 ++ [{| task := t; userId := uid |}])
  | None => acc
  end.

Definition unique_loop (h : list Task) (m : list (string * list loc))
    (acc : gset Z * list Tagged) : gset Z * list Tagged :=
  foldl (fun acc '(uid, ls) => foldl (unique_step h uid) acc ls) acc m.

Definition getAllTasksUnique (s : Store) : list Tagged :=
  (unique_loop (heap s) (tasks s) (∅, [])).2.

(** [list.findIndex(p)]; [None] is the source's [-1]. *)
Fixpoint findIndex {A} (p : A -> bool) (l : list A) : option nat :=
  match l with
  | [] => None
  | x :: r => if p x then Some 0 else S <$> findIndex p r
  end.

Definition has_id (h : list Task) (id : Z) (l : loc) : bool :=
  match h !! l with
  | Some t => (t_id t =? id)%Z
  | None => false
  end.

(** The result [{userId, index, task}] of a lookup; [f_task] is the
    reference [list[idx]] itself, not a copy. *)
Record Found : Type := { f_userId : string; f_index : nat; f_task : loc }.

Fixpoint findTaskById_in (h : list Task) (id : Z) (m : list (string * list loc))
  : option Found :=
  match m with
  | [] => None
  | (uid, ls) :: r =>
      match findIndex (has_id h id) ls with
      | Some idx =>
          match ls !! idx with
          | Some l => Some {| f_userId := uid; f_index := idx; f_task := l |}
          | None => None
          end
      | None => findTaskById_in h id r
      end
  end.

Definition findTaskById (id : Z) (s : Store) : option Found :=
  findTaskById_in (heap s) id (tasks s).

(** The same loop read as a recursion over the entries: an entry is kept
    when it is the first one with its id. *)
Fixpoint firsts (h : list Task) (seen : gset Z) (es : list (string * loc)) : list Tagged :=
  match es with
  | [] => []
  | (uid, l) :: r =>
      match h !! l with
      | Some t =>
          if decide (t_id t ∈ seen) then firsts h seen r
          else {| task := t; userId := uid |} :: firsts h ({[ t_id t ]} ∪ seen) r
      | None => firsts h seen r
      end
  end.

(** The ids of the task objects behind a run of entries. *)
Definition ids_of (h : list Task) (es : list (string * loc)) : list Z :=
  omap (fun e => t_id <$> h !! e.2) es.

(** A [Map] has one entry per key, and every stored reference points to a
    live object. *)
Definition wf (s : Store) : Prop :=
  NoDup (tasks s).*1
  /\ Forall (fun e => e.2 < length (heap s)) (entries (tasks s)).

(** Every entry of the index has a task object of its own: the state after
    a restart, where no object is shared between two collections. *)
Definition unshared (s : Store) : Prop := NoDup (entries (tasks s)).*2.

(** The list /task-list shows, whose positions /task-update and
    /task-delete take as [index]. *)
Definition task_list (reg : Registry) (c : Caller) (s : Store) : list Tagged :=
  if isAdminOrManager reg (u_id (user c)) (guild c) then getAllTasksUnique s
  else omap (fun l => (fun t => {| task := t; userId := u_id (user c) |}) <$> heap s !! l)
            (map_get_or_empty (u_id (user c)) (tasks s)).

(** ** Search *)

(** [[...query].filter(ch => title.includes(ch)).length] *)
Definition common (query title : string) : nat :=
  length (List.filter (fun ch => Str.includes (Str.of_char ch) title) (Str.chars query)).

Definition score (query : string) (t : Task) : Z :=
  let title := Str.toLowerCase (title t) in
  let desc := Str.toLowerCase (description t) in
  ((if String.eqb title query then 100 else 0)
   + (if Str.includes query title then 50 else 0)
   + (if Str.includes query desc then 20 else 0)
   + Z.of_nat (common query title))%Z.

(** [Array.prototype.sort(cmp)] is stable: [x] goes in front of the first
    element it does not compare greater than. *)
Fixpoint sort_insert {A} (cmp : A -> A -> Z) (x : A) (l : list A) : list A :=
  match l with
  | [] => [x]
  | y :: r => if (cmp x y <=? 0)%Z then x :: y :: r else y :: sort_insert cmp x r
  end.

Definition sort_by {A} (cmp : A -> A -> Z) (l : list A) : list A :=
  foldr (sort_insert cmp) [] l.

(** The comparator [(a, b) => key(b) - key(a)]: larger keys first. *)
Definition falling {A} (key : A -> Z) (a b : A) : Z := (key b - key a)%Z.

(** [l.slice(0, n)] *)
Definition slice0 {A} (n : Z) (l : list A) : list A :=
  if (n <? 0)%Z then take (Z.to_nat (Z.of_nat (length l) + n)) l
  else take (Z.to_nat n) l.

Definition fuzzySearchTasks (query : string) (limit : Z) (s : Store) : list Tagged :=
  let query := Str.toLowerCase query in
  let all := getAllTasksUnique s in
  let scored := map (fun t => (t, score query (task t))) all in
  let kept := List.filter (fun x => (0 <? x.2)%Z) scored in
  let sorted := sort_by (falling snd) kept in
  map fst (slice0 limit sorted).

(** *** The scoring as the specification words it

    The specification counts the distinct characters of the query that occur
    in the title; [claimed_score] and [claimed_search] follow that wording
    and are compared with [score] and [fuzzySearchTasks] below. *)




(** ** Backups *)

Definition string_sort (l : list string) : list string :=
  foldr (sort_insert (fun a b => if String.leb a b then (-1)%Z else 1%Z)) [] l.

Record Config : Type := {
  reminders : option (list string);
  backupRetention : Z
}.

(** [config.backupRetention || 10] *)
Definition keep_count (config : Config) : Z :=
  if (backupRetention config =? 0)%Z then 10%Z else backupRetention config.

(** [s.replace(/[:.]/g, '-')] *)
Fixpoint dash_stamp (s : string) : string :=
  match s with
  | EmptyString => EmptyString
  | String c r =>
      String (if Ascii.eqb c ":" || Ascii.eqb c "." then "-"%char else c) (dash_stamp r)
  end.

(** ** A calendar for the examples

    The entries of [Date.parse] and [toISOString] used by the concrete
    scenarios below; the general results do not depend on them. *)
Definition calendar : list (string * Z) :=
  [ ("2025-01-01T10:00:00.000Z", 1735725600000%Z);
    ("2025-01-01T09:10:00.000Z", 1735722600000%Z);
    ("2025-01-01T09:15:00.000Z", 1735722900000%Z);
    ("2025-01-01T09:00:00.000Z", 1735722000000%Z);
    ("2025-01-01T11:00:00.000Z", 1735729200000%Z);
    ("2025-01-02T10:00:00.000Z", 1735812000000%Z) ].

Definition calendar_parse (s : string) : option Z :=
  snd <$> List.find (fun e => String.eqb e.1 s) calendar.

Definition calendar_print (z : Z) : string :=
  default "" (fst <$> List.find (fun e => (e.2 =? z)%Z) calendar).

(** ** The first handler of /task-assign (index.js)

    The oldest handler keeps tasks by value under the key it was given and
    has no shared objects that matter here; it is kept next to the upgraded
    one because it resolves the assignees differently. *)

Module Legacy.

(** What ends up in [assignedIds]: a mentioned object or an id string. A
    [Set] tells two objects apart by identity; the client caches one
    object per user, so equal records stand for one object. *)
Inductive Assignee : Type :=
| AUser (u : User)
| AId (id : string).

#[export] Instance User_eq_dec : EqDecision User.
Proof. solve_decision. Defined.

#[export] Instance Assignee_eq_dec : EqDecision Assignee.
Proof. solve_decision. Defined.

Record LTask : Type := {
  l_id : Z;
  l_title : string;
  l_description : string;
  l_due : string;
  l_status : string;
  l_createdBy : string;
  l_assignedTo : list Assignee;
  l_department : option string;
  l_logs : list LogEntry;
  l_notified : bool
}.

Definition LStore : Type := list (Assignee * list LTask).

Fixpoint l_push (k : Assignee) (t : LTask) (m : LStore) : LStore :=
  match m with
  | [] => [(k, [t])]
  | (k', ts) :: r =>
      if decide (k' = k) then (k', ts ++ [t]) :: r else (k', ts) :: l_push k t r
  end.

(** [managers[userId] != null] *)
Definition isManager (reg : Registry) (userId : string) : bool :=
  bool_decide (is_Some (managers reg !! userId)).

Definition isAdminOrManager (reg : Registry) (userId : string) (guild : option string) : bool :=
  isAdmin userId guild || isManager reg userId.

(** [assignedIds] after the [Set] round trip: it starts from [[...users]],
    the mentioned objects themselves ([userIds] is computed and not used). *)
Definition resolve_assignees (reg : Registry) (dept : option string) (users : list User)
  : list Assignee :=
  let assignedIds := map AUser users in
  let department := if truthyS dept then dept else None in
  match department with
  | Some d =>
      match departments reg !! d with
      | Some members => dedupe (assignedIds ++ map AId members)
      | None => dedupe assignedIds
      end
  | None => dedupe assignedIds
  end.

(** [now_iso] is [new Date().toISOString()] and [now] is [Date.now()]. *)
Definition task_assign (reg : Registry) (c : Caller) (ttl : string)
    (desc dueStr dept : option string) (mention : Mentionable)
    (now : Z) (now_iso : string) (s : LStore) : Reply * LStore :=
  if negb (isAdminOrManager reg (u_id (user c)) (guild c)) then (Forbidden, s)
  else
    let users := safeMentionableArray mention in
    let assignedIds := resolve_assignees reg dept users in
    match assignedIds with
    | [] => (EmptyAssignment, s)
    | _ =>
        let t := {| l_id := now; l_title := ttl;
                    l_description := or_else desc "No description";
                    l_due := or_else dueStr "No deadline";
                    l_status := "Pending"; l_createdBy := username (user c);
                    l_assignedTo := assignedIds;
                    l_department := if truthyS dept then dept else None;
                    l_logs := [{| date := now_iso;
                                  action := "Task assigned by " ++ username (user c) |}];
                    l_notified := false |} in
        (Accepted, foldl (fun m k => l_push k t m) s assignedIds)
    end.

(** The identifier an entry of [assignedTo] stands for. *)
Definition ident (a : Assignee) : string :=
  match a with
  | AUser u => u_id u
  | AId id => id
  end.

End Legacy.

(** ** Scenarios

    The people, the registry and the clock readings of the worked examples. *)

Module Scenario.

Definition alice : User := {| u_id := "100000000000000001"; username := "alice" |}.
Definition bob : User := {| u_id := "100000000000000002"; username := "bob" |}.
Definition carol : User := {| u_id := "100000000000000003"; username := "carol" |}.
Definition dave : User := {| u_id := "100000000000000004"; username := "dave" |}.

(** alice owns the guild; nobody is a manager; bob and carol form "ops". *)
Definition owner_guild : option string := Some (u_id alice).

Definition as_user (u : User) : Caller := {| user := u; guild := owner_guild |}.

Definition registry : Registry :=
  {| departments := {[ "ops" := [u_id bob; u_id carol] ]}; managers := ∅ |}.

Definition at_0900 : Z := 1735722000000.
Definition at_0910 : Z := 1735722600000.
Definition at_0915 : Z := 1735722900000.
Definition at_1000 : Z := 1735725600000.
Definition at_1100 : Z := 1735729200000.

Definition due_1000 : string := "2025-01-01T10:00:00.000Z".

Definition one_hour : Config := {| reminders := Some ["1h"]; backupRetention := 10 |}.

(** Search: a task titled "b" scanned before one titled "a". *)
Definition plain (id : Z) (ttl : string) (owner : User) : Task :=
  {| t_id := id; title := ttl; description := ""; due := None; status := "Pending";
     createdBy := username owner; assignedTo := [u_id owner]; department := None;
     logs := []; remindersSent := [] |}.

Definition two_titles : Store :=
  {| heap := [plain 1 "b" bob; plain 2 "a" carol];
     tasks := [(u_id bob, [0]); (u_id carol, [1])] |}.

(** Backups. *)
Definition keep (n : Z) : Config := {| reminders := None; backupRetention := n |}.

End Scenario.

(** ** The bot

    The bot reads dates and prints times through [Clock]: [Date_parse s] is
    the time value of [new Date(s)] in milliseconds, [None] when the date is
    invalid, and [toISOString] prints a time value. The clock
    reading [now] of a handler is an argument of it: [Date.now()] and every
    [new Date()] of one handler run read the same value. *)

Class Clock : Type := {
  Date_parse : string -> option Z;
  toISOString : Z -> string
}.

Section Bot.

Context {K : Clock}.

Definition parseDue (dateStr : option string) : option string :=
  match dateStr with
  | None => None
  | Some s => if String.eqb s "" then None else toISOString <$> Date_parse s
  end.

Definition log_entry (now : Z) (a : string) : LogEntry :=
  {| date := toISOString now; action := a |}.

(** *** /task-create *)

Definition task_create (c : Caller) (ttl : string) (desc dueStr : option string)
    (now : Z) (s : Store) : Reply * Store :=
  let t := {| t_id := now; title := ttl; description := or_else desc "";
              due := parseDue dueStr; status := "Pending";
              createdBy := username (user c); assignedTo := [u_id (user c)];
              department := None; logs := [log_entry now "Created"];
              remindersSent := [] |} in
  let '(l, s1) := alloc t s in
  (Accepted, {| heap := heap s1; tasks := map_push (u_id (user c)) l (tasks s1) |}).

(** *** /task-update *)

Definition valid : list string := ["Pending"; "In Progress"; "Done"; "Blocked"; "Overdue"].

Definition status_entry (c : Caller) (st : string) (now : Z) : LogEntry :=
  log_entry now ("Status set to " ++ st ++ " by " ++ username (user c)).

(** [found.task.status = status; found.task.logs.push(...)] *)
Definition set_and_log (c : Caller) (st : string) (now : Z) (t : Task) : Task :=
  push_log (status_entry c st now) (set_status st t).

(** The caller passes the check on the assignees of [t]. *)
Definition may_touch (reg : Registry) (c : Caller) (t : Task) : Prop :=
  isAdminOrManager reg (u_id (user c)) (guild c) = true
  \/ u_id (user c) ∈ assignedTo t.

(** The part of the handler after the task has been resolved. *)
Definition apply_update (reg : Registry) (c : Caller) (st : string) (now : Z)
    (found : Found) (s : Store) : Reply * Store :=
  let assigned := default [] (assignedTo <$> heap s !! f_task found) in
  if negb (isAdminOrManager reg (u_id (user c)) (guild c))
     && negb (bool_decide (u_id (user c) ∈ assigned))
  then (Forbidden, s)
  else if negb (bool_decide (st ∈ valid)) then (InvalidStatus, s)
  else
    let s1 := mutate (set_and_log c st now) (f_task found) s in
    (Accepted,
     {| heap := heap s1;
        tasks := map_set_at (f_userId found) (f_index found) (f_task found) (tasks s1) |}).

Definition task_update (reg : Registry) (c : Caller) (id index : option Z)
    (st : string) (now : Z) (s : Store) : Reply * Store :=
  let found := if truthyZ id then findTaskById (default 0%Z id) s else None in
  match found with
  | Some f => apply_update reg c st now f s
  | None =>
      let i := default 0%Z index in
      if truthyZ index && isAdminOrManager reg (u_id (user c)) (guild c) then
        let all := getAllTasksUnique s in
        if (i <? 1)%Z || (Z.of_nat (length all) <? i)%Z then (NotFound, s)
        else
          match all !! Z.to_nat (i - 1) with
          | Some e =>
              match findTaskById (t_id (task e)) s with
              | Some f => apply_update reg c st now f s
              | None => (NotFound, s)
              end
          | None => (NotFound, s)
          end
      else
        let ulist := map_get_or_empty (u_id (user c)) (tasks s) in
        if negb (truthyZ index) || (i <? 1)%Z || (Z.of_nat (length ulist) <? i)%Z
        then (NotFound, s)
        else
          match ulist !! Z.to_nat (i - 1) with
          | Some l =>
              apply_update reg c st now
                {| f_userId := u_id (user c); f_index := Z.to_nat (i - 1); f_task := l |} s
          | None => (NotFound, s)
          end
  end.

(** *** /task-assign *)

(** The resolved assignee list: the ids of the mentioned users, then the
    members of the department when it is known, without repetitions. *)
Definition resolve_assignees (reg : Registry) (dept : option string) (users : list User)
  : list string * option string :=
  let assigned := map u_id users in
  let department := if truthyS dept then dept else None in
  match department with
  | Some d =>
      match departments reg !! d with
      | Some members => (dedupe (assigned ++ members), Some d)
      | None => (dedupe assigned, None)
      end
  | None => (dedupe assigned, None)
  end.


Definition task_assign (reg : Registry) (c : Caller) (ttl : string)
    (desc dueStr dept : option string) (mention : Mentionable)
    (now : Z) (s : Store) : Reply * Store :=
  if negb (isAdminOrManager reg (u_id (user c)) (guild c)) then (Forbidden, s)
  else
    let users := safeMentionableArray mention in
    let '(assigned, deptTag) := resolve_assignees reg dept users in
    match assigned with
    | [] => (EmptyAssignment, s)
    | _ =>
        let t := {| t_id := now; title := ttl; description := or_else desc "";
                    due := parseDue dueStr; status := "Pending";
                    createdBy := username (user c); assignedTo := assigned;
                    department := deptTag;
                    logs := [log_entry now ("Assigned by " ++ username (user c))];
                    remindersSent := [] |} in
        let '(l, s1) := alloc t s in
        (Accepted,
         {| heap := heap s1;
            tasks := foldl (fun m uid => map_push uid l m) (tasks s1) assigned |})
    end.

(** *** The reminder job *)

(** One batch of direct messages: the task, the threshold key and the
    recipients. *)
Record Fired : Type := { fired_task : Z; fired_key : string; fired_to : list string }.

Definition default_reminders : list string := ["24h"; "1h"].

Definition windows_of (config : Config) : list (string * option jsnum) :=
  List.filter (fun x => negb (from_option isNaN false x.2))
    (map (fun w => (w, parseWindowToMinutes w))
         (default default_reminders (reminders config))).

(** [diffMins <= mins], for [diffMins = diff / (1000*60)]; a [null] bound
    counts as [0]. *)
Definition within (diff : Z) (mins : option jsnum) : bool :=
  match mins with
  | None => (diff <=? 0)%Z
  | Some JNaN => false
  | Some (JInf neg) => negb neg
  | Some (JNum q) => Qle_bool (diff # 60000) q
  end.

Definition fire (key : string) (action_text : string) (now : Z) (t : Task) : Task * Fired :=
  (push_log (log_entry now action_text) (push_reminder key t),
   {| fired_task := t_id t; fired_key := key; fired_to := assignedTo t |}).

Definition window_step (now : Z) (diff : option Z)
    (acc : Task * list Fired) (w : string * option jsnum) : Task * list Fired :=
  let '(t, out) := acc in
  if bool_decide (w.1 ∈ remindersSent t) then acc
  else
    match diff with
    | Some d =>
        if (0 <? d)%Z && within d w.2 then
          let '(t', f) := fire w.1 ("Reminder (" ++ w.1 ++ ") sent") now t in
          (t', out ++ [f])
        else acc
    | None => acc
    end.

(** The body of the two loops for one task object. *)
Definition scan_task (now : Z) (windows : list (string * option jsnum)) (t : Task)
  : Task * list Fired :=
  if negb (truthyS (due t)) || String.eqb (status t) "Done" then (t, [])
  else
    let diff := (fun d => d - now)%Z <$> Date_parse (default "" (due t)) in
    let overdue :=
      match diff with
      | Some d => (d <? 0)%Z && negb (bool_decide ("overdue" ∈ remindersSent t))
      | None => false
      end in
    let acc :=
      if overdue then
        let '(t', f) := fire "overdue" "Overdue reminder sent" now t in (t', [f])
      else (t, []) in
    foldl (window_step now diff) acc windows.

(** The trace of a run records, with every batch, the task object the
    loop was visiting when it sent it. *)
Definition scan_step (now : Z) (windows : list (string * option jsnum))
    (acc : Store * list (loc * Fired)) (l : loc) : Store * list (loc * Fired) :=
  match heap acc.1 !! l with
  | Some t =>
      let '(t', out) := scan_task now windows t in
      (mutate (fun _ => t') l acc.1, acc.2 ++ map (pair l) out)
  | None => acc
  end.

(** One run of the job scheduled by [scheduleReminders]: the store it
    leaves and the messages it sends ([changed] is set exactly when a
    message was sent, and the store is then saved). *)
Definition scheduleReminders (config : Config) (now : Z) (s : Store)
  : Store * list (loc * Fired) :=
  foldl (fun acc '(_, ls) => foldl (scan_step now (windows_of config)) acc ls)
        (s, []) (tasks s).

(** The batches of a trace that are about task [id] and threshold [key]. *)
Definition batches_for (id : Z) (key : string) (tr : list (loc * Fired)) : list (loc * Fired) :=
  List.filter (fun x => (fired_task x.2 =? id)%Z && String.eqb (fired_key x.2) key) tr.

(** The threshold keys of the batches a trace holds for the task object
    [l], in the order they were sent. *)
Definition keys_sent (l : loc) (tr : list (loc * Fired)) : list string :=
  map (fun x => fired_key x.2) (List.filter (fun x => Nat.eqb x.1 l) tr).

(** Several runs of the job, one after the other, each with the
    configuration and the clock reading of its time. *)
Definition job_runs (runs : list (Config * Z)) (s : Store) : Store * list (loc * Fired) :=
  foldl (fun acc r =>
           let res := scheduleReminders r.1 r.2 acc.1 in (res.1, acc.2 ++ res.2))
        (s, []) runs.

(** What the loop body may do to a task [t]: it records the keys of the
    batches [out] it sends, none of them recorded before or sent twice,
    and keeps the id, the due date, the status and the assignees. *)
Definition records (t t' : Task) (out : list Fired) : Prop :=
  t_id t' = t_id t /\ due t' = due t /\ status t' = status t
  /\ assignedTo t' = assignedTo t
  /\ remindersSent t' = remindersSent t ++ map fired_key out
  /\ NoDup (map fired_key out)
  /\ Forall (fun f => (fired_key f ∉ remindersSent t)
                      /\ fired_task f = t_id t /\ fired_to f = assignedTo t) out.

(** What holds of the trace of a computation that started from the heap
    [h0]: each task object has recorded exactly the keys of the batches
    sent for it, each key once, and none that was recorded at the start. *)
Definition once_each (h0 h : list Task) (tr : list (loc * Fired)) : Prop :=
  forall l t0, h0 !! l = Some t0 ->
    exists t, h !! l = Some t
              /\ remindersSent t = remindersSent t0 ++ keys_sent l tr
              /\ NoDup (keys_sent l tr)
              /\ forall k, k ∈ keys_sent l tr -> k ∉ remindersSent t0.

(** *** Start-up *)

Definition is_overdue (now : Z) (t : Task) : bool :=
  truthyS (due t) && negb (String.eqb (status t) "Done")
  && match Date_parse (default "" (due t)) with
     | Some d => (d <? now)%Z && negb (String.eqb (status t) "Overdue")
     | None => false
     end.

(** The due date of [t] reads as a time before [now]. *)
Definition past_due (now : Z) (t : Task) : Prop :=
  exists txt d, due t = Some txt /\ txt <> "" /\ Date_parse txt = Some d /\ (d < now)%Z.

Definition startup_entry (now : Z) : LogEntry :=
  log_entry now "Auto-marked overdue on startup".

Definition mark_overdue (now : Z) (t : Task) : Task :=
  if is_overdue now t
  then push_log (startup_entry now) (set_status "Overdue" t)
  else t.

Definition ready_step (now : Z) (acc : Store * bool) (l : loc) : Store * bool :=
  match heap acc.1 !! l with
  | Some t => (mutate (mark_overdue now) l acc.1, acc.2 || is_overdue now t)
  | None => acc
  end.

(** The [ClientReady] handler: the store it leaves and its [changed] flag. *)
Definition on_ready (now : Z) (s : Store) : Store * bool :=
  foldl (fun acc '(_, ls) => foldl (ready_step now) acc ls) (s, false) (tasks s).

(** *** Backups *)

Definition backup_name (base : string) (now : Z) : string :=
  base ++ "." ++ dash_stamp (toISOString now) ++ ".bak.json".

(** [f.startsWith(base+'.')]: the backups of the file [base]. *)
Definition is_backup (base f : string) : bool := Str.startsWith (base ++ ".") f.

(** [backupFile(filePath)] on the listing [dir] of the backup directory;
    [base] is the base name of the file that was written. *)
Definition backupFile (config : Config) (base : string) (now : Z) (dir : list string)
  : list string :=
  let dest := backup_name base now in
  let dir1 := if bool_decide (dest ∈ dir) then dir else dir ++ [dest] in
  let files := List.filter (is_backup base) dir1 in
  let keep := keep_count config in
  if (keep <? Z.of_nat (length files))%Z then
    let remove := slice0 (Z.of_nat (length files) - keep) (string_sort files) in
    List.filter (fun f => negb (bool_decide (f ∈ remove))) dir1
  else dir1.

(** The listing after a run of writes of one file, at the given times. *)
Definition backups_after (config : Config) (base : string) (times : list Z)
    (dir : list string) : list string :=
  foldl (fun d t => backupFile config base t d) dir times.

End Bot.

(** The clock of the worked examples. *)
#[export] Instance calendar_clock : Clock :=
  {| Date_parse := calendar_parse; toISOString := calendar_print |}.

(** * The other commands

    The rest of the upgraded index.js: the exports, the commands on the
    registry and the configuration, and the commands that delete a task or
    change its assignees. *)

From stdpp Require Import pretty.

(** ** Exports *)

(** [s.replace(/c/g, r)] for a pattern of one character. *)
Fixpoint replace_char (c : ascii) (r : string) (s : string) : string :=
  match s with
  | EmptyString => EmptyString
  | String a rest =>
      (if Ascii.eqb a c then r else String a EmptyString) +:+ replace_char c r rest
  end.

(** [escapeHtml(s)], on the text [String(s||'')]. *)
Definition escapeHtml (s : string) : string :=
  replace_char ">" "&gt;" (replace_char "<" "&lt;" (replace_char "&" "&amp;" s)).

(** What one character of a text becomes. *)
Definition entity (c : ascii) : string :=
  if Ascii.eqb c "&" then "&amp;"
  else if Ascii.eqb c "<" then "&lt;"
  else if Ascii.eqb c ">" then "&gt;"
  else String c EmptyString.

Definition dquote : ascii := ascii_of_nat 34.

Definition newline : ascii := ascii_of_nat 10.

(** The quoted fields of [tasksToCSV]: the text between two quotes, with
    every quote of the text doubled. *)
Definition csv_quote (s : string) : string :=
  String dquote (replace_char dquote (String dquote (String dquote EmptyString)) s
                 +:+ String dquote EmptyString).

(** [(t.logs && t.logs.length) ? t.logs[t.logs.length-1].action : ''] *)
Definition lastLog (t : Task) : string :=
  match last (logs t) with
  | Some e => action e
  | None => EmptyString
  end.

(** [l.join(sep)] *)
Definition join (sep : string) (l : list string) : string := String.concat sep l.

Definition csv_header : list string :=
  ["id"; "title"; "description"; "due"; "status"; "createdBy"; "assignedTo";
   "department"; "lastLog"].

Definition csv_row (t : Task) : list string :=
  [pretty (t_id t); csv_quote (title t); csv_quote (description t);
   or_else (due t) EmptyString; status t; createdBy t; join ";" (assignedTo t);
   or_else (department t) EmptyString;
   csv_quote (replace_char newline " " (lastLog t))].

Definition tasksToCSV (allTasks : list Task) : string :=
  join (String newline EmptyString) (map (join ",") (csv_header :: map csv_row allTasks)).

(** A reader of quoted fields, as the readers of CSV files have it: after
    the opening quote two quotes in a row stand for one quote of the text
    and a single quote ends the field. It returns the text and what follows
    the field. *)
Fixpoint read_quoted_body (s : string) : option (string * string) :=
  match s with
  | EmptyString => None
  | String a r =>
      if Ascii.eqb a dquote then
        match r with
        | String b r' =>
            if Ascii.eqb b dquote
            then (fun x => (String dquote x.1, x.2)) <$> read_quoted_body r'
            else Some (EmptyString, r)
        | EmptyString => Some (EmptyString, EmptyString)
        end
      else (fun x => (String a x.1, x.2)) <$> read_quoted_body r
  end.

Definition read_quoted (s : string) : option (string * string) :=
  match s with
  | String a r => if Ascii.eqb a dquote then read_quoted_body r else None
  | EmptyString => None
  end.

(** ** /set-reminders *)




(** ** The commands on the registry

    [departments] and [managers] are plain objects used as maps; the names
    of departments are taken not to be names that every object inherits. *)

(** /manager-add: [users.forEach(u=>{ managers[u.id]=true; })] *)
Definition manager_add (c : Caller) (mention : Mentionable) (reg : Registry)
  : Reply * Registry :=
  if negb (isAdmin (u_id (user c)) (guild c)) then (Forbidden, reg)
  else
    (Accepted,
     {| departments := departments reg;
        managers := foldl (fun m u => <[u_id u := true]> m) (managers reg)
                          (safeMentionableArray mention) |}).


(** /department-add-member (the second draft) *)
Definition department_add_member (c : Caller) (name : string) (member : User)
    (reg : Registry) : Reply * Registry :=
  if negb (isAdmin (u_id (user c)) (guild c)) then (Forbidden, reg)
  else
    let members := default [] (departments reg !! name) in
    let members' :=
      if bool_decide (u_id member ∈ members) then members else members ++ [u_id member] in
    (Accepted,
     {| departments := <[name := members']> (departments reg); managers := managers reg |}).

(** /department-remove-member (the second draft) *)
Definition department_remove_member (c : Caller) (name : string) (member : User)
    (reg : Registry) : Reply * Registry :=
  if negb (isAdmin (u_id (user c)) (guild c)) then (Forbidden, reg)
  else
    match departments reg !! name with
    | None => (NotFound, reg)
    | Some members =>
        (Accepted,
         {| departments :=
              <[name := List.filter (fun id => negb (String.eqb id (u_id member))) members]>
                (departments reg);
            managers := managers reg |})
    end.

(** ** Deleting a task and changing its assignees *)

(** [tasks.get(uid).splice(i, 1)] *)
Fixpoint map_delete_at (uid : string) (i : nat) (m : list (string * list loc))
  : list (string * list loc) :=
  match m with
  | [] => []
  | (k, ls) :: r =>
      if String.eqb k uid then (k, delete i ls) :: r
      else (k, ls) :: map_delete_at uid i r
  end.

(** The task a command names by [id] or by [index]: the first part of the
    handlers of /task-update and /task-delete, which ends with a reply or
    with the entry found. *)
Definition resolve_target (reg : Registry) (c : Caller) (id index : option Z) (s : Store)
  : Reply + Found :=
  let found := if truthyZ id then findTaskById (default 0%Z id) s else None in
  match found with
  | Some f => inr f
  | None =>
      let i := default 0%Z index in
      if truthyZ index && isAdminOrManager reg (u_id (user c)) (guild c) then
        let all := getAllTasksUnique s in
        if (i <? 1)%Z || (Z.of_nat (length all) <? i)%Z then inl NotFound
        else
          match all !! Z.to_nat (i - 1) with
          | Some e =>
              match findTaskById (t_id (task e)) s with
              | Some f => inr f
              | None => inl NotFound
              end
          | None => inl NotFound
          end
      else
        let ulist := map_get_or_empty (u_id (user c)) (tasks s) in
        if negb (truthyZ index) || (i <? 1)%Z || (Z.of_nat (length ulist) <? i)%Z
        then inl NotFound
        else
          match ulist !! Z.to_nat (i - 1) with
          | Some l =>
              inr {| f_userId := u_id (user c); f_index := Z.to_nat (i - 1); f_task := l |}
          | None => inl NotFound
          end
  end.

(** /task-delete *)
Definition task_delete (reg : Registry) (c : Caller) (id index : option Z) (s : Store)
  : Reply * Store :=
  match resolve_target reg c id index s with
  | inl r => (r, s)
  | inr found =>
      let assigned := default [] (assignedTo <$> heap s !! f_task found) in
      if negb (isAdminOrManager reg (u_id (user c)) (guild c))
         && negb (bool_decide (u_id (user c) ∈ assigned))
      then (Forbidden, s)
      else
        (Accepted,
         {| heap := heap s;
            tasks := map_delete_at (f_userId found) (f_index found) (tasks s) |})
  end.

Definition set_assignees (a : list string) (t : Task) : Task :=
  {| t_id := t_id t; title := title t; description := description t;
     due := due t; status := status t; createdBy := createdBy t;
     assignedTo := a; department := department t;
     logs := logs t; remindersSent := remindersSent t |}.

(** [if (!t.assignedTo.includes(uid)) t.assignedTo.push(uid)] *)
Definition add_assignee (uid : string) (t : Task) : Task :=
  if bool_decide (uid ∈ assignedTo t) then t
  else set_assignees (assignedTo t ++ [uid]) t.

(** The ids a command names, in the order [toAdd] has them: the mentioned
    users, then the members of the department when it is known. *)
Definition named_ids (reg : Registry) (dept : option string) (users : list User)
  : list string :=
  map u_id users
  ++ (if truthyS dept then default [] (departments reg !! default EmptyString dept) else []).

(** The assignees after a run of additions. *)
Definition add_all (us : list string) (t : Task) : Task :=
  foldl (fun t u => add_assignee u t) t us.

(** The body of [toAdd.forEach] for the task object [l]. *)
Definition add_step (l : loc) (s : Store) (uid : string) : Store :=
  let s1 := mutate (add_assignee uid) l s in
  {| heap := heap s1; tasks := map_push uid l (tasks s1) |}.

(** [t.assignedTo = t.assignedTo.filter(id => id !== u.id)] *)
Definition drop_assignee (uid : string) (t : Task) : Task :=
  set_assignees (List.filter (fun id => negb (String.eqb id uid)) (assignedTo t)) t.

(** The body of [users.forEach] for the task object [l]: the user leaves
    the assignees of the object, and the first entry of the user's
    collection with the id of the object is taken out. *)
Definition remove_step (l : loc) (s : Store) (u : User) : Store :=
  let s1 := mutate (drop_assignee (u_id u)) l s in
  match heap s1 !! l with
  | Some t =>
      let userTasks := map_get_or_empty (u_id u) (tasks s1) in
      match findIndex (has_id (heap s1) (t_id t)) userTasks with
      | Some idx => {| heap := heap s1; tasks := map_delete_at (u_id u) idx (tasks s1) |}
      | None => s1
      end
  | None => s1
  end.

(** The assignees after a run of removals. *)
Definition drop_all (us : list User) (t : Task) : Task :=
  foldl (fun t u => drop_assignee (u_id u) t) t us.

(** The collection [ls] without its first entry whose task has the id. *)
Definition remove_first (h : list Task) (id : Z) (ls : list loc) : list loc :=
  match findIndex (has_id h id) ls with
  | Some i => delete i ls
  | None => ls
  end.

(** [findTaskById(options.getInteger('id'))]: an absent option is [null],
    which is the id of no task. *)
Definition findTaskById_opt (id : option Z) (s : Store) : option Found :=
  match id with
  | Some i => findTaskById i s
  | None => None
  end.

Section Commands.

Context {K : Clock}.

(** /task-add-assignee *)
Definition task_add_assignee (reg : Registry) (c : Caller) (taskId : option Z)
    (dept : option string) (mention : Mentionable) (now : Z) (s : Store) : Reply * Store :=
  if negb (isAdminOrManager reg (u_id (user c)) (guild c)) then (Forbidden, s)
  else
    match findTaskById_opt taskId s with
    | None => (NotFound, s)
    | Some taskInfo =>
        let toAdd := named_ids reg dept (safeMentionableArray mention) in
        let s1 := foldl (add_step (f_task taskInfo)) s toAdd in
        (Accepted,
         mutate (push_log (log_entry now ("Assignees added by " +:+ username (user c))))
                (f_task taskInfo) s1)
    end.

(** /task-remove-assignee *)
Definition task_remove_assignee (reg : Registry) (c : Caller) (taskId : option Z)
    (mention : Mentionable) (now : Z) (s : Store) : Reply * Store :=
  if negb (isAdminOrManager reg (u_id (user c)) (guild c)) then (Forbidden, s)
  else
    match findTaskById_opt taskId s with
    | None => (NotFound, s)
    | Some taskInfo =>
        let s1 := foldl (remove_step (f_task taskInfo)) s (safeMentionableArray mention) in
        (Accepted,
         mutate (push_log (log_entry now ("Assignees removed by " +:+ username (user c))))
                (f_task taskInfo) s1)
    end.

End Commands.

(** ** What the reminder job leaves of a task *)

(** [t'] is [t] with more log entries and more recorded reminders, and
    nothing else changed. *)
Definition marked_from (t t' : Task) : Prop :=
  t_id t' = t_id t /\ title t' = title t /\ description t' = description t
  /\ due t' = due t /\ status t' = status t /\ createdBy t' = createdBy t
  /\ assignedTo t' = assignedTo t /\ department t' = department t
  /\ logs t `prefix_of` logs t'
  /\ remindersSent t `prefix_of` remindersSent t'.

Section Batches.

Context {K : Clock}.


End Batches.

(** ** The list of all tasks, read from what is saved *)

(** The (user id, task) pairs of a snapshot, in scan order. *)
Definition values (snap : Snapshot) : list (string * Task) :=
  flat_map (fun '(uid, ts) => map (pair uid) ts) snap.

(** The loop of [getAllTasksUnique] over such pairs. *)
Fixpoint firsts_of (seen : gset Z) (vs : list (string * Task)) : list Tagged :=
  match vs with
  | [] => []
  | (uid, t) :: r =>
      if decide (t_id t ∈ seen) then firsts_of seen r
      else {| task := t; userId := uid |} :: firsts_of ({[ t_id t ]} ∪ seen) r
  end.

(** ** More scenarios *)

Module Cases.
Import Scenario.

(** The task of the worked examples: assigned by alice to the department
    "ops" at 09:00, due at 10:00. *)
Definition ship : Task :=
  {| t_id := at_0900; title := "Ship release"; description := EmptyString;
     due := Some due_1000; status := "Pending"; createdBy := "alice";
     assignedTo := [u_id bob; u_id carol]; department := Some "ops";
     logs := [{| date := "2025-01-01T09:00:00.000Z"; action := "Assigned by alice" |}];
     remindersSent := [] |}.

(** The store after that assignment: one task object in two collections. *)
Definition assigned : Store :=
  {| heap := [ship]; tasks := [(u_id bob, [0]); (u_id carol, [0])] |}.


(** A backup directory with a file of another kind and an older backup. *)
Definition backups : list string :=
  ["notes.txt"; "tasks.json.2024-12-31T09-00-00-000Z.bak.json"].

End Cases.

(** * Properties *)

(** ** Strings *)

Lemma append_cons (c : ascii) (s t : string) : String c s +:+ t = String c (s +:+ t).
Proof. reflexivity. Qed.

Lemma append_nil_l (t : string) : "" +:+ t = t.
Proof. reflexivity. Qed.

Ltac sapp := rewrite ?append_cons, ?append_nil_l in *.

Lemma append_nil_r (s : string) : s +:+ "" = s.
Proof. induction s as [|c s IH]; sapp; [reflexivity | by f_equal]. Qed.

Lemma append_assoc (a b c : string) : (a +:+ b) +:+ c = a +:+ (b +:+ c).
Proof. induction a as [|x a IH]; sapp; [reflexivity | by f_equal]. Qed.


Lemma is_space_lower (c : ascii) : Str.is_space (Str.lower_char c) = Str.is_space c.
Proof.
  destruct c as [[] [] [] [] [] [] [] []]; reflexivity.
Qed.

Lemma toLowerCase_trimStart (s : string) :
  Str.toLowerCase (Str.trimStart s) = Str.trimStart (Str.toLowerCase s).
Proof.
  induction s as [|c s IH]; simpl; [reflexivity|].
  rewrite is_space_lower. destruct (Str.is_space c); [exact IH | reflexivity].
Qed.








(** ** Reading numbers *)

Import Str ParseFloat.

















(** ** Reminder windows *)

Example parseWindow_24h : parseWindowToMinutes "24h" = Some (JNum (inject_Z 24 * 60)).
Proof. reflexivity. Qed.
Example parseWindow_30m : parseWindowToMinutes " 30M " = Some (JNum (inject_Z 30)).
Proof. reflexivity. Qed.
Example parseWindow_2d : parseWindowToMinutes "2d" = Some (JNum (inject_Z 2 * 60 * 24)).
Proof. reflexivity. Qed.
Example parseWindow_1_5h : parseWindowToMinutes "1.5h" = Some (JNum ((15 # 10) * 60)).
Proof. reflexivity. Qed.
Example parseWindow_junk : parseWindowToMinutes "soon" = Some JNaN.
Proof. reflexivity. Qed.
Example parseWindow_bare : parseWindowToMinutes "30" = Some (JNum (inject_Z 30 * 60)).
Proof. reflexivity. Qed.


(** ** The index as a list of entries *)

Lemma foldl_pairs {B} (step : B -> loc -> B) (uid : string) (ls : list loc) (acc : B) :
  foldl (fun a (e : string * loc) => step a e.2) acc (map (pair uid) ls) = foldl step acc ls.
Proof. revert acc. induction ls as [|l ls IH]; intros acc; simpl; [done | apply IH]. Qed.

(** The two nested loops visit the entries in the order of [entries]. *)
Lemma foldl_entries {B} (step : B -> loc -> B) (m : list (string * list loc)) (acc : B) :
  foldl (fun a '(_, ls) => foldl step a ls) acc m
  = foldl (fun a (e : string * loc) => step a e.2) acc (entries m).
Proof.
  revert acc. induction m as [|[uid ls] m IH]; intros acc; simpl; [done|].
  rewrite foldl_app, foldl_pairs. apply IH.
Qed.

Lemma entries_app (m1 m2 : list (string * list loc)) :
  entries (m1 ++ m2) = entries m1 ++ entries m2.
Proof. unfold entries. apply flat_map_app. Qed.

Lemma ids_of_app (h : list Task) (e1 e2 : list (string * loc)) :
  ids_of h (e1 ++ e2) = ids_of h e1 ++ ids_of h e2.
Proof. unfold ids_of. apply omap_app. Qed.

Lemma ids_of_cons (h : list Task) (e : string * loc) (es : list (string * loc)) :
  ids_of h (e :: es)
  = match h !! e.2 with Some t => t_id t :: ids_of h es | None => ids_of h es end.
Proof. unfold ids_of. simpl. by destruct (h !! e.2). Qed.

(** ** Deduplication *)

Lemma unique_step_firsts (h : list Task) (es : list (string * loc))
    (seen : gset Z) (out : list Tagged) :
  (foldl (fun a (e : string * loc) => unique_step h e.1 a e.2) (seen, out) es).2
  = out ++ firsts h seen es.
Proof.
  revert seen out. induction es as [|[uid l] es IH]; intros seen out; simpl.
  - by rewrite app_nil_r.
  - unfold unique_step at 2. simpl.
    destruct (h !! l) as [t|]; [|apply IH].
    destruct (decide (t_id t ∈ seen)); [apply IH|].
    rewrite IH. by rewrite <- app_assoc.
Qed.

Lemma unique_loop_entries (h : list Task) (m : list (string * list loc))
    (acc : gset Z * list Tagged) :
  unique_loop h m acc
  = foldl (fun a (e : string * loc) => unique_step h e.1 a e.2) acc (entries m).
Proof.
  unfold unique_loop. revert acc.
  induction m as [|[uid ls] m IH]; intros acc; simpl; [done|].
  rewrite foldl_app, IH. f_equal.
  generalize acc. induction ls as [|l ls IHl]; intros a; simpl; [done | apply IHl].
Qed.

Lemma getAllTasksUnique_firsts (s : Store) :
  getAllTasksUnique s = firsts (heap s) ∅ (entries (tasks s)).
Proof.
  unfold getAllTasksUnique. rewrite unique_loop_entries.
  by rewrite unique_step_firsts.
Qed.

Lemma firsts_fresh (h : list Task) (es : list (string * loc)) (seen : gset Z) (e : Tagged) :
  e ∈ firsts h seen es -> t_id (task e) ∉ seen.
Proof.
  revert seen. induction es as [|[uid l] es IH]; intros seen; simpl.
  - by intros ?%elem_of_nil.
  - destruct (h !! l) as [t|]; [|apply IH].
    destruct (decide (t_id t ∈ seen)); [apply IH|].
    intros [->|He]%elem_of_cons; [done|].
    apply IH in He. set_solver.
Qed.

Lemma firsts_NoDup (h : list Task) (es : list (string * loc)) (seen : gset Z) :
  NoDup (map (fun e => t_id (task e)) (firsts h seen es)).
Proof.
  revert seen. induction es as [|[uid l] es IH]; intros seen; simpl.
  - constructor.
  - destruct (h !! l) as [t|]; [|apply IH].
    destruct (decide (t_id t ∈ seen)); [apply IH|].
    simpl. constructor; [|apply IH].
    intros (e & He1 & He2)%list_elem_of_fmap.
    apply firsts_fresh in He2. simpl in He1. set_solver.
Qed.

Lemma firsts_ids (h : list Task) (es : list (string * loc)) (seen : gset Z) (id : Z) :
  id ∈ map (fun e => t_id (task e)) (firsts h seen es)
  <-> id ∈ ids_of h es /\ id ∉ seen.
Proof.
  revert seen. induction es as [|[uid l] es IH]; intros seen.
  - simpl. split; [by intros ?%elem_of_nil | by intros [?%elem_of_nil _]].
  - rewrite ids_of_cons. simpl.
    destruct (h !! l) as [t|]; [|apply IH].
    destruct (decide (t_id t ∈ seen)) as [Hin|Hout].
    + rewrite IH, elem_of_cons. split; [tauto|].
      intros [[->|?] ?]; [done | tauto].
    + simpl. rewrite !elem_of_cons, IH. split.
      * intros [->|[? Hn]]; [tauto|]. split; [tauto|].
        by apply not_elem_of_union in Hn as [_ ?].
      * intros [[->|?] ?]; [tauto|].
        destruct (decide (id = t_id t)); [tauto|]. right. split; [done|].
        apply not_elem_of_union. split; [by apply not_elem_of_singleton | done].
Qed.

(** Each entry kept is the first of the scan with its id. *)
Lemma firsts_first (h : list Task) (es : list (string * loc)) (seen : gset Z) (e : Tagged) :
  e ∈ firsts h seen es ->
  exists e1 l e2,
    es = e1 ++ (userId e, l) :: e2
    /\ h !! l = Some (task e)
    /\ t_id (task e) ∉ ids_of h e1.
Proof.
  revert seen. induction es as [|[uid l] es IH]; intros seen; simpl.
  - by intros ?%elem_of_nil.
  - destruct (h !! l) as [t|] eqn:Hl.
    + destruct (decide (t_id t ∈ seen)) as [Hin|Hout].
      * intros He. pose proof (firsts_fresh _ _ _ _ He) as Hf.
        destruct (IH _ He) as (e1 & l' & e2 & -> & Hl' & Hn).
        exists ((uid, l) :: e1), l', e2. split; [done|]. split; [done|].
        rewrite ids_of_cons. simpl. rewrite Hl.
        apply not_elem_of_cons. split; [|done]. intros Heq. by rewrite Heq in Hf.
      * intros [->|He]%elem_of_cons.
        -- exists [], l, es. simpl. split; [done|]. split; [done|]. apply not_elem_of_nil.
        -- pose proof (firsts_fresh _ _ _ _ He) as Hf.
           destruct (IH _ He) as (e1 & l' & e2 & -> & Hl' & Hn).
           exists ((uid, l) :: e1), l', e2. split; [done|]. split; [done|].
           rewrite ids_of_cons. simpl. rewrite Hl.
           apply not_elem_of_cons. split; [|done]. intros Heq.
           apply Hf. rewrite Heq. set_solver.
    + intros He. destruct (IH _ He) as (e1 & l' & e2 & -> & Hl' & Hn).
      exists ((uid, l) :: e1), l', e2. split; [done|]. split; [done|].
      rewrite ids_of_cons. simpl. by rewrite Hl.
Qed.

(** C8. [getAllTasksUnique] returns one entry for every task id stored in
    some collection and no two entries with the same id; each entry is the
    first occurrence of its id in scan order: a copy of the task object of
    that entry, tagged with the user whose collection holds it. *)
Theorem getAllTasksUnique_first_wins (s : Store) :
  NoDup (map (fun e => t_id (task e)) (getAllTasksUnique s))
  /\ (forall id, id ∈ map (fun e => t_id (task e)) (getAllTasksUnique s)
                 <-> id ∈ ids_of (heap s) (entries (tasks s)))
  /\ (forall e, e ∈ getAllTasksUnique s ->
        exists e1 l e2,
          entries (tasks s) = e1 ++ (userId e, l) :: e2
          /\ heap s !! l = Some (task e)
          /\ t_id (task e) ∉ ids_of (heap s) e1).
Proof.
  rewrite getAllTasksUnique_firsts. split; [apply firsts_NoDup|]. split.
  - intros id. rewrite firsts_ids. split; [tauto|].
    intros Hid. split; [done | apply not_elem_of_empty].
  - intros e. apply firsts_first.
Qed.

(** ** Lookup by id *)

Lemma findIndex_Some {A} (p : A -> bool) (l : list A) (i : nat) :
  findIndex p l = Some i ->
  exists l1 x l2,
    l = l1 ++ x :: l2 /\ length l1 = i /\ p x = true
    /\ Forall (fun y => p y = false) l1.
Proof.
  revert i. induction l as [|y l IH]; intros i; simpl; [done|].
  destruct (p y) eqn:Hy.
  - intros [= <-]. by exists [], y, l.
  - destruct (findIndex p l) as [j|]; simpl; [|done].
    intros [= <-]. destruct (IH j eq_refl) as (l1 & x & l2 & -> & <- & Hx & Hl1).
    exists (y :: l1), x, l2. repeat split; [done | by constructor].
Qed.

Lemma findIndex_None {A} (p : A -> bool) (l : list A) :
  findIndex p l = None -> Forall (fun y => p y = false) l.
Proof.
  induction l as [|y l IH]; simpl; [by constructor|].
  destruct (p y) eqn:Hy; [done|].
  destruct (findIndex p l); simpl; [done|]. intros _. constructor; [done | by apply IH].
Qed.

Lemma findIndex_is_Some {A} (p : A -> bool) (l : list A) (x : A) :
  x ∈ l -> p x = true -> is_Some (findIndex p l).
Proof.
  intros Hx Hp. destruct (findIndex p l) eqn:E; [by eexists|].
  apply findIndex_None in E. rewrite Forall_forall in E.
  apply E in Hx. congruence.
Qed.

Lemma has_id_absent (h : list Task) (id : Z) (es : list (string * loc)) :
  Forall (fun e => has_id h id e.2 = false) es <-> id ∉ ids_of h es.
Proof.
  induction es as [|e es IH].
  - split; [intros _; apply not_elem_of_nil | constructor].
  - rewrite Forall_cons, ids_of_cons, IH. unfold has_id.
    destruct (h !! e.2) as [t|].
    + rewrite not_elem_of_cons. rewrite Z.eqb_neq. split; intros [? ?]; split; congruence.
    + tauto.
Qed.

(** What a successful lookup returns: the position of the first entry, in
    scan order, whose task has the id. *)
Lemma findTaskById_in_Some (h : list Task) (id : Z) (m : list (string * list loc)) (f : Found) :
  findTaskById_in h id m = Some f ->
  exists m1 ls m2,
    m = m1 ++ (f_userId f, ls) :: m2
    /\ ls !! f_index f = Some (f_task f)
    /\ has_id h id (f_task f) = true
    /\ exists e2, entries m
                  = (entries m1 ++ map (pair (f_userId f)) (take (f_index f) ls))
                    ++ (f_userId f, f_task f) :: e2
    /\ id ∉ ids_of h (entries m1 ++ map (pair (f_userId f)) (take (f_index f) ls)).
Proof.
  induction m as [|[uid ls] m IH]; simpl; [done|].
  destruct (findIndex (has_id h id) ls) as [idx|] eqn:Hidx.
  - destruct (findIndex_Some _ _ _ Hidx) as (l1 & x & l2 & -> & <- & Hx & Hl1).
    rewrite list_lookup_middle by done. intros [= <-]. simpl.
    exists [], (l1 ++ x :: l2), m. split; [done|].
    split; [by apply list_lookup_middle|]. split; [done|].
    rewrite take_app_length. simpl.
    exists (map (pair uid) l2 ++ entries m). split.
    + by rewrite map_app, <- app_assoc.
    + apply has_id_absent. apply Forall_fmap. by eapply Forall_impl.
  - intros Hf. destruct (IH Hf) as (m1 & ls' & m2 & -> & Hl & Hid & e2 & He & Hn).
    exists ((uid, ls) :: m1), ls', m2. split; [done|]. split; [done|]. split; [done|].
    exists e2. simpl. split.
    + rewrite He. by rewrite <- !app_assoc.
    + rewrite <- app_assoc, ids_of_app. rewrite not_elem_of_app. split; [|done].
      apply has_id_absent, Forall_fmap. apply findIndex_None in Hidx.
      by eapply Forall_impl.
Qed.

Lemma findTaskById_in_None (h : list Task) (id : Z) (m : list (string * list loc)) :
  findTaskById_in h id m = None -> id ∉ ids_of h (entries m).
Proof.
  induction m as [|[uid ls] m IH]; simpl; [intros _; apply not_elem_of_nil|].
  destruct (findIndex (has_id h id) ls) as [idx|] eqn:Hidx.
  - destruct (findIndex_Some _ _ _ Hidx) as (l1 & x & l2 & -> & <- & Hx & Hl1).
    by rewrite list_lookup_middle.
  - intros Hf. rewrite ids_of_app, not_elem_of_app. split; [|by apply IH].
    apply has_id_absent, Forall_fmap. apply findIndex_None in Hidx.
    by eapply Forall_impl.
Qed.

Lemma first_unique {A} (P : A -> Prop) (a a' b b' : list A) (x x' : A) :
  a ++ x :: b = a' ++ x' :: b' ->
  Forall (fun y => ~ P y) a -> P x -> Forall (fun y => ~ P y) a' -> P x' ->
  a = a' /\ x = x' /\ b = b'.
Proof.
  revert a'. induction a as [|y a IH]; intros [|y' a']; simpl.
  - by intros [= -> ->].
  - intros [= -> _] _ Hx [Hy _]%Forall_cons _. done.
  - intros [= <- _] [Hy _]%Forall_cons _ _ Hx. done.
  - intros [= <- He] [_ Ha]%Forall_cons Hx [_ Ha']%Forall_cons Hx'.
    destruct (IH _ He Ha Hx Ha' Hx') as (-> & -> & ->). done.
Qed.

(** The entry [getAllTasksUnique] keeps for an id is the one
    [findTaskById] returns for it. *)
Lemma findTaskById_of_unique (s : Store) (e : Tagged) :
  e ∈ getAllTasksUnique s ->
  exists f, findTaskById (t_id (task e)) s = Some f
            /\ f_userId f = userId e
            /\ heap s !! f_task f = Some (task e).
Proof.
  rewrite getAllTasksUnique_firsts. intros He.
  destruct (firsts_first _ _ _ _ He) as (e1 & l & e2 & Hes & Hl & Hn).
  unfold findTaskById.
  destruct (findTaskById_in (heap s) (t_id (task e)) (tasks s)) as [f|] eqn:Hf.
  - exists f. split; [done|].
    destruct (findTaskById_in_Some _ _ _ _ Hf) as (m1 & ls & m2 & _ & _ & Hid & e2' & Hes' & Hn').
    rewrite Hes in Hes'.
    apply (first_unique (fun x => has_id (heap s) (t_id (task e)) x.2 = true)) in Hes'
      as (_ & [= Hu Hl'] & _).
    + split; [done|]. by rewrite <- Hl'.
    + apply has_id_absent in Hn. eapply Forall_impl; [exact Hn|].
      simpl. intros x Hx. by rewrite Hx.
    + simpl. unfold has_id. rewrite Hl. apply Z.eqb_refl.
    + apply has_id_absent in Hn'. eapply Forall_impl; [exact Hn'|].
      simpl. intros x Hx. by rewrite Hx.
    + done.
  - apply findTaskById_in_None in Hf. exfalso. apply Hf.
    rewrite Hes, ids_of_app, ids_of_cons. simpl. rewrite Hl. set_solver.
Qed.

(** ** The index as a map *)

Lemma map_get_middle (m1 m2 : list (string * list loc)) (uid : string) (ls : list loc) :
  uid ∉ m1.*1 -> map_get uid (m1 ++ (uid, ls) :: m2) = Some ls.
Proof.
  induction m1 as [|[k l] m1 IH]; simpl; intros Hk.
  - by rewrite String.eqb_refl.
  - apply not_elem_of_cons in Hk as [Hk1 Hk2]. simpl in Hk1.
    destruct (String.eqb_spec k uid); [congruence | by apply IH].
Qed.

Lemma map_get_entries (m : list (string * list loc)) (uid : string) (ls : list loc) (l : loc) :
  map_get uid m = Some ls -> l ∈ ls -> (uid, l) ∈ entries m.
Proof.
  induction m as [|[k l'] m IH]; simpl; [done|].
  destruct (String.eqb_spec k uid) as [->|Hne].
  - intros [= ->] Hl. apply elem_of_app. left. by apply list_elem_of_fmap_2.
  - intros Hg Hl. apply elem_of_app. right. by apply IH.
Qed.

Lemma map_set_at_same (m : list (string * list loc)) (uid : string)
    (ls : list loc) (i : nat) (l : loc) :
  map_get uid m = Some ls -> ls !! i = Some l -> map_set_at uid i l m = m.
Proof.
  induction m as [|[k l'] m IH]; simpl; [done|].
  destruct (String.eqb_spec k uid) as [->|Hne].
  - intros [= ->] Hl. by rewrite list_insert_id.
  - intros Hg Hl. f_equal. by apply IH.
Qed.

Lemma findTaskById_position (s : Store) (id : Z) (f : Found) :
  NoDup (tasks s).*1 ->
  findTaskById id s = Some f ->
  exists ls, map_get (f_userId f) (tasks s) = Some ls
             /\ ls !! f_index f = Some (f_task f)
             /\ has_id (heap s) id (f_task f) = true.
Proof.
  intros Hnd Hf. unfold findTaskById in Hf.
  destruct (findTaskById_in_Some _ _ _ _ Hf) as (m1 & ls & m2 & Hm & Hl & Hid & _).
  exists ls. split; [|done]. rewrite Hm in Hnd |- *.
  apply map_get_middle. rewrite fmap_app in Hnd. simpl in Hnd.
  apply NoDup_app in Hnd as (_ & Hd & _). intros Hin. apply (Hd _ Hin). left.
Qed.

(** ** /task-update *)

Lemma omap_total {A B} (g : A -> option B) (l : list A) :
  Forall (fun x => is_Some (g x)) l ->
  length (omap g l) = length l /\ forall k, omap g l !! k = l !! k ≫= g.
Proof.
  induction 1 as [|x l [y Hy] Hl [IH1 IH2]]; simpl; [done|].
  rewrite Hy. simpl. split; [by f_equal|].
  intros [|k]; simpl; [by rewrite Hy | apply IH2].
Qed.

Lemma own_list_live (s : Store) (uid : string) :
  wf s ->
  Forall (fun l => is_Some ((fun t => {| task := t; userId := uid |}) <$> heap s !! l))
         (map_get_or_empty uid (tasks s)).
Proof.
  intros [_ Hlive]. unfold map_get_or_empty.
  destruct (map_get uid (tasks s)) as [ls|] eqn:Hg; simpl; [|constructor].
  apply Forall_forall. intros l Hl.
  rewrite Forall_forall in Hlive.
  specialize (Hlive _ (map_get_entries _ _ _ _ Hg Hl)). simpl in Hlive.
  apply lookup_lt_is_Some_2 in Hlive as [t Ht]. cbv beta. rewrite Ht. by eexists.
Qed.

Lemma truthyZ_Some (i : Z) : truthyZ (Some i) = negb (i =? 0)%Z.
Proof. reflexivity. Qed.

Section Update.

Context {K : Clock}.

Lemma apply_update_spec (reg : Registry) (c : Caller) (st : string) (now : Z)
    (f : Found) (s : Store) (t : Task) (ls : list loc) :
  heap s !! f_task f = Some t ->
  map_get (f_userId f) (tasks s) = Some ls ->
  ls !! f_index f = Some (f_task f) ->
  (~ may_touch reg c t -> apply_update reg c st now f s = (Forbidden, s))
  /\ (may_touch reg c t -> st ∉ valid -> apply_update reg c st now f s = (InvalidStatus, s))
  /\ (may_touch reg c t -> st ∈ valid ->
      apply_update reg c st now f s = (Accepted, mutate (set_and_log c st now) (f_task f) s)).
Proof.
  intros Ht Hg Hl. unfold apply_update, may_touch. rewrite Ht. simpl.
  destruct (isAdminOrManager reg (u_id (user c)) (guild c)); simpl.
  - split; [intros []; by left|]. split; intros _ Hst.
    + by rewrite bool_decide_eq_false_2.
    + rewrite bool_decide_eq_true_2 by done. simpl.
      by rewrite (map_set_at_same _ _ ls).
  - destruct (decide (u_id (user c) ∈ assignedTo t)) as [Hin|Hout].
    + rewrite (bool_decide_eq_true_2 _ Hin). simpl.
      split; [intros []; by right|]. split; intros _ Hst.
      * by rewrite bool_decide_eq_false_2.
      * rewrite bool_decide_eq_true_2 by done. simpl.
        by rewrite (map_set_at_same _ _ ls).
    + rewrite (bool_decide_eq_false_2 _ Hout). simpl.
      split; [done|]. split; intros [?|?]; done.
Qed.


End Update.

(** ** Copies of one task *)

Lemma NoDup_snd_unique {A B} (l : list (A * B)) (a b : A) (x : B) :
  NoDup l.*2 -> (a, x) ∈ l -> (b, x) ∈ l -> a = b.
Proof.
  induction l as [|[k y] l IH]; simpl; [by intros _ ?%elem_of_nil|].
  intros Hnd Ha Hb. apply NoDup_cons in Hnd as [Hy Hnd].
  rewrite elem_of_cons in Ha, Hb. destruct Ha as [Ha|Ha], Hb as [Hb|Hb].
  - congruence.
  - simplify_eq. exfalso. apply Hy.
    apply list_elem_of_fmap. by exists (b, y).
  - simplify_eq. exfalso. apply Hy.
    apply list_elem_of_fmap. by exists (a, y).
  - by apply IH.
Qed.

Lemma findTaskById_entry (s : Store) (id : Z) (f : Found) :
  findTaskById id s = Some f -> (f_userId f, f_task f) ∈ entries (tasks s).
Proof.
  intros Hf. unfold findTaskById in Hf.
  destruct (findTaskById_in_Some _ _ _ _ Hf) as (m1 & ls & m2 & _ & _ & _ & e2 & He & _).
  rewrite He. set_solver.
Qed.

Section UpdateById.

Context {K : Clock}.

(** C9. When every entry of the index has a task object of its own, an
    update resolved by task id changes exactly the object of the first
    entry found: the collections are as before, and every task stored for
    another assignee is unchanged, status and logs included. *)
Theorem task_update_by_id_one_copy (reg : Registry) (c : Caller) (id : Z)
    (index : option Z) (st : string) (now : Z) (s : Store) (f : Found) (t : Task) :
  NoDup (tasks s).*1 ->
  unshared s ->
  id <> 0%Z ->
  findTaskById id s = Some f ->
  heap s !! f_task f = Some t ->
  may_touch reg c t ->
  st ∈ valid ->
  exists s',
    task_update reg c (Some id) index st now s = (Accepted, s')
    /\ tasks s' = tasks s
    /\ heap s' !! f_task f = Some (set_and_log c st now t)
    /\ (forall uid l, (uid, l) ∈ entries (tasks s) -> uid <> f_userId f ->
          heap s' !! l = heap s !! l).
Proof.
  intros Hkeys Hun Hid Hf Ht Hm Hv.
  destruct (findTaskById_position s id f Hkeys Hf) as (ls & Hg & Hl & _).
  destruct (apply_update_spec reg c st now f s t ls Ht Hg Hl) as (_ & _ & Hok).
  exists (mutate (set_and_log c st now) (f_task f) s).
  split; [|split; [done|split]].
  - unfold task_update, truthyZ. destruct (Z.eqb_spec id 0); [done|]. simpl.
    rewrite Hf. by apply Hok.
  - simpl. by rewrite list_lookup_alter_eq, Ht.
  - intros uid l Hin Hne. simpl. apply list_lookup_alter_ne.
    intros <-. apply Hne.
    by apply (NoDup_snd_unique (entries (tasks s)) _ _ (f_task f) Hun),
             (findTaskById_entry s id).
Qed.

End UpdateById.

(** ** Persistence *)

Lemma load_list_spec (ts h : list Task) :
  load_list ts h = (seq (length h) (length ts), h ++ ts).
Proof.
  revert h. induction ts as [|t ts IH]; intros h; simpl.
  - by rewrite app_nil_r.
  - rewrite IH, length_app, <- app_assoc. simpl. repeat f_equal. lia.
Qed.

Lemma entries_cons (uid : string) (ls : list loc) (m : list (string * list loc)) :
  entries ((uid, ls) :: m) = map (pair uid) ls ++ entries m.
Proof. reflexivity. Qed.

Lemma snd_pairs {A B} (a : A) (l : list B) : (map (pair a) l).*2 = l.
Proof. induction l as [|x l IH]; simpl; [done | by f_equal]. Qed.

Lemma load_from_spec (snap : Snapshot) (h : list Task) :
  (entries (load_from snap h).1).*2 = seq (length h) (length (concat snap.*2))
  /\ (load_from snap h).2 = h ++ concat snap.*2
  /\ (load_from snap h).1.*1 = snap.*1.
Proof.
  revert h. induction snap as [|[uid ts] snap IH]; intros h; simpl.
  - by rewrite app_nil_r.
  - rewrite load_list_spec.
    destruct (IH (h ++ ts)) as (IH1 & IH2 & IH3).
    destruct (load_from snap (h ++ ts)) as [m h2]. simpl in IH1, IH2, IH3.
    cbn [fst snd]. split; [|split].
    + rewrite entries_cons, fmap_app, snd_pairs, IH1.
      by rewrite !length_app, seq_app.
    + by rewrite IH2, <- app_assoc.
    + rewrite fmap_cons. simpl. by f_equal.
Qed.

(** After a restart no task object is shared between two entries. *)
Lemma reload_unshared (s : Store) : unshared (reload s).
Proof.
  unfold unshared, reload, load.
  destruct (load_from_spec (serialize s) []) as (H1 & _ & _).
  destruct (load_from (serialize s) []) as [m h]. simpl in *.
  rewrite H1. apply NoDup_seq.
Qed.

Lemma reload_keys (s : Store) : (tasks (reload s)).*1 = (tasks s).*1.
Proof.
  unfold reload, load.
  destruct (load_from_spec (serialize s) []) as (_ & _ & H3).
  destruct (load_from (serialize s) []) as [m h]. simpl in *.
  rewrite H3. unfold serialize. rewrite <- list_fmap_compose.
  apply list_fmap_ext. by intros _ [uid ls] _.
Qed.

(** ** Loops that mutate task objects *)

Lemma foldl_locs {B} (step : B -> loc -> B) (m : list (string * list loc)) (acc : B) :
  foldl (fun a '(_, ls) => foldl step a ls) acc m = foldl step acc (entries m).*2.
Proof.
  revert acc. induction m as [|[uid ls] m IH]; intros acc; simpl; [done|].
  rewrite fmap_app, snd_pairs, foldl_app. apply IH.
Qed.

Lemma alter_fixed {A} (f : A -> A) (h : list A) (l : nat) :
  (forall x, h !! l = Some x -> f x = x) -> alter f l h = h.
Proof.
  intros Hf. apply list_eq. intros j. rewrite list_lookup_alter.
  case_decide as Hj; [subst j | done].
  destruct (h !! l) as [x|] eqn:E; simpl; [|done]. by rewrite Hf.
Qed.

(** A loop that applies an idempotent change to the objects behind a run
    of references changes each of them once, however often it is visited. *)
Lemma foldl_alter_lookup {A} (f : A -> A) (ls : list nat) (h : list A) (j : nat) :
  (forall x, f (f x) = f x) ->
  foldl (fun h l => alter f l h) h ls !! j
  = if decide (j ∈ ls) then f <$> h !! j else h !! j.
Proof.
  intros Hf. revert h. induction ls as [|a ls IH]; intros h.
  - destruct (decide (j ∈ [])) as [Hj|_]; [by apply elem_of_nil in Hj | done].
  - cbn [foldl]. rewrite IH, list_lookup_alter.
    destruct (decide (a = j)) as [->|Hne].
    + rewrite (decide_True (P := j ∈ j :: ls)) by (apply elem_of_cons; by left).
      destruct (decide (j ∈ ls)); [|done].
      destruct (h !! j); simpl; [by rewrite Hf | done].
    + destruct (decide (j ∈ ls)) as [Hj|Hj].
      * by rewrite decide_True by (apply elem_of_cons; by right).
      * rewrite decide_False; [done|]. by intros [->|?]%elem_of_cons.
Qed.

(** ** Start-up *)

Section StartUp.

Context {K : Clock}.

Lemma is_overdue_spec (now : Z) (t : Task) :
  is_overdue now t = true
  <-> past_due now t /\ status t <> "Done" /\ status t <> "Overdue".
Proof.
  unfold is_overdue, past_due, truthyS.
  destruct (due t) as [txt|]; simpl.
  2:{ split; [done | by intros [(? & ? & ? & _) _]]. }
  destruct (String.eqb_spec txt "") as [->|Htxt]; simpl.
  { split; [done | intros [(? & ? & [= <-] & ? & _) _]; done]. }
  destruct (String.eqb_spec (status t) "Done") as [Hd|Hd]; simpl.
  { split; [done | tauto]. }
  destruct (Date_parse txt) as [d|] eqn:Hp.
  2:{ split; [done | intros [(? & ? & [= <-] & _ & ? & _) _]; congruence]. }
  destruct (Z.ltb_spec d now); simpl.
  2:{ split; [done | intros [(? & ? & [= <-] & _ & ? & ?) _]]. simplify_eq. lia. }
  destruct (String.eqb_spec (status t) "Overdue") as [Ho|Ho]; simpl.
  { split; [done | tauto]. }
  split; [intros _ | done]. split; [|done]. by exists txt, d.
Qed.

Lemma is_overdue_marked (now now' : Z) (t : Task) :
  is_overdue now t = true -> is_overdue now' (mark_overdue now t) = false.
Proof.
  intros Ht. unfold mark_overdue. rewrite Ht.
  unfold is_overdue. simpl. destruct (truthyS (due t)); simpl; [|done].
  destruct (Date_parse (default "" (due t))); [|done]. apply andb_false_r.
Qed.

Lemma is_overdue_after (now : Z) (t : Task) : is_overdue now (mark_overdue now t) = false.
Proof.
  destruct (is_overdue now t) eqn:E; [by apply is_overdue_marked|].
  unfold mark_overdue. by rewrite E.
Qed.

Lemma mark_overdue_idem (now : Z) (t : Task) :
  mark_overdue now (mark_overdue now t) = mark_overdue now t.
Proof. unfold mark_overdue at 1. by rewrite is_overdue_after. Qed.

Lemma ready_step_heap (now : Z) (ls : list loc) (s : Store) (b : bool) :
  heap (foldl (ready_step now) (s, b) ls).1
  = foldl (fun h l => alter (mark_overdue now) l h) (heap s) ls
  /\ tasks (foldl (ready_step now) (s, b) ls).1 = tasks s.
Proof.
  revert s b. induction ls as [|l ls IH]; intros s b; simpl; [done|].
  unfold ready_step at 2 4. simpl.
  destruct (heap s !! l) as [t|] eqn:Hl.
  - exact (IH (mutate (mark_overdue now) l s) _).
  - rewrite (alter_fixed _ (heap s) l) by (intros x Hx; congruence). apply IH.
Qed.


Lemma on_ready_heap (now : Z) (s : Store) :
  heap (on_ready now s).1
  = foldl (fun h l => alter (mark_overdue now) l h) (heap s) (entries (tasks s)).*2
  /\ tasks (on_ready now s).1 = tasks s.
Proof. unfold on_ready. rewrite foldl_locs. apply ready_step_heap. Qed.

Lemma on_ready_lookup (now : Z) (s : Store) (l : loc) :
  heap (on_ready now s).1 !! l
  = if decide (l ∈ (entries (tasks s)).*2)
    then mark_overdue now <$> heap s !! l else heap s !! l.
Proof.
  rewrite (proj1 (on_ready_heap now s)).
  apply foldl_alter_lookup, mark_overdue_idem.
Qed.


End StartUp.

(** ** The reminder job *)

Section ReminderJob.

Context {K : Clock}.

Lemma scan_task_excluded (now : Z) (ws : list (string * option jsnum)) (t : Task) :
  due t = None \/ due t = Some "" \/ status t = "Done" -> scan_task now ws t = (t, []).
Proof.
  intros Ht. unfold scan_task.
  destruct Ht as [Ht|[Ht|Ht]]; rewrite Ht; try reflexivity.
  by rewrite orb_true_r.
Qed.

(** A task object the loop body leaves alone is as it was after the whole
    run, and no batch of the run was sent for it. *)
Lemma scan_skips (now : Z) (ws : list (string * option jsnum)) (l : loc) (t : Task)
    (ls : list loc) (s : Store) (tr : list (loc * Fired)) :
  heap s !! l = Some t ->
  scan_task now ws t = (t, []) ->
  heap (foldl (scan_step now ws) (s, tr) ls).1 !! l = Some t
  /\ (forall x, x ∈ (foldl (scan_step now ws) (s, tr) ls).2 -> x.1 = l -> x ∈ tr).
Proof.
  intros Hl Ht. revert s tr Hl.
  induction ls as [|a ls IH]; intros s tr Hl; simpl; [done|].
  unfold scan_step at 2 4. simpl.
  destruct (heap s !! a) as [ta|] eqn:Ha; [|by apply IH].
  destruct (scan_task now ws ta) as [ta' out] eqn:Hs.
  destruct (decide (a = l)) as [->|Hne].
  - assert (ta = t) as -> by congruence.
    rewrite Ht in Hs. injection Hs as <- <-. simpl. rewrite app_nil_r.
    apply IH. simpl. by rewrite list_lookup_alter_eq, Hl.
  - destruct (IH (mutate (fun _ => ta') a s) (tr ++ map (pair a) out)) as [IH1 IH2].
    { simpl. by rewrite list_lookup_alter_ne. }
    split; [done|]. intros x Hx Hxl.
    apply IH2 in Hx; [|done]. apply elem_of_app in Hx as [Hx|Hx]; [done|].
    apply list_elem_of_fmap in Hx as (f & -> & _). done.
Qed.

Lemma scan_tasks_kept (now : Z) (ws : list (string * option jsnum))
    (ls : list loc) (s : Store) (tr : list (loc * Fired)) :
  tasks (foldl (scan_step now ws) (s, tr) ls).1 = tasks s.
Proof.
  revert s tr. induction ls as [|a ls IH]; intros s tr; simpl; [done|].
  unfold scan_step at 2. simpl.
  destruct (heap s !! a) as [ta|]; [|apply IH].
  destruct (scan_task now ws ta) as [ta' out]. by rewrite IH.
Qed.

(** The loop body records every key it sends a batch for, and sends none
    for a key that is recorded. *)
Lemma window_step_records (now : Z) (diff : option Z) (w : string * option jsnum)
    (t ta : Task) (out : list Fired) :
  records t ta out ->
  records t (window_step now diff (ta, out) w).1 (window_step now diff (ta, out) w).2.
Proof.
  intros Hr. unfold window_step.
  destruct (bool_decide (w.1 ∈ remindersSent ta)) eqn:Hin; [done|].
  apply bool_decide_eq_false in Hin.
  destruct diff as [d|]; [|done].
  destruct ((0 <? d)%Z && within d w.2); [|done]. simpl.
  destruct Hr as (Hid & Hdue & Hst & Has & Hrs & Hnd & Hall).
  unfold records. simpl. rewrite Hrs in Hin. apply not_elem_of_app in Hin as [Hin1 Hin2].
  repeat split; try done.
  - by rewrite Hrs, map_app, app_assoc.
  - rewrite map_app. simpl. apply NoDup_app. split; [done|]. split.
    + intros k Hk ->%list_elem_of_singleton. done.
    + apply NoDup_singleton.
  - apply Forall_app. split; [done|]. constructor; [|constructor]. simpl.
    by rewrite Hid, Has.
Qed.

Lemma windows_record (now : Z) (diff : option Z) (ws : list (string * option jsnum))
    (t ta : Task) (out : list Fired) :
  records t ta out ->
  records t (foldl (window_step now diff) (ta, out) ws).1
            (foldl (window_step now diff) (ta, out) ws).2.
Proof.
  revert ta out. induction ws as [|w ws IH]; intros ta out Hr; [done|].
  cbn [foldl].
  pose proof (window_step_records now diff w t ta out Hr) as Hw.
  destruct (window_step now diff (ta, out) w) as [ta' out']. by apply IH.
Qed.

Lemma records_refl (t : Task) : records t t [].
Proof.
  unfold records. simpl. rewrite app_nil_r. repeat split; try done; constructor.
Qed.

Lemma scan_task_records (now : Z) (ws : list (string * option jsnum)) (t : Task) :
  records t (scan_task now ws t).1 (scan_task now ws t).2.
Proof.
  unfold scan_task.
  destruct (negb (truthyS (due t)) || String.eqb (status t) "Done"); [apply records_refl|].
  match goal with
  | |- context [foldl _ ?acc _] =>
      assert (records t acc.1 acc.2) as Hacc;
      [|destruct acc as [ta out]; by apply windows_record]
  end.
  destruct (Date_parse (default "" (due t))) as [d|]; simpl; [|apply records_refl].
  destruct (d - now <? 0)%Z; simpl; [|apply records_refl].
  destruct (bool_decide ("overdue" ∈ remindersSent t)) eqn:Hin; simpl; [apply records_refl|].
  apply bool_decide_eq_false in Hin.
  unfold records. simpl. repeat split; try done.
  - apply NoDup_singleton.
  - by repeat constructor.
Qed.

Lemma keys_sent_app (l : loc) (tr1 tr2 : list (loc * Fired)) :
  keys_sent l (tr1 ++ tr2) = keys_sent l tr1 ++ keys_sent l tr2.
Proof. unfold keys_sent. by rewrite List.filter_app, map_app. Qed.

Lemma keys_sent_here (l : loc) (out : list Fired) :
  keys_sent l (map (pair l) out) = map fired_key out.
Proof.
  unfold keys_sent. induction out as [|f out IH]; simpl; [done|].
  rewrite Nat.eqb_refl. simpl. by f_equal.
Qed.

Lemma keys_sent_elsewhere (l a : loc) (out : list Fired) :
  a <> l -> keys_sent l (map (pair a) out) = [].
Proof.
  intros Hne. unfold keys_sent. induction out as [|f out IH]; simpl; [done|].
  by destruct (Nat.eqb_spec a l).
Qed.

Lemma scan_step_once (now : Z) (ws : list (string * option jsnum)) (h0 : list Task)
    (s : Store) (tr : list (loc * Fired)) (a : loc) :
  once_each h0 (heap s) tr ->
  once_each h0 (heap (scan_step now ws (s, tr) a).1) (scan_step now ws (s, tr) a).2.
Proof.
  intros Hinv. unfold scan_step. simpl.
  destruct (heap s !! a) as [ta|] eqn:Ha; [|done].
  pose proof (scan_task_records now ws ta) as Hr.
  destruct (scan_task now ws ta) as [ta' out]. simpl in *.
  destruct Hr as (_ & _ & _ & _ & Hrs & Hnd & Hall).
  intros l t0 Hl. destruct (Hinv l t0 Hl) as (t & Ht & Hrec & Hnd0 & Hfresh).
  rewrite keys_sent_app. destruct (decide (a = l)) as [->|Hne].
  - assert (ta = t) as -> by congruence.
    exists ta'. rewrite list_lookup_alter_eq, Ht, keys_sent_here. simpl.
    assert (forall k, k ∈ map fired_key out -> k ∉ remindersSent t) as Hout.
    { intros k (f & -> & Hf)%list_elem_of_fmap. rewrite Forall_forall in Hall.
      by apply Hall. }
    split; [done|]. split; [by rewrite Hrs, Hrec, app_assoc|]. split.
    + apply NoDup_app. split; [done|]. split; [|done].
      intros k Hk Hk'. apply (Hout k Hk'). rewrite Hrec. apply elem_of_app. by right.
    + intros k [Hk|Hk]%elem_of_app; [by apply Hfresh|].
      intros Hk0. apply (Hout k Hk). rewrite Hrec. apply elem_of_app. by left.
  - exists t. rewrite list_lookup_alter_ne by done.
    by rewrite keys_sent_elsewhere, app_nil_r.
Qed.

Lemma scan_loop_once (now : Z) (ws : list (string * option jsnum)) (h0 : list Task)
    (ls : list loc) (s : Store) (tr : list (loc * Fired)) :
  once_each h0 (heap s) tr ->
  once_each h0 (heap (foldl (scan_step now ws) (s, tr) ls).1)
               (foldl (scan_step now ws) (s, tr) ls).2.
Proof.
  revert s tr. induction ls as [|a ls IH]; intros s tr Hinv; [done|].
  cbn [foldl]. pose proof (scan_step_once now ws h0 s tr a Hinv) as Hstep.
  destruct (scan_step now ws (s, tr) a) as [s1 tr1]. by apply IH.
Qed.

Lemma scheduleReminders_once (config : Config) (now : Z) (h0 : list Task)
    (s : Store) (tr : list (loc * Fired)) :
  once_each h0 (heap s) tr ->
  once_each h0 (heap (scheduleReminders config now s).1)
               (tr ++ (scheduleReminders config now s).2).
Proof.
  intros Hinv. unfold scheduleReminders. rewrite foldl_locs.
  assert (forall ls s1 tr1,
            (foldl (scan_step now (windows_of config)) (s1, tr ++ tr1) ls).1
            = (foldl (scan_step now (windows_of config)) (s1, tr1) ls).1
            /\ (foldl (scan_step now (windows_of config)) (s1, tr ++ tr1) ls).2
               = tr ++ (foldl (scan_step now (windows_of config)) (s1, tr1) ls).2) as Hpre.
  { induction ls as [|a ls IH]; intros s1 tr1; [done|]. cbn [foldl].
    unfold scan_step at 2 4 6 8. simpl.
    destruct (heap s1 !! a) as [ta|]; [|apply IH].
    destruct (scan_task now (windows_of config) ta) as [ta' out].
    rewrite <- app_assoc. apply IH. }
  destruct (Hpre (entries (tasks s)).*2 s []) as [H1 H2].
  rewrite app_nil_r in H1, H2. rewrite <- H1, <- H2.
  by apply scan_loop_once.
Qed.

(** At most once for every task object: over any number of runs of the job
    the batches sent for one task object carry pairwise different threshold
    keys, none of them a key the object had recorded at the start, and the
    object has recorded each of them. *)
Theorem reminders_once_per_object (runs : list (Config * Z)) (s : Store) (l : loc) (t0 : Task) :
  heap s !! l = Some t0 ->
  exists t, heap (job_runs runs s).1 !! l = Some t
            /\ remindersSent t = remindersSent t0 ++ keys_sent l (job_runs runs s).2
            /\ NoDup (keys_sent l (job_runs runs s).2)
            /\ forall k, k ∈ keys_sent l (job_runs runs s).2 -> k ∉ remindersSent t0.
Proof.
  intros Hl.
  assert (once_each (heap s) (heap (job_runs runs s).1) (job_runs runs s).2) as Hinv.
  { unfold job_runs.
    assert (once_each (heap s) (heap s) []) as H0.
    { intros l' t' Hl'. exists t'. unfold keys_sent. simpl. rewrite app_nil_r.
      repeat split; [done | constructor | by intros k ?%elem_of_nil]. }
    revert H0. generalize (@nil (loc * Fired)). generalize s at 2 4 5.
    induction runs as [|r runs IH]; intros s1 tr1 H1; [done|]. cbn [foldl].
    apply IH. simpl. by apply scheduleReminders_once. }
  by apply Hinv.
Qed.

End ReminderJob.

(** ** /task-create *)

Lemma map_push_get (m : list (string * list loc)) (uid : string) (l : loc) :
  map_get uid (map_push uid l m) = Some (map_get_or_empty uid m ++ [l]).
Proof.
  unfold map_get_or_empty.
  induction m as [|[k ls] m IH]; simpl.
  - by rewrite String.eqb_refl.
  - destruct (String.eqb_spec k uid) as [->|Hne]; simpl.
    + by rewrite String.eqb_refl.
    + destruct (String.eqb_spec k uid); [done | apply IH].
Qed.

Section Create.

Context {K : Clock}.

(** C10. A due text that does not read as a date is handled as no due
    date: [parseDue] returns the no-deadline value, the creation answers
    as it does without a due text and stores the same task, a task with no
    due date, in the creator's collection; the reminder job then leaves
    that task as it is and sends nothing for it, and so does the start-up
    pass. *)
Theorem task_create_invalid_due (c : Caller) (ttl : string) (desc : option string)
    (txt : string) (now : Z) (s : Store) :
  Date_parse txt = None ->
  parseDue (Some txt) = None
  /\ task_create c ttl desc (Some txt) now s = task_create c ttl desc None now s
  /\ exists s' l t,
       task_create c ttl desc (Some txt) now s = (Accepted, s')
       /\ heap s' !! l = Some t
       /\ title t = ttl /\ due t = None
       /\ map_get (u_id (user c)) (tasks s')
          = Some (map_get_or_empty (u_id (user c)) (tasks s) ++ [l])
       /\ (forall config now',
             heap (scheduleReminders config now' s').1 !! l = Some t
             /\ forall x, x ∈ (scheduleReminders config now' s').2 -> x.1 <> l)
       /\ (forall now', heap (on_ready now' s').1 !! l = Some t).
Proof.
  intros Hp.
  assert (parseDue (Some txt) = None) as Hd.
  { unfold parseDue. destruct (String.eqb txt ""); [done|]. by rewrite Hp. }
  split; [done|]. split.
  { unfold task_create. by rewrite Hd. }
  unfold task_create. rewrite Hd. simpl.
  eexists _, (length (heap s)), _. split; [reflexivity|]. simpl.
  split; [by apply list_lookup_middle|]. split; [done|]. split; [done|].
  split; [apply map_push_get|]. split.
  - intros config now'. unfold scheduleReminders. rewrite foldl_locs.
    match goal with |- context [foldl ?f (?s0, []) ?ls] =>
      destruct (scan_skips now' (windows_of config) (length (heap s))
                  {| t_id := now; title := ttl; description := or_else desc "";
                     due := None; status := "Pending";
                     createdBy := username (user c); assignedTo := [u_id (user c)];
                     department := None; logs := [log_entry now "Created"];
                     remindersSent := [] |} ls s0 []) as [H1 H2]
    end.
    + simpl. by apply list_lookup_middle.
    + apply scan_task_excluded. by left.
    + split; [exact H1|]. intros x Hx Hxl. by apply H2, elem_of_nil in Hx.
  - intros now'. rewrite on_ready_lookup. simpl.
    rewrite list_lookup_middle by done.
    by destruct (decide _).
Qed.

End Create.

(** ** /task-assign *)





Lemma map_push_get_ne (m : list (string * list loc)) (uid uid' : string) (l : loc) :
  uid <> uid' -> map_get uid' (map_push uid l m) = map_get uid' m.
Proof.
  intros Hne. induction m as [|[k ls] m IH]; simpl.
  - destruct (String.eqb_spec uid uid'); [done | reflexivity].
  - destruct (String.eqb_spec k uid) as [->|Hk]; simpl.
    + destruct (String.eqb_spec uid uid'); [done | reflexivity].
    + destruct (String.eqb_spec k uid'); [done | apply IH].
Qed.



Section Assign.

Context {K : Clock}.


End Assign.

(** ** Sorting *)

Section Sorting.
Context {A : Type} (key : A -> Z).

Lemma sort_insert_perm (x : A) (l : list A) : sort_insert (falling key) x l ≡ₚ x :: l.
Proof.
  induction l as [|y l IH]; simpl; [done|].
  unfold falling at 1. destruct (key y - key x <=? 0)%Z; [done|].
  rewrite IH. apply Permutation_swap.
Qed.

Lemma sort_by_perm (l : list A) : sort_by (falling key) l ≡ₚ l.
Proof.
  induction l as [|x l IH]; simpl; [done|].
  unfold sort_by in *. simpl. by rewrite sort_insert_perm, IH.
Qed.

Lemma sort_insert_sorted (x : A) (l : list A) :
  StronglySorted (fun a b => (key b <= key a)%Z) l ->
  StronglySorted (fun a b => (key b <= key a)%Z) (sort_insert (falling key) x l).
Proof.
  induction 1 as [|y l Hl IH Hy]; simpl; [repeat constructor|].
  unfold falling at 1. destruct (Z.leb_spec (key y - key x) 0).
  - constructor; [by constructor|]. constructor; [lia|].
    eapply Forall_impl; [exact Hy|]. simpl. intros z Hz. lia.
  - constructor; [done|].
    rewrite sort_insert_perm. constructor; [lia | done].
Qed.

Lemma sort_by_sorted (l : list A) :
  StronglySorted (fun a b => (key b <= key a)%Z) (sort_by (falling key) l).
Proof.
  induction l as [|x l IH]; [constructor|]. by apply sort_insert_sorted.
Qed.

(** Stability: elements of equal key keep their order. *)
Lemma sort_insert_stable (k : Z) (x : A) (l : list A) :
  List.filter (fun a => (key a =? k)%Z) (sort_insert (falling key) x l)
  = List.filter (fun a => (key a =? k)%Z) (x :: l).
Proof.
  induction l as [|y l IH]; [done|]. cbn [sort_insert].
  unfold falling at 1. destruct (Z.leb_spec (key y - key x) 0); [done|].
  cbn [List.filter] in *. rewrite IH.
  destruct (Z.eqb_spec (key x) k), (Z.eqb_spec (key y) k); try done. lia.
Qed.

Lemma sort_by_stable (k : Z) (l : list A) :
  List.filter (fun a => (key a =? k)%Z) (sort_by (falling key) l)
  = List.filter (fun a => (key a =? k)%Z) l.
Proof.
  induction l as [|x l IH]; [done|].
  unfold sort_by in *. cbn [foldr]. rewrite sort_insert_stable.
  cbn [List.filter]. by rewrite IH.
Qed.



(** Sorting the scored pairs sorts the elements by their score. *)
Lemma sort_by_pairs (l : list A) :
  sort_by (falling snd) (map (fun a => (a, key a)) l)
  = map (fun a => (a, key a)) (sort_by (falling key) l).
Proof.
  induction l as [|x l IH]; [done|].
  unfold sort_by in *. cbn [map foldr]. rewrite IH.
  generalize (foldr (sort_insert (falling key)) [] l). intros r.
  induction r as [|y r IHr]; [done|]. cbn [map sort_insert].
  unfold falling at 1 3. cbn [snd].
  destruct (key y - key x <=? 0)%Z; [done|]. cbn [map]. by rewrite IHr.
Qed.

Lemma filter_pairs (p : Z -> bool) (l : list A) :
  List.filter (fun x : A * Z => p x.2) (map (fun a => (a, key a)) l)
  = map (fun a => (a, key a)) (List.filter (fun a => p (key a)) l).
Proof.
  induction l as [|x l IH]; [done|]. simpl. rewrite IH. by destruct (p (key x)).
Qed.

End Sorting.

Lemma slice0_map {A B} (g : A -> B) (n : Z) (l : list A) :
  slice0 n (map g l) = map g (slice0 n l).
Proof.
  unfold slice0. rewrite length_map. destruct (n <? 0)%Z; by rewrite <- fmap_take.
Qed.

(** ** Search *)

Lemma prefix_cons (a b : ascii) (q s : string) :
  String.prefix (String a q) (String b s)
  = if ascii_dec a b then String.prefix q s else false.
Proof. reflexivity. Qed.

Lemma includes_cons (p : string) (b : ascii) (s : string) :
  includes p (String b s) = String.prefix p (String b s) || includes p s.
Proof. reflexivity. Qed.









(** The search without the scored pairs. *)
Lemma fuzzySearchTasks_unfold (query : string) (limit : Z) (s : Store) :
  fuzzySearchTasks query limit s
  = slice0 limit
      (sort_by (falling (fun e => score (toLowerCase query) (task e)))
         (List.filter (fun e => (0 <? score (toLowerCase query) (task e))%Z)
                      (getAllTasksUnique s))).
Proof.
  unfold fuzzySearchTasks.
  rewrite (filter_pairs (fun e => score (toLowerCase query) (task e)) (fun z => (0 <? z)%Z)).
  rewrite (sort_by_pairs (fun e => score (toLowerCase query) (task e))).
  rewrite slice0_map, map_map. simpl. apply map_id.
Qed.


(** ** Backups *)

Lemma prefix_app (p r : string) : String.prefix p (p +:+ r) = true.
Proof.
  induction p as [|c p IH]; [by destruct r|]. sapp. rewrite prefix_cons.
  destruct (ascii_dec c c); [done | congruence].
Qed.

Lemma compare_refl (a : string) : String.compare a a = Eq.
Proof.
  pose proof (String.compare_antisym a a) as H.
  destruct (String.compare a a); simpl in H; congruence.
Qed.

Lemma ltb_leb (a b : string) : String.ltb a b = true -> String.leb a b = true.
Proof. unfold String.ltb, String.leb. by destruct (String.compare a b). Qed.

Lemma ltb_neq (a b : string) : String.ltb a b = true -> a <> b.
Proof. intros H ->. unfold String.ltb in H. by rewrite compare_refl in H. Qed.

(** Sorting a list that is in order already returns it. *)
Lemma string_sort_sorted (l : list string) :
  StronglySorted (fun a b => String.ltb a b = true) l -> string_sort l = l.
Proof.
  induction 1 as [|x l Hl IH Hx]; [done|].
  unfold string_sort in *. cbn [foldr]. rewrite IH.
  destruct l as [|y l]; [done|]. cbn [sort_insert].
  apply Forall_cons in Hx as [Hy _]. by rewrite (ltb_leb _ _ Hy).
Qed.

Lemma sorted_drop {A} (R : A -> A -> Prop) (n : nat) (l : list A) :
  StronglySorted R l -> StronglySorted R (drop n l).
Proof.
  intros Hs. revert n. induction Hs as [|x l Hl IH Hx]; intros [|n]; simpl;
    [constructor | constructor | by constructor | apply IH].
Qed.

Lemma sorted_snoc {A} (R : A -> A -> Prop) (l : list A) (x : A) :
  StronglySorted R (l ++ [x]) -> StronglySorted R l /\ Forall (fun y => R y x) l.
Proof.
  induction l as [|y l IH]; simpl; [by split; constructor|].
  intros Hs. apply StronglySorted_inv in Hs as [Hs Hy].
  destruct (IH Hs) as [IH1 IH2]. apply Forall_app in Hy as [Hy1 Hy2].
  apply Forall_cons in Hy2 as [Hyx _].
  split; constructor; done.
Qed.

Lemma filter_none {A} (p : A -> bool) (l : list A) :
  Forall (fun x => p x = false) l -> List.filter p l = [].
Proof. induction 1 as [|x l Hx _ IH]; simpl; [done | by rewrite Hx]. Qed.

Lemma filter_all {A} (p : A -> bool) (l : list A) :
  Forall (fun x => p x = true) l -> List.filter p l = l.
Proof. induction 1 as [|x l Hx _ IH]; simpl; [done | by rewrite Hx, IH]. Qed.

Lemma sort_insert_perm_any {A} (cmp : A -> A -> Z) (x : A) (l : list A) :
  sort_insert cmp x l ≡ₚ x :: l.
Proof.
  induction l as [|y l IH]; simpl; [done|].
  destruct (cmp x y <=? 0)%Z; [done|]. rewrite IH. apply Permutation_swap.
Qed.

Lemma string_sort_perm (l : list string) : string_sort l ≡ₚ l.
Proof.
  induction l as [|x l IH]; [done|].
  unfold string_sort in *. cbn [foldr]. by rewrite sort_insert_perm_any, IH.
Qed.

(** An element that does not compare greater than any of [r] is placed
    before [r]. *)
Lemma sort_insert_below {A} (cmp : A -> A -> Z) (x : A) (l r : list A) :
  Forall (fun y => (cmp x y <=? 0)%Z = true) r ->
  sort_insert cmp x (l ++ r) = sort_insert cmp x l ++ r.
Proof.
  intros Hr. induction l as [|z l IH]; simpl.
  - destruct Hr as [|y r Hy _]; simpl; [done | by rewrite Hy].
  - destruct (cmp x z <=? 0)%Z; [done | by rewrite IH].
Qed.

(** Sorting leaves a sorted tail of larger names where it is. *)
Lemma string_sort_app_sorted (old new : list string) :
  StronglySorted (fun a b => String.ltb a b = true) new ->
  Forall (fun o => Forall (fun n => String.ltb o n = true) new) old ->
  string_sort (old ++ new) = string_sort old ++ new.
Proof.
  intros Hs Hold. induction Hold as [|o old Ho _ IH]; simpl.
  - by apply string_sort_sorted.
  - unfold string_sort in *. cbn [foldr]. rewrite IH.
    apply sort_insert_below. eapply Forall_impl; [exact Ho|]. simpl.
    intros n Hn. by rewrite (ltb_leb _ _ Hn).
Qed.

Lemma filter_filter_keep {A} (p q : A -> bool) (l : list A) :
  Forall (fun x => p x = true -> q x = true) l ->
  List.filter p (List.filter q l) = List.filter p l.
Proof.
  induction 1 as [|x l Hx _ IH]; simpl; [done|].
  destruct (q x) eqn:Hq; simpl.
  - by rewrite IH.
  - rewrite IH. destruct (p x) eqn:Hp; [|done]. specialize (Hx eq_refl). congruence.
Qed.

Lemma filter_nil_none {A} (p : A -> bool) (l : list A) :
  List.filter p l = [] -> Forall (fun x => p x = false) l.
Proof.
  induction l as [|x l IH]; simpl; [by constructor|].
  destruct (p x) eqn:Hp; [done|]. intros H. constructor; [done | by apply IH].
Qed.

Lemma elem_of_List_filter {A} (p : A -> bool) (l : list A) (x : A) :
  x ∈ List.filter p l <-> x ∈ l /\ p x = true.
Proof. rewrite !list_elem_of_In. apply List.filter_In. Qed.

Section Backups.

Context {K : Clock}.

Lemma backup_name_is_backup (base : string) (now : Z) :
  is_backup base (backup_name base now) = true.
Proof.
  unfold is_backup, backup_name, startsWith.
  change (String.prefix (base +:+ ".")
            (base +:+ "." +:+ dash_stamp (toISOString now) +:+ ".bak.json") = true).
  rewrite <- append_assoc. apply prefix_app.
Qed.

Lemma backups_after_snoc (config : Config) (base : string) (times : list Z) (t : Z)
    (dir : list string) :
  backups_after config base (times ++ [t]) dir
  = backupFile config base t (backups_after config base times dir).
Proof. unfold backups_after. by rewrite foldl_app. Qed.

Lemma backupFile_step (config : Config) (base : string) (t : Z) (dir : list string)
    (w : list Z) (n : nat) :
  keep_count config = Z.of_nat n -> 1 <= n ->
  Forall (fun f => is_backup base f = false) dir ->
  StronglySorted (fun a b => String.ltb a b = true) (map (backup_name base) (w ++ [t])) ->
  length w <= n ->
  backupFile config base t (dir ++ map (backup_name base) w)
  = dir ++ map (backup_name base) (drop (length w + 1 - n) (w ++ [t])).
Proof.
  intros Hkeep Hn Hdir Hs Hw.
  rewrite map_app in Hs. simpl in Hs.
  destruct (sorted_snoc _ _ _ Hs) as [Hsw Hlt].
  unfold backupFile. rewrite Hkeep.
  rewrite bool_decide_eq_false_2.
  2:{ intros [Hin|Hin]%elem_of_app.
      - rewrite Forall_forall in Hdir. specialize (Hdir _ Hin).
        by rewrite backup_name_is_backup in Hdir.
      - rewrite Forall_forall in Hlt. by apply Hlt, ltb_neq in Hin. }
  rewrite <- app_assoc.
  change (map (backup_name base) w ++ [backup_name base t])
    with (map (backup_name base) w ++ map (backup_name base) [t]).
  rewrite <- map_app.
  assert (List.filter (is_backup base) (dir ++ map (backup_name base) (w ++ [t]))
          = map (backup_name base) (w ++ [t])) as ->.
  { rewrite List.filter_app, (filter_none _ _ Hdir), filter_all; [done|].
    apply Forall_fmap, Forall_forall. intros x _. apply backup_name_is_backup. }
  rewrite length_map, length_app. simpl.
  destruct (Z.ltb_spec (Z.of_nat n) (Z.of_nat (length w + 1))) as [Hgt|Hle].
  - assert (length w = n) as Hlen by lia.
    replace (length w + 1 - n) with 1 by lia.
    replace (Z.of_nat (length w + 1) - Z.of_nat n)%Z with 1%Z by lia.
    rewrite string_sort_sorted by (by rewrite map_app).
    destruct w as [|w0 w]; [simpl in Hlen; lia|].
    unfold slice0. simpl. rewrite ?drop_0.
    rewrite List.filter_app. f_equal.
    + apply filter_all. eapply Forall_impl; [exact Hdir|]. simpl.
      intros f Hf. rewrite bool_decide_eq_false_2; [done|].
      intros ->%list_elem_of_singleton. by rewrite backup_name_is_backup in Hf.
    + simpl. rewrite bool_decide_eq_true_2 by (by apply list_elem_of_singleton). simpl.
      apply filter_all. simpl in Hs. apply StronglySorted_inv in Hs as [_ Hw0].
      rewrite map_app. eapply Forall_impl; [exact Hw0|]. simpl.
      intros f Hf. rewrite bool_decide_eq_false_2; [done|].
      intros ->%list_elem_of_singleton. by apply ltb_neq in Hf.
  - replace (length w + 1 - n) with 0 by lia. done.
Qed.

(** A write among the first [n - 1]: the oldest of the backups found at the
    start make room, and every backup written so far stays. *)
Lemma backupFile_early (config : Config) (base : string) (t : Z) (dir : list string)
    (w : list Z) (n : nat) :
  keep_count config = Z.of_nat n -> 1 <= n ->
  Forall (fun f => is_backup base f = true ->
            Forall (fun u => String.ltb f (backup_name base u) = true) (w ++ [t])) dir ->
  StronglySorted (fun a b => String.ltb a b = true) (map (backup_name base) (w ++ [t])) ->
  length w < n ->
  exists dir',
    backupFile config base t (dir ++ map (backup_name base) w)
    = dir' ++ map (backup_name base) (w ++ [t])
    /\ List.filter (fun f => negb (is_backup base f)) dir'
       = List.filter (fun f => negb (is_backup base f)) dir
    /\ (forall f, f ∈ dir' -> f ∈ dir)
    /\ (length w + 1 = n -> Forall (fun f => is_backup base f = false) dir').
Proof.
  intros Hkeep Hn Hold Hs Hw.
  pose proof Hs as Hs'. rewrite map_app in Hs'. simpl in Hs'.
  destruct (sorted_snoc _ _ _ Hs') as [Hsw Hlt].
  rewrite Forall_forall in Hold.
  assert (forall f u, f ∈ dir -> is_backup base f = true -> u ∈ w ++ [t] ->
            f <> backup_name base u) as Hfresh.
  { intros f u Hf Hb Hu. specialize (Hold f Hf Hb). rewrite Forall_forall in Hold.
    by apply ltb_neq, Hold. }
  unfold backupFile. rewrite Hkeep.
  rewrite bool_decide_eq_false_2.
  2:{ intros [Hin|Hin]%elem_of_app.
      - apply (Hfresh _ t Hin); [apply backup_name_is_backup | | done].
        apply elem_of_app. right. by apply list_elem_of_singleton.
      - rewrite Forall_forall in Hlt. by apply Hlt, ltb_neq in Hin. }
  rewrite <- app_assoc.
  change (map (backup_name base) w ++ [backup_name base t])
    with (map (backup_name base) w ++ map (backup_name base) [t]).
  rewrite <- map_app.
  set (names := map (backup_name base) (w ++ [t])) in *.
  set (old := List.filter (is_backup base) dir).
  assert (Forall (fun f => is_backup base f = true) names) as Hnames.
  { apply Forall_fmap, Forall_forall. intros x _. apply backup_name_is_backup. }
  assert (List.filter (is_backup base) (dir ++ names) = old ++ names) as ->.
  { by rewrite List.filter_app, (filter_all _ _ Hnames). }
  assert (length names = length w + 1) as Hlen.
  { unfold names. rewrite length_map, length_app. simpl. lia. }
  rewrite length_app, Hlen.
  destruct (Z.ltb_spec (Z.of_nat n) (Z.of_nat (length old + (length w + 1)))) as [Hgt|Hle].
  - assert (Forall (fun o => Forall (fun x => String.ltb o x = true) names) old) as Hbelow.
    { apply Forall_forall. intros o [Ho Hb]%elem_of_List_filter.
      unfold names. apply Forall_fmap. by apply Hold. }
    rewrite (string_sort_app_sorted _ _ Hs Hbelow).
    unfold slice0. rewrite (proj2 (Z.ltb_ge _ _)) by lia.
    set (m := Z.to_nat (Z.of_nat (length old + (length w + 1)) - Z.of_nat n)).
    assert (m <= length (string_sort old)) as Hm.
    { rewrite (Permutation_length (string_sort_perm old)). unfold m. lia. }
    rewrite (take_app_le _ _ _ Hm).
    set (remove := take m (string_sort old)).
    assert (forall f, f ∈ remove -> f ∈ dir /\ is_backup base f = true) as Hrem.
    { intros f Hf. apply elem_of_List_filter. fold old.
      rewrite <- (string_sort_perm old). by eapply subseteq_take. }
    exists (List.filter (fun f => negb (bool_decide (f ∈ remove))) dir).
    split; [|split; [|split]].
    + rewrite List.filter_app. f_equal. apply filter_all, Forall_forall.
      intros f Hf. rewrite bool_decide_eq_false_2; [done|].
      intros [Hd Hb]%Hrem. unfold names in Hf.
      apply list_elem_of_fmap in Hf as (u & -> & Hu). by apply (Hfresh _ u Hd Hb Hu).
    + apply filter_filter_keep, Forall_forall. intros f _ Hf.
      rewrite bool_decide_eq_false_2; [done|].
      intros [_ Hb]%Hrem. by rewrite Hb in Hf.
    + by intros f [Hf _]%elem_of_List_filter.
    + intros Hfull. apply Forall_forall. intros f [Hf Hq]%elem_of_List_filter.
      destruct (is_backup base f) eqn:Hb; [|done]. exfalso.
      assert (f ∈ remove) as Hin.
      { unfold remove. rewrite take_ge.
        - rewrite (string_sort_perm old). by apply elem_of_List_filter.
        - rewrite (Permutation_length (string_sort_perm old)). unfold m. lia. }
      by rewrite bool_decide_eq_true_2 in Hq.
  - exists dir. split; [done|]. split; [done|]. split; [done|].
    intros Hfull. apply filter_nil_none. fold old.
    destruct old; [done | simpl in Hle; lia].
Qed.

(** The listing after any run of writes: what is left of the listing at the
    start, then the backups of the last [n] writes. Of the listing at the
    start every file that is not a backup is left, and no backup is once
    [n] writes have been made. *)
Lemma backups_after_shape (config : Config) (base : string) (times : list Z)
    (dir : list string) (n : nat) :
  keep_count config = Z.of_nat n -> 1 <= n ->
  Forall (fun f => is_backup base f = true ->
            Forall (fun u => String.ltb f (backup_name base u) = true) times) dir ->
  StronglySorted (fun a b => String.ltb a b = true) (map (backup_name base) times) ->
  exists dir',
    backups_after config base times dir
    = dir' ++ map (backup_name base) (drop (length times - n) times)
    /\ List.filter (fun f => negb (is_backup base f)) dir'
       = List.filter (fun f => negb (is_backup base f)) dir
    /\ (forall f, f ∈ dir' -> f ∈ dir)
    /\ (n <= length times -> Forall (fun f => is_backup base f = false) dir').
Proof.
  intros Hkeep Hn. induction times as [|t times IH] using rev_ind; intros Hold Hs.
  - exists dir. simpl. rewrite app_nil_r. repeat split; [done|]. lia.
  - destruct IH as (d1 & Heq & Hnb & Hsub & Hfull).
    { eapply Forall_impl; [exact Hold|]. simpl. intros f Hf Hb.
      by apply Forall_app in Hf as [? _]. }
    { rewrite map_app in Hs. by apply sorted_snoc in Hs as [? _]. }
    rewrite backups_after_snoc, Heq.
    destruct (decide (n <= length times)) as [Hge|Hlt].
    + exists d1. rewrite (backupFile_step config base t d1 _ n); try done.
      * split; [|split; [done|split; [done|by intros _; apply Hfull]]].
        rewrite <- (drop_app_le _ [t]) by lia.
        rewrite drop_drop, length_drop, length_app. simpl. do 3 f_equal. lia.
      * by apply Hfull.
      * rewrite <- (drop_app_le _ [t]) by lia. rewrite <- List.skipn_map.
        by apply sorted_drop.
      * rewrite length_drop. lia.
    + replace (length times - n) with 0 by lia. rewrite drop_0.
      destruct (backupFile_early config base t d1 times n) as (d2 & Heq2 & Hnb2 & Hsub2 & Hfull2);
        try done; [|lia|].
      { apply Forall_forall. intros f Hf. rewrite Forall_forall in Hold.
        by apply Hold, Hsub. }
      exists d2. rewrite length_app. simpl.
      replace (length times + 1 - n) with 0 by lia. rewrite drop_0.
      split; [done|]. split; [by rewrite Hnb2|]. split; [by intros f ?%Hsub2%Hsub|].
      intros ?. apply Hfull2. lia.
Qed.

(** C7 (as amended). With a retention of [n >= 1] files, when every backup
    of the file already in the backup directory sorts before the new ones,
    after [n + k] writes at times whose backup names are in strictly rising
    order the backups of the file are exactly those of the last [n] writes,
    oldest first, and the other files of the directory are as they were. *)
Theorem backup_retention (config : Config) (base : string) (times : list Z)
    (dir : list string) (n k : nat) :
  backupRetention config = Z.of_nat n -> 1 <= n ->
  Forall (fun f => is_backup base f = true ->
            Forall (fun u => String.ltb f (backup_name base u) = true) times) dir ->
  StronglySorted (fun a b => String.ltb a b = true) (map (backup_name base) times) ->
  length times = n + k ->
  let after := backups_after config base times dir in
  List.filter (is_backup base) after = map (backup_name base) (drop k times)
  /\ length (List.filter (is_backup base) after) = n
  /\ List.filter (fun f => negb (is_backup base f)) after
     = List.filter (fun f => negb (is_backup base f)) dir.
Proof.
  intros Hret Hn Hold Hs Hlen after.
  assert (keep_count config = Z.of_nat n) as Hkeep.
  { unfold keep_count. rewrite Hret. destruct (Z.eqb_spec (Z.of_nat n) 0); [lia | done]. }
  destruct (backups_after_shape config base times dir n Hkeep Hn Hold Hs)
    as (d & Heq & Hnb & _ & Hfull).
  specialize (Hfull ltac:(lia)).
  unfold after. rewrite Heq. replace (length times - n) with k by lia.
  assert (Forall (fun f => is_backup base f = true) (map (backup_name base) (drop k times)))
    as Hall.
  { apply Forall_fmap, Forall_forall. intros x _. apply backup_name_is_backup. }
  rewrite !List.filter_app, (filter_none _ _ Hfull), (filter_all _ _ Hall). simpl.
  split; [done|]. split.
  - rewrite length_map, length_drop. lia.
  - rewrite <- Hnb. rewrite (filter_none _ (map _ _)), app_nil_r; [done|].
    eapply Forall_impl; [exact Hall|]. simpl. by intros f ->.
Qed.

End Backups.
(** * Properties of the other commands *)

(** ** Exports *)

Lemma chars_app (a b : string) : chars (a +:+ b) = chars a ++ chars b.
Proof. induction a as [|c a IH]; sapp; simpl; [done | by f_equal]. Qed.

Lemma replace_char_app (c : ascii) (r a b : string) :
  replace_char c r (a +:+ b) = replace_char c r a +:+ replace_char c r b.
Proof.
  induction a as [|x a IH]; sapp; simpl; sapp; [done|].
  by rewrite IH, append_assoc.
Qed.

Lemma escapeHtml_cons (c : ascii) (s : string) :
  escapeHtml (String c s) = entity c +:+ escapeHtml s.
Proof.
  unfold escapeHtml, entity. cbn [replace_char]. rewrite !replace_char_app. f_equal.
  destruct (Ascii.eqb_spec c "&") as [->|H1]; [reflexivity|].
  cbn [replace_char]. sapp. rewrite append_nil_r.
  destruct (Ascii.eqb_spec c "<") as [->|H2]; [reflexivity|].
  cbn [replace_char]. sapp.
  by destruct (Ascii.eqb_spec c ">") as [->|H3].
Qed.

Lemma entity_chars (c x : ascii) :
  x ∈ chars (entity c) -> x <> "<"%char /\ x <> ">"%char.
Proof.
  unfold entity.
  destruct (Ascii.eqb_spec c "&") as [->|H1];
    [|destruct (Ascii.eqb_spec c "<") as [->|H2];
      [|destruct (Ascii.eqb_spec c ">") as [->|H3]]];
    cbn; rewrite ?elem_of_cons, elem_of_nil; intros H;
    repeat destruct H as [H|H]; subst; try done; by split.
Qed.

(** The escaped text, character by character: the three replacements run
    one after the other, and the first one does not meet what the later
    ones write, so every character of the text is replaced once; and no
    angle bracket is left in the escaped text. *)
Theorem escapeHtml_no_markup (s : string) :
  escapeHtml EmptyString = EmptyString
  /\ (forall c r, escapeHtml (String c r) = entity c +:+ escapeHtml r)
  /\ ("<"%char ∉ chars (escapeHtml s))
  /\ (">"%char ∉ chars (escapeHtml s)).
Proof.
  split; [reflexivity|]. split; [apply escapeHtml_cons|].
  induction s as [|c s [IH1 IH2]]; [split; cbn; apply not_elem_of_nil|].
  rewrite escapeHtml_cons, chars_app. rewrite !not_elem_of_app.
  split; (split; [|done]); intros H%entity_chars; tauto.
Qed.

Lemma entity_inj (c d : ascii) (x y : string) :
  entity c +:+ x = entity d +:+ y -> c = d /\ x = y.
Proof.
  unfold entity.
  destruct (Ascii.eqb_spec c "&") as [->|C1];
    [|destruct (Ascii.eqb_spec c "<") as [->|C2];
      [|destruct (Ascii.eqb_spec c ">") as [->|C3]]];
    (destruct (Ascii.eqb_spec d "&") as [->|D1];
      [|destruct (Ascii.eqb_spec d "<") as [->|D2];
        [|destruct (Ascii.eqb_spec d ">") as [->|D3]]]);
    sapp; intros H; inversion H; subst; done.
Qed.

Lemma entity_not_empty (c : ascii) (x : string) : entity c +:+ x <> EmptyString.
Proof.
  unfold entity.
  destruct (Ascii.eqb c "&"); [|destruct (Ascii.eqb c "<"); [|destruct (Ascii.eqb c ">")]];
    sapp; done.
Qed.

Lemma escapeHtml_eq (a b : string) : escapeHtml a = escapeHtml b -> a = b.
Proof.
  revert b. induction a as [|c a IH]; intros [|d b].
  - done.
  - rewrite escapeHtml_cons. intros H. symmetry in H. by apply entity_not_empty in H.
  - rewrite escapeHtml_cons. intros H. by apply entity_not_empty in H.
  - rewrite !escapeHtml_cons. intros [-> H]%entity_inj. f_equal. by apply IH.
Qed.

(** Two different texts never have the same escaped text: what was typed
    can be told from what the escape wrote. *)
Theorem escapeHtml_inj (a b : string) : a <> b -> escapeHtml a <> escapeHtml b.
Proof. intros Hne Heq. by apply Hne, escapeHtml_eq. Qed.

Lemma read_quoted_body_spec (s rest : string) :
  String.prefix (String dquote EmptyString) rest = false ->
  read_quoted_body
    (replace_char dquote (String dquote (String dquote EmptyString)) s
     +:+ String dquote EmptyString +:+ rest)
  = Some (s, rest).
Proof.
  intros Hrest. induction s as [|c s IH]; cbn [replace_char]; sapp.
  - cbn [read_quoted_body]. rewrite Ascii.eqb_refl.
    destruct rest as [|b r]; [done|].
    rewrite prefix_cons in Hrest.
    destruct (Ascii.eqb_spec b dquote) as [->|Hb]; [|done].
    destruct (ascii_dec dquote dquote); [|congruence].
    by destruct r.
  - destruct (Ascii.eqb_spec c dquote) as [->|Hc]; sapp.
    + cbn [read_quoted_body]. rewrite !Ascii.eqb_refl.
      by rewrite IH.
    + cbn [read_quoted_body]. rewrite (proj2 (Ascii.eqb_neq _ _) Hc).
      by rewrite IH.
Qed.

(** A quoted field of the CSV export reads back as the text it was written
    from, whatever the text, and the reader stops right after the field,
    when what follows does not start with a quote. *)
Theorem csv_quote_reads_back (s rest : string) :
  String.prefix (String dquote EmptyString) rest = false ->
  read_quoted (csv_quote s +:+ rest) = Some (s, rest).
Proof.
  intros Hrest. unfold csv_quote, read_quoted. sapp. rewrite Ascii.eqb_refl.
  rewrite append_assoc. apply (read_quoted_body_spec s rest Hrest).
Qed.

(** ** /set-reminders *)

Lemma trimStart_head (s : string) :
  match trimStart s with
  | EmptyString => True
  | String c _ => is_space c = false
  end.
Proof.
  induction s as [|c s IH]; simpl; [done|].
  destruct (is_space c) eqn:E; [exact IH | done].
Qed.

Lemma trimEnd_idem (s : string) : trimEnd (trimEnd s) = trimEnd s.
Proof.
  induction s as [|c s IH]; simpl; [done|].
  destruct (trimEnd s) as [|y r] eqn:E.
  - destruct (is_space c) eqn:Ec; simpl; [done | by rewrite Ec].
  - cbn [trimEnd]. cbn [trimEnd] in IH. by rewrite IH.
Qed.

Lemma trimEnd_head (c : ascii) (s : string) :
  is_space c = false -> exists r, trimEnd (String c s) = String c r.
Proof.
  intros Hc. simpl. destruct (trimEnd s); rewrite ?Hc; eauto.
Qed.

Lemma trim_idem (s : string) : trim (trim s) = trim s.
Proof.
  unfold trim. pose proof (trimStart_head s) as Hh.
  destruct (trimStart s) as [|c x]; [done|].
  destruct (trimEnd_head c x Hh) as [r Hr]. rewrite Hr.
  cbn [trimStart]. rewrite Hh, <- Hr. apply trimEnd_idem.
Qed.





(** ** The reminder job: what it sends and what it keeps *)

Lemma marked_from_refl (t : Task) : marked_from t t.
Proof. unfold marked_from. repeat split; done. Qed.

Lemma marked_from_trans (t1 t2 t3 : Task) :
  marked_from t1 t2 -> marked_from t2 t3 -> marked_from t1 t3.
Proof.
  unfold marked_from.
  intros (A1 & A2 & A3 & A4 & A5 & A6 & A7 & A8 & A9 & A10)
         (B1 & B2 & B3 & B4 & B5 & B6 & B7 & B8 & B9 & B10).
  repeat split; try congruence; by etrans.
Qed.

Section JobFrame.

Context {K : Clock}.

Lemma fire_marked (key a : string) (now : Z) (t : Task) :
  marked_from t (fire key a now t).1.
Proof.
  unfold marked_from, fire. simpl. repeat split; try done; by apply prefix_app_r.
Qed.

Lemma window_step_marked (now : Z) (diff : option Z) (acc : Task * list Fired)
    (w : string * option jsnum) :
  marked_from acc.1 (window_step now diff acc w).1.
Proof.
  unfold window_step. destruct acc as [t out].
  destruct (bool_decide (w.1 ∈ remindersSent t)); [apply marked_from_refl|].
  destruct diff as [d|]; [|apply marked_from_refl].
  destruct ((0 <? d)%Z && within d w.2); [|apply marked_from_refl].
  apply fire_marked.
Qed.

Lemma windows_marked (now : Z) (diff : option Z) (ws : list (string * option jsnum))
    (acc : Task * list Fired) :
  marked_from acc.1 (foldl (window_step now diff) acc ws).1.
Proof.
  revert acc. induction ws as [|w ws IH]; intros acc; [apply marked_from_refl|].
  cbn [foldl]. eapply marked_from_trans; [apply window_step_marked | apply IH].
Qed.

Lemma scan_task_marked (now : Z) (ws : list (string * option jsnum)) (t : Task) :
  marked_from t (scan_task now ws t).1.
Proof.
  unfold scan_task.
  destruct (negb (truthyS (due t)) || String.eqb (status t) "Done");
    [apply marked_from_refl|].
  match goal with
  | |- context [foldl _ ?acc _] =>
      eapply (marked_from_trans _ acc.1); [|apply windows_marked]
  end.
  destruct (Date_parse (default "" (due t))) as [d|]; simpl; [|apply marked_from_refl].
  destruct ((d - now <? 0)%Z && negb (bool_decide ("overdue" ∈ remindersSent t)));
    [apply fire_marked | apply marked_from_refl].
Qed.

(** The two loops of the job: a property [Q] of the batches the body sends
    for a task object, which does not depend on what the job changes of the
    object, holds of every batch of the trace; and every object is as the
    body may leave it. *)
Lemma scan_loop_inv (now : Z) (ws : list (string * option jsnum))
    (Q : Task -> Fired -> Prop) (ls : list loc) (s : Store) (tr : list (loc * Fired)) :
  (forall t, Forall (Q t) (scan_task now ws t).2) ->
  (forall t t' f, marked_from t t' -> Q t f <-> Q t' f) ->
  let r := foldl (scan_step now ws) (s, tr) ls in
  tasks r.1 = tasks s
  /\ length (heap r.1) = length (heap s)
  /\ (forall l t0, heap s !! l = Some t0 ->
        exists t, heap r.1 !! l = Some t /\ marked_from t0 t)
  /\ forall x, x ∈ r.2 -> x ∈ tr \/ exists t0, heap s !! x.1 = Some t0 /\ Q t0 x.2.
Proof.
  intros HQ Hinv. revert s tr. induction ls as [|a ls IH]; intros s tr; simpl.
  - repeat split; try done; [|by left].
    intros l t0 Hl. exists t0. split; [done | apply marked_from_refl].
  - unfold scan_step at 2 4 6 8. simpl.
    destruct (heap s !! a) as [ta|] eqn:Ha; [|by apply IH].
    pose proof (HQ ta) as Hout. pose proof (scan_task_marked now ws ta) as Hm.
    destruct (scan_task now ws ta) as [ta' out]. simpl in Hout, Hm.
    destruct (IH (mutate (fun _ => ta') a s) (tr ++ map (pair a) out)) as (I1 & I2 & I3 & I4).
    split; [done|]. split; [|split].
    + rewrite I2. simpl. apply length_alter.
    + intros l t0 Hl. destruct (decide (a = l)) as [->|Hne].
      * destruct (I3 l ta') as (t & Ht & Hmt).
        { simpl. by rewrite list_lookup_alter_eq, Ha. }
        exists t. split; [done|]. assert (ta = t0) as -> by congruence.
        by eapply marked_from_trans.
      * apply I3. simpl. by rewrite list_lookup_alter_ne.
    + intros x Hx. destruct (I4 x Hx) as [Hin|(t1 & Ht1 & Hq)].
      * apply elem_of_app in Hin as [Hin|Hin]; [by left|]. right.
        apply list_elem_of_fmap in Hin as (f & -> & Hf). exists ta. split; [done|].
        rewrite Forall_forall in Hout. by apply Hout.
      * right. simpl in Ht1. destruct (decide (a = x.1)) as [Heq|Hne].
        -- rewrite <- Heq in Ht1. rewrite list_lookup_alter_eq, Ha in Ht1.
           injection Ht1 as <-. exists ta. rewrite <- Heq. split; [done|].
           by apply (Hinv ta ta').
        -- rewrite list_lookup_alter_ne in Ht1 by done. by exists t1.
Qed.

Lemma scheduleReminders_inv (config : Config) (now : Z) (Q : Task -> Fired -> Prop)
    (s : Store) :
  (forall t, Forall (Q t) (scan_task now (windows_of config) t).2) ->
  (forall t t' f, marked_from t t' -> Q t f <-> Q t' f) ->
  let r := scheduleReminders config now s in
  tasks r.1 = tasks s
  /\ length (heap r.1) = length (heap s)
  /\ (forall l t0, heap s !! l = Some t0 ->
        exists t, heap r.1 !! l = Some t /\ marked_from t0 t)
  /\ forall x, x ∈ r.2 -> exists t0, heap s !! x.1 = Some t0 /\ Q t0 x.2.
Proof.
  intros HQ Hinv. unfold scheduleReminders. rewrite foldl_locs.
  destruct (scan_loop_inv now (windows_of config) Q (entries (tasks s)).*2 s [] HQ Hinv)
    as (H1 & H2 & H3 & H4).
  repeat split; try done.
  intros x Hx. destruct (H4 x Hx) as [Hin|?]; [by apply elem_of_nil in Hin | done].
Qed.

(** What the job never does. Over any number of runs it leaves the index
    as it is, and of every task object it changes nothing but the log and
    the record of reminders sent, to which it only adds: the id, the
    title, the description, the due date, the status, the creator, the
    assignees and the department are as before. A task that is past its
    due date is therefore not set to Overdue by the job. *)
Theorem job_runs_keep_tasks (runs : list (Config * Z)) (s : Store) :
  tasks (job_runs runs s).1 = tasks s
  /\ length (heap (job_runs runs s).1) = length (heap s)
  /\ forall l t0, heap s !! l = Some t0 ->
       exists t, heap (job_runs runs s).1 !! l = Some t /\ marked_from t0 t.
Proof.
  unfold job_runs. generalize (@nil (loc * Fired)).
  revert s. induction runs as [|r runs IH]; intros s tr.
  - simpl. repeat split; try done. intros l t0 Hl. exists t0.
    split; [done | apply marked_from_refl].
  - cbn [foldl]. cbn [fst snd].
    destruct (scheduleReminders_inv r.1 r.2 (fun _ _ => True) s) as (R2 & R3 & R4 & _).
    { intros t. apply Forall_forall. done. }
    { done. }
    destruct (IH (scheduleReminders r.1 r.2 s).1 (tr ++ (scheduleReminders r.1 r.2 s).2))
      as (I2 & I3 & I4).
    split; [congruence|]. split; [congruence|].
    intros l t0 Hl. destruct (R4 l t0 Hl) as (t1 & Ht1 & Hm1).
    destruct (I4 l t1 Ht1) as (t & Ht & Hm). exists t. split; [done|].
    by eapply marked_from_trans.
Qed.







Lemma windows_grow (now : Z) (diff : option Z) (ws : list (string * option jsnum))
    (acc : Task * list Fired) (k : string) :
  k ∈ remindersSent acc.1 -> k ∈ remindersSent (foldl (window_step now diff) acc ws).1.
Proof.
  intros Hk. destruct (windows_marked now diff ws acc)
    as (_ & _ & _ & _ & _ & _ & _ & _ & _ & [r Hr]).
  rewrite Hr. apply elem_of_app. by left.
Qed.

Lemma windows_complete (now diff : Z) (ws : list (string * option jsnum))
    (acc : Task * list Fired) (k : string) (m : option jsnum) :
  (k, m) ∈ ws -> (0 < diff)%Z -> within diff m = true ->
  k ∈ remindersSent (foldl (window_step now (Some diff)) acc ws).1.
Proof.
  intros Hin Hpos Hw. revert acc. induction ws as [|w ws IH]; intros acc;
    [by apply elem_of_nil in Hin|].
  cbn [foldl]. apply elem_of_cons in Hin as [<-|Hin]; [|by apply IH].
  apply windows_grow. unfold window_step. destruct acc as [t out]. simpl.
  destruct (bool_decide (k ∈ remindersSent t)) eqn:Hk; [by apply bool_decide_eq_true in Hk|].
  rewrite (proj2 (Z.ltb_lt _ _) Hpos), Hw. simpl.
  apply elem_of_app. right. by apply list_elem_of_singleton.
Qed.

(** The body of the loops records the key of every notice that is due. *)
Lemma scan_task_complete (now d : Z) (ws : list (string * option jsnum)) (t : Task)
    (txt k : string) (m : option jsnum) :
  due t = Some txt -> txt <> EmptyString -> status t <> "Done" -> Date_parse txt = Some d ->
  ((d < now)%Z /\ k = "overdue")
  \/ ((now < d)%Z /\ (k, m) ∈ ws /\ within (d - now) m = true) ->
  k ∈ remindersSent (scan_task now ws t).1.
Proof.
  intros Hdue Htxt Hst Hd Hk. unfold scan_task. rewrite Hdue.
  change (default "" (Some txt)) with txt. cbn [truthyS].
  rewrite (proj2 (String.eqb_neq _ _) Htxt), (proj2 (String.eqb_neq _ _) Hst).
  cbn [negb orb]. rewrite Hd. cbn [fmap option_fmap option_map].
  destruct Hk as [[Hlt ->]|(Hlt & Hin & Hw)].
  - apply windows_grow. rewrite (proj2 (Z.ltb_lt _ _)) by lia. cbn [andb].
    destruct (bool_decide ("overdue" ∈ remindersSent t)) eqn:Ho; cbn [negb].
    + by apply bool_decide_eq_true in Ho.
    + simpl. apply elem_of_app. right. by apply list_elem_of_singleton.
  - eapply windows_complete; [exact Hin | lia | exact Hw].
Qed.

Lemma scan_loop_complete (now d : Z) (ws : list (string * option jsnum))
    (txt k : string) (m : option jsnum) (l : loc) (ls : list loc) (s : Store)
    (tr : list (loc * Fired)) (t : Task) :
  txt <> EmptyString -> Date_parse txt = Some d ->
  ((d < now)%Z /\ k = "overdue")
  \/ ((now < d)%Z /\ (k, m) ∈ ws /\ within (d - now) m = true) ->
  heap s !! l = Some t -> due t = Some txt -> status t <> "Done" ->
  k ∈ remindersSent t \/ l ∈ ls ->
  exists t', heap (foldl (scan_step now ws) (s, tr) ls).1 !! l = Some t'
             /\ k ∈ remindersSent t'.
Proof.
  intros Htxt Hd Hk. revert s tr t.
  induction ls as [|a ls IH]; intros s tr t Hl Hdue Hst Hor.
  - destruct Hor as [?|Hin]; [by exists t | by apply elem_of_nil in Hin].
  - cbn [foldl]. unfold scan_step at 2. simpl.
    destruct (decide (a = l)) as [->|Hne].
    + rewrite Hl.
      pose proof (scan_task_complete now d ws t txt k m Hdue Htxt Hst Hd Hk) as Hc.
      pose proof (scan_task_marked now ws t) as Hm.
      destruct (scan_task now ws t) as [t1 out]. simpl in Hc, Hm.
      destruct Hm as (_ & _ & _ & A4 & A5 & _).
      apply (IH _ _ t1).
      * simpl. by rewrite list_lookup_alter_eq, Hl.
      * congruence.
      * congruence.
      * by left.
    + assert (k ∈ remindersSent t \/ l ∈ ls) as Hor'.
      { destruct Hor as [?|Hin]; [by left|]. right.
        by apply elem_of_cons in Hin as [->|?]. }
      destruct (heap s !! a) as [ta|] eqn:Ha; [|by apply (IH _ _ t)].
      destruct (scan_task now ws ta) as [ta' out].
      apply (IH _ _ t); try done. simpl. by rewrite list_lookup_alter_ne.
Qed.


End JobFrame.

(** ** The commands on the registry *)

Lemma managers_after (us : list User) (m : gmap string bool) (k : string) :
  foldl (fun m u => <[u_id u := true]> m) m us !! k
  = if bool_decide (k ∈ map u_id us) then Some true else m !! k.
Proof.
  revert m. induction us as [|u us IH]; intros m; [done|].
  cbn [foldl]. rewrite IH. cbn [map].
  destruct (decide (k ∈ map u_id us)) as [Hin|Hin].
  - rewrite !bool_decide_eq_true_2; [done | | done]. apply elem_of_cons. by right.
  - rewrite (bool_decide_eq_false_2 _ Hin).
    destruct (decide (k = u_id u)) as [->|Hne].
    + rewrite lookup_insert_eq, bool_decide_eq_true_2; [done|].
      apply elem_of_cons. by left.
    + rewrite lookup_insert_ne by done. rewrite bool_decide_eq_false_2; [done|].
      by intros [?|?]%elem_of_cons.
Qed.

(** /manager-add by an admin makes every mentioned user a manager, who
    then passes the check of the commands for admins and managers in any
    guild; who was a manager stays one, nobody else becomes one, and the
    departments are as before. *)
Theorem manager_add_grants (c : Caller) (mention : Mentionable) (reg : Registry) :
  isAdmin (u_id (user c)) (guild c) = true ->
  let reg' := (manager_add c mention reg).2 in
  (manager_add c mention reg).1 = Accepted
  /\ departments reg' = departments reg
  /\ (forall v, isManager reg' v = true
                <-> isManager reg v = true
                    \/ v ∈ map u_id (safeMentionableArray mention))
  /\ (forall u g, u ∈ safeMentionableArray mention ->
        isAdminOrManager reg' (u_id u) g = true).
Proof.
  intros Hadm reg'. unfold reg', manager_add. rewrite Hadm. cbn [negb fst snd].
  split; [done|]. split; [done|].
  assert (forall v,
            isManager {| departments := departments reg;
                         managers := foldl (fun m u => <[u_id u := true]> m) (managers reg)
                                       (safeMentionableArray mention) |} v = true
            <-> isManager reg v = true \/ v ∈ map u_id (safeMentionableArray mention)) as Hm.
  { intros v. unfold isManager. cbn [managers]. rewrite !bool_decide_eq_true, managers_after.
    destruct (decide (v ∈ map u_id (safeMentionableArray mention))) as [Hin|Hin].
    - rewrite bool_decide_eq_true_2 by done. tauto.
    - rewrite bool_decide_eq_false_2 by done. tauto. }
  split; [exact Hm|]. intros u g Hu. unfold isAdminOrManager.
  apply orb_true_iff. right. apply Hm. right. by apply list_elem_of_fmap_2.
Qed.

Lemma filter_other_snoc (u : string) (ms : list string) :
  u ∉ ms ->
  List.filter (fun id => negb (String.eqb id u)) (ms ++ [u]) = ms.
Proof.
  intros Hu. rewrite List.filter_app. simpl. rewrite String.eqb_refl. simpl.
  rewrite app_nil_r. apply filter_all, Forall_forall. intros x Hx.
  apply negb_true_iff, String.eqb_neq. by intros ->.
Qed.

(** /department-add-member by an admin: the member is in the department
    afterwards, once if the department had no repetition, the members it
    had are kept in their order, the other departments and the managers are
    as before, and the command given again changes nothing. *)
Theorem department_add_member_once (c : Caller) (name : string) (member : User)
    (reg : Registry) :
  isAdmin (u_id (user c)) (guild c) = true ->
  let before := default [] (departments reg !! name) in
  let reg' := (department_add_member c name member reg).2 in
  exists after,
    department_add_member c name member reg = (Accepted, reg')
    /\ departments reg' !! name = Some after
    /\ u_id member ∈ after
    /\ before `prefix_of` after
    /\ (forall v, v ∈ after <-> v ∈ before \/ v = u_id member)
    /\ (NoDup before -> NoDup after)
    /\ (forall other, other <> name -> departments reg' !! other = departments reg !! other)
    /\ managers reg' = managers reg
    /\ department_add_member c name member reg' = (Accepted, reg').
Proof.
  intros Hadm before reg'. unfold reg', department_add_member. rewrite Hadm.
  cbn [negb fst snd departments managers]. fold before.
  set (after := if bool_decide (u_id member ∈ before) then before
                else before ++ [u_id member]).
  exists after. split; [done|]. split; [apply lookup_insert_eq|].
  assert (u_id member ∈ after) as Hin.
  { unfold after. case_bool_decide; [done|]. apply elem_of_app. right.
    by apply list_elem_of_singleton. }
  split; [done|]. split.
  { unfold after. case_bool_decide; [done | by apply prefix_app_r]. }
  split.
  { intros v. unfold after. case_bool_decide as Hb.
    - split; [by left | by intros [?| ->]].
    - rewrite elem_of_app, list_elem_of_singleton. tauto. }
  split.
  { intros Hnd. unfold after. case_bool_decide as Hb; [done|].
    apply NoDup_app. split; [done|]. split; [|apply NoDup_singleton].
    by intros x Hx ->%list_elem_of_singleton. }
  split; [by intros other Hne; apply lookup_insert_ne|]. split; [done|].
  rewrite lookup_insert_eq. cbn [default from_option id].
  rewrite bool_decide_eq_true_2 by done. by rewrite insert_insert_eq.
Qed.

(** /department-remove-member by an admin takes the member out of the
    department wherever the id stands in it and keeps the others in their
    order; for a department that does not exist the reply is that it was
    not found and nothing changes. Taking out a member that
    /department-add-member has just put in gives the registry back. *)
Theorem department_remove_member_undoes_add (c : Caller) (name : string) (member : User)
    (reg : Registry) (members : list string) :
  isAdmin (u_id (user c)) (guild c) = true ->
  departments reg !! name = Some members ->
  let reg1 := (department_remove_member c name member reg).2 in
  (department_remove_member c name member reg).1 = Accepted
  /\ departments reg1 !! name
     = Some (List.filter (fun id => negb (String.eqb id (u_id member))) members)
  /\ (forall v, v ∈ default [] (departments reg1 !! name)
                <-> v ∈ members /\ v <> u_id member)
  /\ (forall other, departments reg !! other = None ->
        department_remove_member c other member reg = (NotFound, reg))
  /\ (u_id member ∉ members ->
      department_remove_member c name member (department_add_member c name member reg).2
      = (Accepted, reg)).
Proof.
  intros Hadm Hdept reg1. unfold reg1, department_remove_member.
  rewrite Hadm, Hdept. cbn [negb fst snd departments].
  split; [done|]. split; [apply lookup_insert_eq|]. split.
  { intros v. rewrite lookup_insert_eq. cbn [default from_option id].
    rewrite elem_of_List_filter, negb_true_iff, String.eqb_neq. done. }
  split.
  { intros other Hnone. by rewrite Hnone. }
  intros Hnew. unfold department_add_member. rewrite Hadm, Hdept.
  cbn [negb fst snd departments managers default from_option id].
  rewrite bool_decide_eq_false_2 by done.
  rewrite lookup_insert_eq, insert_insert_eq, filter_other_snoc by done.
  rewrite insert_id by done. by destruct reg.
Qed.

Section DepartmentAssign.

Context {K : Clock}.


End DepartmentAssign.

(** ** /task-delete *)

Lemma map_delete_at_middle (m1 m2 : list (string * list loc)) (uid : string)
    (ls : list loc) (i : nat) :
  uid ∉ m1.*1 ->
  map_delete_at uid i (m1 ++ (uid, ls) :: m2) = m1 ++ (uid, delete i ls) :: m2.
Proof.
  induction m1 as [|[k l] m1 IH]; simpl; intros Hk.
  - by rewrite String.eqb_refl.
  - apply not_elem_of_cons in Hk as [Hk1 Hk2]. simpl in Hk1.
    destruct (String.eqb_spec k uid); [congruence|]. by rewrite IH.
Qed.

Lemma map_delete_at_keys (uid : string) (i : nat) (m : list (string * list loc)) :
  (map_delete_at uid i m).*1 = m.*1.
Proof.
  induction m as [|[k l] m IH]; simpl; [done|].
  destruct (String.eqb k uid); simpl; [done | by f_equal].
Qed.

Lemma map_delete_at_get (uid : string) (i : nat) (m : list (string * list loc)) :
  map_get uid (map_delete_at uid i m) = delete i <$> map_get uid m.
Proof.
  induction m as [|[k l] m IH]; simpl; [done|].
  destruct (String.eqb_spec k uid) as [->|Hne]; simpl.
  - by rewrite String.eqb_refl.
  - by destruct (String.eqb_spec k uid).
Qed.

Lemma map_delete_at_get_ne (uid uid' : string) (i : nat) (m : list (string * list loc)) :
  uid <> uid' -> map_get uid' (map_delete_at uid i m) = map_get uid' m.
Proof.
  intros Hne. induction m as [|[k l] m IH]; simpl; [done|].
  destruct (String.eqb_spec k uid) as [->|Hk]; simpl.
  - by destruct (String.eqb_spec uid uid').
  - by destruct (String.eqb_spec k uid').
Qed.

Lemma ids_of_has (h : list Task) (id : Z) (uid : string) (l : loc)
    (es : list (string * loc)) :
  (uid, l) ∈ es -> has_id h id l = true -> id ∈ ids_of h es.
Proof.
  intros Hin Hid. unfold ids_of. apply list_elem_of_omap. exists (uid, l).
  split; [done|]. simpl. unfold has_id in Hid.
  destruct (h !! l) as [t|]; [|done]. simpl. f_equal. by apply Z.eqb_eq.
Qed.

Lemma findTaskById_in_absent (h : list Task) (id : Z) (m : list (string * list loc)) :
  id ∉ ids_of h (entries m) -> findTaskById_in h id m = None.
Proof.
  intros Hn. destruct (findTaskById_in h id m) as [f|] eqn:Hf; [|done].
  destruct (findTaskById_in_Some _ _ _ _ Hf) as (m1 & ls & m2 & _ & _ & Hid & e2 & He & _).
  exfalso. apply Hn. apply (ids_of_has _ _ (f_userId f) (f_task f)); [|done].
  rewrite He. apply elem_of_app. right. apply elem_of_cons. by left.
Qed.

(** Where a lookup by id finds its entry, with the entries before and
    after it in scan order. *)
Lemma findTaskById_split (s : Store) (id : Z) (f : Found) :
  NoDup (tasks s).*1 ->
  findTaskById id s = Some f ->
  exists m1 ls m2,
    tasks s = m1 ++ (f_userId f, ls) :: m2
    /\ (f_userId f ∉ m1.*1)
    /\ ls !! f_index f = Some (f_task f)
    /\ has_id (heap s) id (f_task f) = true
    /\ id ∉ ids_of (heap s) (entries m1 ++ map (pair (f_userId f)) (take (f_index f) ls)).
Proof.
  intros Hnd Hf. unfold findTaskById in Hf.
  destruct (findTaskById_in_Some _ _ _ _ Hf) as (m1 & ls & m2 & Hm & Hl & Hid & e2 & _ & Hn).
  exists m1, ls, m2. repeat split; try done.
  rewrite Hm, fmap_app in Hnd. simpl in Hnd.
  apply NoDup_app in Hnd as (_ & Hd & _). intros Hin. apply (Hd _ Hin). left.
Qed.

Lemma entries_middle (m1 m2 : list (string * list loc)) (uid : string) (ls : list loc) :
  entries (m1 ++ (uid, ls) :: m2) = entries m1 ++ map (pair uid) ls ++ entries m2.
Proof. by rewrite entries_app, entries_cons. Qed.

(** What taking the entry found out of the index does. *)
Lemma delete_found (s : Store) (id : Z) (f : Found) :
  NoDup (tasks s).*1 ->
  findTaskById id s = Some f ->
  let s' := {| heap := heap s;
               tasks := map_delete_at (f_userId f) (f_index f) (tasks s) |} in
  exists e1 e2,
    entries (tasks s) = e1 ++ (f_userId f, f_task f) :: e2
    /\ (id ∉ ids_of (heap s) e1)
    /\ entries (tasks s') = e1 ++ e2
    /\ (findTaskById id s' = None <-> id ∉ ids_of (heap s) e2).
Proof.
  intros Hnd Hf s'.
  destruct (findTaskById_split s id f Hnd Hf) as (m1 & ls & m2 & Hm & Hk & Hl & Hh & Hn).
  exists (entries m1 ++ map (pair (f_userId f)) (take (f_index f) ls)),
         (map (pair (f_userId f)) (drop (S (f_index f)) ls) ++ entries m2).
  unfold s'. cbn [tasks heap].
  rewrite Hm, map_delete_at_middle, !entries_middle by done.
  split.
  { rewrite <- (take_drop_middle ls _ _ Hl) at 1.
    rewrite map_app. simpl. by rewrite <- !app_assoc. }
  split; [done|]. split.
  { rewrite delete_take_drop, map_app. by rewrite <- !app_assoc. }
  unfold findTaskById. cbn [tasks heap]. split.
  - intros Hnone%findTaskById_in_None. rewrite entries_middle in Hnone.
    rewrite delete_take_drop, map_app, <- !app_assoc in Hnone.
    rewrite !ids_of_app in Hnone. rewrite !ids_of_app.
    rewrite !not_elem_of_app in Hnone. rewrite not_elem_of_app. tauto.
  - intros Hn2. apply findTaskById_in_absent. rewrite entries_middle.
    rewrite delete_take_drop, map_app, <- !app_assoc, !ids_of_app.
    rewrite ids_of_app in Hn, Hn2.
    rewrite !not_elem_of_app in *. tauto.
Qed.

(** /task-delete with an id that is found. The caller must be privileged
    or an assignee of the task found. The command then takes out one
    entry of the index, the first one in scan order whose task has the id,
    and nothing else: the task objects, the keys of the index and the other
    entries, in their order, are as before. A task that stands in other
    collections too is still found by its id afterwards. *)
Theorem task_delete_by_id (reg : Registry) (c : Caller) (id : Z) (index : option Z)
    (s : Store) (f : Found) (t : Task) :
  NoDup (tasks s).*1 ->
  id <> 0%Z ->
  findTaskById id s = Some f ->
  heap s !! f_task f = Some t ->
  let result := task_delete reg c (Some id) index s in
  (~ may_touch reg c t -> result = (Forbidden, s))
  /\ (may_touch reg c t ->
      exists e1 e2,
        result.1 = Accepted
        /\ heap result.2 = heap s
        /\ (tasks result.2).*1 = (tasks s).*1
        /\ entries (tasks s) = e1 ++ (f_userId f, f_task f) :: e2
        /\ (id ∉ ids_of (heap s) e1)
        /\ entries (tasks result.2) = e1 ++ e2
        /\ (findTaskById id result.2 = None <-> id ∉ ids_of (heap s) e2)).
Proof.
  intros Hnd Hid Hf Ht result.
  assert (resolve_target reg c (Some id) index s = inr f) as Hres.
  { unfold resolve_target. rewrite truthyZ_Some.
    rewrite (proj2 (Z.eqb_neq _ _) Hid). simpl. by rewrite Hf. }
  assert (may_touch reg c t ->
          result = (Accepted, {| heap := heap s;
                                 tasks := map_delete_at (f_userId f) (f_index f) (tasks s) |})
         ) as Hok.
  { unfold result, task_delete, may_touch. rewrite Hres, Ht. simpl.
    intros [-> | Hin]; [done|]. rewrite (bool_decide_eq_true_2 _ Hin).
    by rewrite andb_false_r. }
  split.
  - unfold result, task_delete, may_touch. rewrite Hres, Ht. simpl. intros Hno.
    destruct (isAdminOrManager reg (u_id (user c)) (guild c)); [tauto|].
    rewrite bool_decide_eq_false_2; [done | tauto].
  - intros Hm. rewrite (Hok Hm). cbn [fst snd heap].
    destruct (delete_found s id f Hnd Hf) as (e1 & e2 & H1 & H2 & H3 & H4).
    exists e1, e2. split; [done|]. split; [done|].
    split; [apply map_delete_at_keys|]. done.
Qed.

(** The entry a command addresses by position in the list /task-list
    shows to the caller, when no id resolves. *)
Lemma resolve_by_index (reg : Registry) (c : Caller) (id : option Z) (i : Z) (s : Store) :
  wf s ->
  truthyZ id = false \/ findTaskById (default 0%Z id) s = None ->
  let shown := task_list reg c s in
  ((i < 1 \/ Z.of_nat (length shown) < i)%Z ->
   resolve_target reg c id (Some i) s = inl NotFound)
  /\ (forall e, (1 <= i)%Z -> shown !! Z.to_nat (i - 1) = Some e ->
        exists f ls,
          resolve_target reg c id (Some i) s = inr f
          /\ map_get (f_userId f) (tasks s) = Some ls
          /\ ls !! f_index f = Some (f_task f)
          /\ f_userId f = userId e
          /\ heap s !! f_task f = Some (task e)).
Proof.
  intros Hwf Hid shown.
  assert ((if truthyZ id then findTaskById (default 0%Z id) s else None) = None) as Hnone.
  { destruct Hid as [-> | Hid]; [done|]. rewrite Hid. by destruct (truthyZ id). }
  unfold resolve_target. rewrite Hnone.
  change (default 0%Z (Some i)) with i. rewrite truthyZ_Some.
  subst shown. unfold task_list.
  destruct (isAdminOrManager reg (u_id (user c)) (guild c)) eqn:Hpriv.
  - rewrite andb_true_r. split.
    + intros Hout. destruct (Z.eqb_spec i 0) as [->|Hi]; simpl; [done|].
      destruct (Z.ltb_spec i 1); simpl; [done|].
      destruct (Z.ltb_spec (Z.of_nat (length (getAllTasksUnique s))) i); [done | lia].
    + intros e Hi He.
      pose proof (lookup_lt_Some _ _ _ He) as Hlt.
      destruct (findTaskById_of_unique s e) as (f & Hf & Hu & Ht).
      { by eapply list_elem_of_lookup_2. }
      destruct (findTaskById_position s _ f (proj1 Hwf) Hf) as (ls & Hg & Hl & _).
      exists f, ls.
      destruct (Z.eqb_spec i 0) as [->|_]; [lia|]. simpl.
      destruct (Z.ltb_spec i 1); [lia|]. simpl.
      destruct (Z.ltb_spec (Z.of_nat (length (getAllTasksUnique s))) i); [lia|].
      by rewrite He, Hf.
  - rewrite andb_false_r.
    destruct (omap_total _ _ (own_list_live s (u_id (user c)) Hwf)) as [Hlen Hlook].
    rewrite Hlen. split.
    + intros Hout. destruct (Z.eqb_spec i 0) as [->|Hi]; simpl; [done|].
      destruct (Z.ltb_spec i 1); simpl; [done|].
      destruct (Z.ltb_spec (Z.of_nat (length (map_get_or_empty (u_id (user c)) (tasks s)))) i);
        [done | lia].
    + intros e Hi He. rewrite Hlook in He.
      destruct (map_get_or_empty (u_id (user c)) (tasks s) !! Z.to_nat (i - 1))
        as [l|] eqn:Hl; simpl in He; [|done].
      destruct (heap s !! l) as [t|] eqn:Ht; simpl in He; [|done].
      injection He as <-.
      pose proof (lookup_lt_Some _ _ _ Hl) as Hlt.
      assert (exists ls, map_get (u_id (user c)) (tasks s) = Some ls
                         /\ ls !! Z.to_nat (i - 1) = Some l) as (ls & Hg & Hl').
      { unfold map_get_or_empty in Hl.
        destruct (map_get (u_id (user c)) (tasks s)) as [ls|]; simpl in Hl; [|done].
        by exists ls. }
      exists {| f_userId := u_id (user c); f_index := Z.to_nat (i - 1); f_task := l |}, ls.
      destruct (Z.eqb_spec i 0) as [->|_]; [lia|]. cbn [negb orb andb].
      destruct (Z.ltb_spec i 1); [lia|]. cbn [negb orb andb].
      destruct (Z.ltb_spec (Z.of_nat (length (map_get_or_empty (u_id (user c)) (tasks s)))) i);
        [lia|].
      done.
Qed.

(** /task-delete addressed by position [i] in the list of [N] tasks that
    /task-list shows to the caller, when no id resolves: outside [1..N] it
    answers NotFound and leaves the store as it is; inside, it answers
    Forbidden when the caller is neither privileged nor an assignee of the
    task at that position, and otherwise takes that entry, and no other,
    out of the collection it stands in; the task objects and the other
    collections are as before. *)
Theorem task_delete_by_index (reg : Registry) (c : Caller) (id : option Z) (i : Z)
    (s : Store) :
  wf s ->
  truthyZ id = false \/ findTaskById (default 0%Z id) s = None ->
  let shown := task_list reg c s in
  let result := task_delete reg c id (Some i) s in
  ((i < 1 \/ Z.of_nat (length shown) < i)%Z -> result = (NotFound, s))
  /\ (forall e, (1 <= i)%Z -> shown !! Z.to_nat (i - 1) = Some e ->
        (~ may_touch reg c (task e) -> result = (Forbidden, s))
        /\ (may_touch reg c (task e) ->
            exists f ls,
              map_get (f_userId f) (tasks s) = Some ls
              /\ ls !! f_index f = Some (f_task f)
              /\ f_userId f = userId e
              /\ heap s !! f_task f = Some (task e)
              /\ result.1 = Accepted
              /\ heap result.2 = heap s
              /\ map_get (f_userId f) (tasks result.2) = Some (delete (f_index f) ls)
              /\ (forall uid, uid <> f_userId f ->
                    map_get uid (tasks result.2) = map_get uid (tasks s)))).
Proof.
  intros Hwf Hid shown result.
  destruct (resolve_by_index reg c id i s Hwf Hid) as [Hout Hin].
  split.
  - intros Hi. unfold result, task_delete. by rewrite (Hout Hi).
  - intros e Hi He. destruct (Hin e Hi He) as (f & ls & Hres & Hg & Hl & Hu & Ht).
    unfold result, task_delete, may_touch. rewrite Hres, Ht. simpl.
    destruct (isAdminOrManager reg (u_id (user c)) (guild c)); simpl.
    + split; [tauto|]. intros _. exists f, ls. simpl.
      rewrite map_delete_at_get, Hg. repeat split; try done.
      intros uid Hne. by apply map_delete_at_get_ne.
    + destruct (decide (u_id (user c) ∈ assignedTo (task e))) as [Ha|Ha].
      * rewrite (bool_decide_eq_true_2 _ Ha). simpl. split; [tauto|]. intros _.
        exists f, ls. simpl. rewrite map_delete_at_get, Hg. repeat split; try done.
        intros uid Hne. by apply map_delete_at_get_ne.
      * rewrite (bool_decide_eq_false_2 _ Ha). simpl. split; [done | intros [?|?]; done].
Qed.

(** ** /task-add-assignee *)

Lemma add_all_heap (l : loc) (us : list string) (s : Store) :
  heap (foldl (add_step l) s us) = alter (add_all us) l (heap s).
Proof.
  revert s. induction us as [|u us IH]; intros s.
  - simpl. symmetry. by apply alter_fixed.
  - cbn [foldl]. rewrite IH. unfold add_step. cbn [heap mutate].
    exact (list_alter_alter_eq (add_all us) (add_assignee u) (heap s) l).
Qed.

Lemma add_all_tasks (l : loc) (us : list string) (s : Store) :
  tasks (foldl (add_step l) s us) = foldl (fun m u => map_push u l m) (tasks s) us.
Proof.
  revert s. induction us as [|u us IH]; intros s; [done|].
  cbn [foldl]. by rewrite IH.
Qed.

Lemma add_assignee_spec (u : string) (t : Task) :
  add_assignee u t = set_assignees (assignedTo (add_assignee u t)) t
  /\ assignedTo t `prefix_of` assignedTo (add_assignee u t)
  /\ (forall v, v ∈ assignedTo (add_assignee u t) <-> v ∈ assignedTo t \/ v = u)
  /\ (NoDup (assignedTo t) -> NoDup (assignedTo (add_assignee u t))).
Proof.
  unfold add_assignee. case_bool_decide as Hin; simpl.
  - split; [by destruct t|]. split; [done|]. split; [|done].
    intros v. split; [by left | by intros [?| ->]].
  - split; [done|]. split; [by apply prefix_app_r|]. split.
    + intros v. rewrite elem_of_app, list_elem_of_singleton. done.
    + intros Hnd. apply NoDup_app. split; [done|]. split; [|apply NoDup_singleton].
      by intros x Hx ->%list_elem_of_singleton.
Qed.

Lemma add_all_spec (us : list string) (t : Task) :
  add_all us t = set_assignees (assignedTo (add_all us t)) t
  /\ assignedTo t `prefix_of` assignedTo (add_all us t)
  /\ (forall v, v ∈ assignedTo (add_all us t) <-> v ∈ assignedTo t \/ v ∈ us)
  /\ (NoDup (assignedTo t) -> NoDup (assignedTo (add_all us t))).
Proof.
  revert t. induction us as [|u us IH]; intros t.
  - simpl. split; [by destruct t|]. split; [done|]. split; [|done].
    intros v. split; [by left | by intros [?|?%elem_of_nil]].
  - unfold add_all. cbn [foldl]. fold (add_all us (add_assignee u t)).
    destruct (add_assignee_spec u t) as (A1 & A2 & A3 & A4).
    destruct (IH (add_assignee u t)) as (B1 & B2 & B3 & B4).
    split; [|split; [by etrans|split]].
    + rewrite B1 at 1. rewrite A1. done.
    + intros v. rewrite B3, A3, elem_of_cons. tauto.
    + intros Hnd. by apply B4, A4.
Qed.


Lemma entries_push (u : string) (l : loc) (m : list (string * list loc))
    (e : string * loc) :
  e ∈ entries (map_push u l m) <-> e ∈ entries m \/ e = (u, l).
Proof.
  induction m as [|[k ls] m IH]; simpl.
  - rewrite list_elem_of_singleton. split; [by right | by intros [?%elem_of_nil|?]].
  - fold (entries m). destruct (String.eqb_spec k u) as [->|Hne]; rewrite ?entries_cons.
    + rewrite map_app, !elem_of_app. simpl. rewrite list_elem_of_singleton. tauto.
    + rewrite !elem_of_app, IH. tauto.
Qed.

Lemma entries_push_all (l : loc) (us : list string) (m : list (string * list loc))
    (e : string * loc) :
  e ∈ entries (foldl (fun m u => map_push u l m) m us)
  <-> e ∈ entries m \/ (e.1 ∈ us /\ e.2 = l).
Proof.
  revert m. induction us as [|u us IH]; intros m.
  - simpl. split; [by left | by intros [?|[?%elem_of_nil _]]].
  - cbn [foldl]. rewrite IH, entries_push, elem_of_cons. destruct e as [a b]. simpl.
    split.
    + intros [[?|[= -> ->]]|[? ?]]; tauto.
    + intros [?|[[->|?] ->]]; tauto.
Qed.

Lemma ids_of_alter (g : Task -> Task) (l : loc) (h : list Task) (es : list (string * loc)) :
  (forall t, t_id (g t) = t_id t) -> ids_of (alter g l h) es = ids_of h es.
Proof.
  intros Hg. induction es as [|e es IH]; [done|].
  rewrite !ids_of_cons, IH, list_lookup_alter.
  case_decide as He; [|done]. subst l.
  destruct (h !! e.2) as [t|]; simpl; [by rewrite Hg | done].
Qed.

Lemma has_id_alter (g : Task -> Task) (l : loc) (h : list Task) (id : Z) (l' : loc) :
  (forall t, t_id (g t) = t_id t) -> has_id (alter g l h) id l' = has_id h id l'.
Proof.
  intros Hg. unfold has_id. rewrite list_lookup_alter.
  case_decide as He; [|done]. subst l.
  destruct (h !! l') as [t|]; simpl; [by rewrite Hg | done].
Qed.

Lemma add_all_id (us : list string) (t : Task) : t_id (add_all us t) = t_id t.
Proof. destruct (add_all_spec us t) as [-> _]. done. Qed.

Section Assignees.

Context {K : Clock}.


(** Adding assignees neither adds a task to the list of all tasks nor
    takes one from it: the ids that [getAllTasksUnique] returns are the
    same before and after, and the task is still found by its id. *)
Theorem task_add_assignee_keeps_ids (reg : Registry) (c : Caller) (id : Z)
    (dept : option string) (mention : Mentionable) (now : Z) (s : Store) (f : Found) :
  isAdminOrManager reg (u_id (user c)) (guild c) = true ->
  findTaskById id s = Some f ->
  let result := task_add_assignee reg c (Some id) dept mention now s in
  (forall i, i ∈ map (fun e => t_id (task e)) (getAllTasksUnique result.2)
             <-> i ∈ map (fun e => t_id (task e)) (getAllTasksUnique s))
  /\ is_Some (findTaskById id result.2).
Proof.
  intros Hpriv Hf result.
  assert (forall i, i ∈ ids_of (heap result.2) (entries (tasks result.2))
                    <-> i ∈ ids_of (heap s) (entries (tasks s))) as Hids.
  { intros i. unfold result, task_add_assignee. rewrite Hpriv.
    cbn [negb findTaskById_opt]. rewrite Hf. cbn [fst snd mutate heap tasks].
    rewrite add_all_heap, add_all_tasks.
    rewrite ids_of_alter by done. rewrite ids_of_alter by apply add_all_id.
    unfold findTaskById in Hf.
    destruct (findTaskById_in_Some _ _ _ _ Hf) as (m1 & ls & m2 & _ & _ & Hid & e2 & He & _).
    assert ((f_userId f, f_task f) ∈ entries (tasks s)) as Hin.
    { rewrite He. apply elem_of_app. right. apply elem_of_cons. by left. }
    unfold ids_of. rewrite !list_elem_of_omap. split.
    - intros (e & He' & Hi). apply entries_push_all in He' as [He'|[_ Hl]].
      + by exists e.
      + exists (f_userId f, f_task f). split; [done|]. simpl. by rewrite <- Hl.
    - intros (e & He' & Hi). exists e. split; [|done].
      apply entries_push_all. by left. }
  split.
  - intros i. rewrite !getAllTasksUnique_firsts, !firsts_ids, Hids. done.
  - unfold findTaskById.
    destruct (findTaskById_in (heap result.2) id (tasks result.2)) as [f'|] eqn:Hf';
      [by eexists|].
    apply findTaskById_in_None in Hf'. exfalso. apply Hf', Hids.
    unfold findTaskById in Hf.
    destruct (findTaskById_in_Some _ _ _ _ Hf) as (m1 & ls & m2 & _ & _ & Hid & e2 & He & _).
    apply (ids_of_has _ _ (f_userId f) (f_task f)); [|done].
    rewrite He. apply elem_of_app. right. apply elem_of_cons. by left.
Qed.

(** ** /task-remove-assignee *)

Lemma drop_all_heap (l : loc) (us : list User) (s : Store) :
  heap (foldl (remove_step l) s us) = alter (drop_all us) l (heap s).
Proof.
  revert s. induction us as [|u us IH]; intros s.
  - simpl. symmetry. by apply alter_fixed.
  - cbn [foldl]. rewrite IH.
    assert (heap (remove_step l s u) = alter (drop_assignee (u_id u)) l (heap s)) as ->.
    { unfold remove_step. cbn [mutate heap tasks].
      destruct (alter (drop_assignee (u_id u)) l (heap s) !! l); [|done].
      by destruct (findIndex _ _). }
    exact (list_alter_alter_eq (drop_all us) (drop_assignee (u_id u)) (heap s) l).
Qed.

Lemma drop_all_spec (us : list User) (t : Task) :
  drop_all us t = set_assignees (assignedTo (drop_all us t)) t
  /\ assignedTo (drop_all us t)
     = List.filter (fun a => negb (bool_decide (a ∈ map u_id us))) (assignedTo t).
Proof.
  revert t. induction us as [|u us IH]; intros t.
  - simpl. split; [by destruct t|]. symmetry. by apply filter_all, Forall_forall.
  - unfold drop_all. cbn [foldl]. fold (drop_all us (drop_assignee (u_id u) t)).
    destruct (IH (drop_assignee (u_id u) t)) as [B1 B2]. split.
    + rewrite B1 at 1. done.
    + rewrite B2. unfold drop_assignee. cbn [assignedTo set_assignees map].
      induction (assignedTo t) as [|a r IHr]; [done|]. cbn [List.filter].
      destruct (String.eqb_spec a (u_id u)) as [->|Hne]; cbn [negb].
      * rewrite bool_decide_eq_true_2 by (apply elem_of_cons; by left). done.
      * cbn [List.filter]. destruct (decide (a ∈ map u_id us)) as [Hin|Hout].
        -- rewrite !bool_decide_eq_true_2; [done | apply elem_of_cons; by right | done].
        -- rewrite !bool_decide_eq_false_2; [by rewrite IHr | | done].
           by intros [?|?]%elem_of_cons.
Qed.

Lemma findIndex_ext {A} (p q : A -> bool) (l : list A) :
  (forall x, p x = q x) -> findIndex p l = findIndex q l.
Proof.
  intros Hpq. induction l as [|x l IH]; simpl; [done|]. by rewrite Hpq, IH.
Qed.

Lemma remove_first_alter (g : Task -> Task) (l : loc) (h : list Task) (id : Z)
    (ls : list loc) :
  (forall t, t_id (g t) = t_id t) ->
  remove_first (alter g l h) id ls = remove_first h id ls.
Proof.
  intros Hg. unfold remove_first.
  rewrite (findIndex_ext (has_id (alter g l h) id) (has_id h id)); [done|].
  intros x. by apply has_id_alter.
Qed.

Lemma drop_assignee_id (u : string) (t : Task) : t_id (drop_assignee u t) = t_id t.
Proof. done. Qed.

(** One turn of the loop of /task-remove-assignee, on the index. *)
Lemma remove_step_tasks (l : loc) (s : Store) (u : User) (t : Task) :
  heap s !! l = Some t ->
  map_get_or_empty (u_id u) (tasks (remove_step l s u))
  = remove_first (heap s) (t_id t) (map_get_or_empty (u_id u) (tasks s))
  /\ forall uid, uid <> u_id u ->
       map_get uid (tasks (remove_step l s u)) = map_get uid (tasks s).
Proof.
  intros Hl. unfold remove_step. cbn [mutate heap tasks].
  rewrite list_lookup_alter_eq, Hl. cbn [fmap option_fmap option_map].
  rewrite drop_assignee_id.
  rewrite (findIndex_ext (has_id (alter (drop_assignee (u_id u)) l (heap s)) (t_id t))
                         (has_id (heap s) (t_id t)))
    by (intros x; by apply has_id_alter).
  unfold remove_first.
  destruct (findIndex (has_id (heap s) (t_id t)) (map_get_or_empty (u_id u) (tasks s)))
    as [idx|] eqn:Hidx; cbn [tasks]; [|done].
  split.
  - unfold map_get_or_empty. rewrite map_delete_at_get.
    unfold map_get_or_empty in Hidx.
    destruct (map_get (u_id u) (tasks s)); [done | by destruct idx].
  - intros uid Hne. by apply map_delete_at_get_ne.
Qed.

Lemma remove_all_tasks (l : loc) (us : list User) (s : Store) (t : Task) :
  heap s !! l = Some t ->
  NoDup (map u_id us) ->
  (forall u, u ∈ us ->
     map_get_or_empty (u_id u) (tasks (foldl (remove_step l) s us))
     = remove_first (heap s) (t_id t) (map_get_or_empty (u_id u) (tasks s)))
  /\ (forall uid, uid ∉ map u_id us ->
        map_get uid (tasks (foldl (remove_step l) s us)) = map_get uid (tasks s)).
Proof.
  revert s t. induction us as [|u us IH]; intros s t Hl Hnd.
  - split; [by intros u ?%elem_of_nil | done].
  - cbn [foldl]. cbn [map] in Hnd. apply NoDup_cons in Hnd as [Hu Hnd].
    destruct (remove_step_tasks l s u t Hl) as [S1 S2].
    assert (heap (remove_step l s u) = alter (drop_assignee (u_id u)) l (heap s)) as Hh.
    { exact (drop_all_heap l [u] s). }
    destruct (IH (remove_step l s u) (drop_assignee (u_id u) t)) as [I1 I2]; [|done|].
    { by rewrite Hh, list_lookup_alter_eq, Hl. }
    rewrite Hh, drop_assignee_id in I1. split.
    + intros v [->|Hv]%elem_of_cons.
      * unfold map_get_or_empty at 1. rewrite (I2 _ Hu). exact S1.
      * rewrite (I1 v Hv), remove_first_alter by done.
        unfold map_get_or_empty at 1. rewrite S2; [done|].
        intros Heq. apply Hu. rewrite <- Heq. by apply list_elem_of_fmap_2.
    + intros uid Hn. cbn [map] in Hn. apply not_elem_of_cons in Hn as [Hn1 Hn2].
      rewrite (I2 _ Hn2). by apply S2.
Qed.

(** /task-remove-assignee by an admin or a manager, for a task that is
    found and users each mentioned once. The mentioned users leave the
    assignees of the task object, the others stay in their order; nothing
    else of the object changes but the log, which gets one entry, and the
    other objects are as before. The collection of every mentioned user
    loses its first entry whose task has the id, when it has one; the
    collections of the other users are as before. *)
Theorem task_remove_assignee_spec (reg : Registry) (c : Caller) (id : Z)
    (mention : Mentionable) (now : Z) (s : Store) (f : Found) (t : Task) :
  isAdminOrManager reg (u_id (user c)) (guild c) = true ->
  findTaskById id s = Some f ->
  heap s !! f_task f = Some t ->
  NoDup (map u_id (safeMentionableArray mention)) ->
  let users := safeMentionableArray mention in
  let result := task_remove_assignee reg c (Some id) mention now s in
  exists t',
    result.1 = Accepted
    /\ heap result.2 !! f_task f = Some t'
    /\ (forall l, l <> f_task f -> heap result.2 !! l = heap s !! l)
    /\ assignedTo t'
       = List.filter (fun a => negb (bool_decide (a ∈ map u_id users))) (assignedTo t)
    /\ t' = push_log (log_entry now ("Assignees removed by " +:+ username (user c)))
                     (set_assignees (assignedTo t') t)
    /\ (forall u, u ∈ users ->
          map_get_or_empty (u_id u) (tasks result.2)
          = remove_first (heap s) (t_id t) (map_get_or_empty (u_id u) (tasks s)))
    /\ (forall uid, uid ∉ map u_id users ->
          map_get uid (tasks result.2) = map_get uid (tasks s)).
Proof.
  intros Hpriv Hf Ht Hnd users result.
  unfold result, task_remove_assignee. rewrite Hpriv. cbn [negb findTaskById_opt].
  rewrite Hf. fold users. cbn [fst snd mutate heap tasks].
  rewrite drop_all_heap.
  destruct (drop_all_spec users t) as [A1 A2].
  destruct (remove_all_tasks (f_task f) users s t Ht Hnd) as [R1 R2].
  exists (push_log (log_entry now ("Assignees removed by " +:+ username (user c)))
                   (drop_all users t)).
  split; [done|]. split.
  { by rewrite !list_lookup_alter_eq, Ht. }
  split.
  { intros l Hl. by rewrite !list_lookup_alter_ne. }
  split; [done|]. split.
  { simpl. by rewrite <- A1. }
  split; [exact R1 | exact R2].
Qed.

End Assignees.

(** ** Saving and restarting *)

Lemma omap_seq_middle {A} (a b c : list A) :
  omap (fun l => (a ++ b ++ c) !! l) (seq (length a) (length b)) = b.
Proof.
  revert a. induction b as [|x b IH]; intros a; [done|].
  change ((x :: b) ++ c) with (x :: (b ++ c)).
  cbn [length seq omap list_omap].
  rewrite list_lookup_middle by done. cbn [mbind option_bind]. f_equal.
  specialize (IH (a ++ [x])). rewrite length_app in IH. simpl in IH.
  rewrite <- app_assoc in IH. simpl in IH.
  by replace (S (length a)) with (length a + 1) by lia.
Qed.

Lemma load_from_serialize (snap : Snapshot) (h0 h' : list Task) :
  map (fun '(uid, ls) => (uid, omap (fun l => ((load_from snap h0).2 ++ h') !! l) ls))
      (load_from snap h0).1
  = snap.
Proof.
  revert h0 h'. induction snap as [|[uid ts] snap IH]; intros h0 h'; [done|].
  cbn [load_from]. rewrite load_list_spec.
  pose proof (IH (h0 ++ ts) h') as IH1.
  destruct (load_from_spec snap (h0 ++ ts)) as (_ & Hh & _).
  destruct (load_from snap (h0 ++ ts)) as [m h2]. cbn [fst snd] in *.
  cbn [map]. rewrite IH1. f_equal. f_equal.
  rewrite Hh, <- !app_assoc. apply omap_seq_middle.
Qed.

Lemma firsts_values (h : list Task) (seen : gset Z) (es : list (string * loc)) :
  firsts h seen es = firsts_of seen (omap (fun e => pair e.1 <$> h !! e.2) es).
Proof.
  revert seen. induction es as [|[uid l] es IH]; intros seen; [done|].
  cbn [firsts omap list_omap]. cbn [fst snd].
  destruct (h !! l) as [t|]; cbn; [|apply IH].
  destruct (decide (t_id t ∈ seen)); [apply IH | by rewrite IH].
Qed.

Lemma values_serialize (s : Store) :
  omap (fun e => pair e.1 <$> heap s !! e.2) (entries (tasks s)) = values (serialize s).
Proof.
  unfold serialize, values, entries. induction (tasks s) as [|[uid ls] m IH]; [done|].
  cbn [flat_map map]. rewrite omap_app, IH. f_equal.
  induction ls as [|l ls IHl]; [done|]. cbn [map omap list_omap]. cbn [fst snd].
  destruct (heap s !! l); cbn; by rewrite IHl.
Qed.

(** What /task-list, /export and the search see depends on what is saved
    only. *)
Lemma getAllTasksUnique_values (s : Store) :
  getAllTasksUnique s = firsts_of ∅ (values (serialize s)).
Proof. by rewrite getAllTasksUnique_firsts, firsts_values, values_serialize. Qed.

Lemma serialize_load (snap : Snapshot) : serialize (load snap) = snap.
Proof.
  unfold load, serialize.
  pose proof (load_from_serialize snap [] []) as H.
  destruct (load_from snap []) as [m h]. cbn [fst snd heap tasks] in *.
  by rewrite app_nil_r in H.
Qed.

(** Saving and loading are inverse to each other on what is saved. For an
    index with one collection for each key, a restart followed by a save
    writes the file that was there, with the same collections in the same
    order; the list of all tasks is the same before and after the restart;
    and after it no task object is shared between two entries. *)
Theorem save_restart_round_trip (s : Store) :
  NoDup (tasks s).*1 ->
  serialize (load (serialize s)) = serialize s
  /\ serialize (reload s) = serialize s
  /\ (tasks (reload s)).*1 = (tasks s).*1
  /\ getAllTasksUnique (reload s) = getAllTasksUnique s
  /\ unshared (reload s).
Proof.
  intros _. split; [apply serialize_load|]. split; [apply serialize_load|].
  split; [apply reload_keys|]. split; [|apply reload_unshared].
  rewrite !getAllTasksUnique_values. unfold reload. by rewrite serialize_load.
Qed.

(** ** Lookup by id and the list of all tasks *)

(** [findTaskById] returns nothing exactly for the ids that no task of the
    index has; otherwise it returns the first entry in scan order whose
    task has the id, with the reference to the task object itself, and this
    is the entry [getAllTasksUnique] lists for the id. *)
Theorem findTaskById_first_entry (id : Z) (s : Store) :
  (findTaskById id s = None <-> id ∉ ids_of (heap s) (entries (tasks s)))
  /\ forall f, findTaskById id s = Some f ->
       exists t e1 e2,
         heap s !! f_task f = Some t
         /\ t_id t = id
         /\ entries (tasks s) = e1 ++ (f_userId f, f_task f) :: e2
         /\ (id ∉ ids_of (heap s) e1)
         /\ {| task := t; userId := f_userId f |} ∈ getAllTasksUnique s.
Proof.
  split.
  - split; [apply findTaskById_in_None | apply findTaskById_in_absent].
  - intros f Hf. pose proof Hf as Hf0. unfold findTaskById in Hf.
    destruct (findTaskById_in_Some _ _ _ _ Hf) as (m1 & ls & m2 & _ & _ & Hid & e2 & He & Hn).
    unfold has_id in Hid. destruct (heap s !! f_task f) as [t|] eqn:Ht; [|done].
    apply Z.eqb_eq in Hid.
    exists t, (entries m1 ++ map (pair (f_userId f)) (take (f_index f) ls)), e2.
    split; [done|]. split; [done|]. split; [done|]. split; [done|].
    assert (id ∈ map (fun e => t_id (task e)) (getAllTasksUnique s)) as Hin.
    { rewrite getAllTasksUnique_firsts, firsts_ids. split; [|apply not_elem_of_empty].
      rewrite He, ids_of_app, ids_of_cons. simpl. rewrite Ht.
      apply elem_of_app. right. apply elem_of_cons. by left. }
    apply list_elem_of_fmap in Hin as (e & Heid & Hin).
    destruct (findTaskById_of_unique s e Hin) as (f' & Hf' & Hu & Ht').
    rewrite <- Heid, Hf0 in Hf'. injection Hf' as <-.
    rewrite Ht in Ht'. injection Ht' as Hte.
    destruct e as [te ue]. simpl in *. by subst.
Qed.

(** ** /task-create and the lookup by id *)

Lemma has_id_live (h : list Task) (t : Task) (id : Z) (l : loc) :
  l < length h -> has_id (h ++ [t]) id l = has_id h id l.
Proof. intros Hl. unfold has_id. by rewrite lookup_app_l. Qed.

Lemma has_id_new (h : list Task) (t : Task) (id : Z) :
  has_id (h ++ [t]) id (length h) = (t_id t =? id)%Z.
Proof. unfold has_id. by rewrite list_lookup_middle. Qed.

Lemma findIndex_live (h : list Task) (t : Task) (id : Z) (ls : list loc) :
  Forall (fun l => l < length h) ls ->
  findIndex (has_id (h ++ [t]) id) ls = findIndex (has_id h id) ls.
Proof.
  induction 1 as [|l ls Hl _ IH]; simpl; [done|]. by rewrite has_id_live, IH.
Qed.

Lemma findIndex_snoc {A} (p : A -> bool) (l : list A) (x : A) :
  findIndex p (l ++ [x])
  = match findIndex p l with
    | Some i => Some i
    | None => if p x then Some (length l) else None
    end.
Proof.
  induction l as [|y l IH]; simpl; [by destruct (p x)|].
  destruct (p y); [done|]. rewrite IH.
  destruct (findIndex p l); [done|]. by destruct (p x).
Qed.

Lemma findIndex_lt {A} (p : A -> bool) (l : list A) (i : nat) :
  findIndex p l = Some i -> i < length l.
Proof.
  intros H. destruct (findIndex_Some _ _ _ H) as (l1 & x & l2 & -> & <- & _).
  rewrite length_app. simpl. lia.
Qed.

Lemma entries_live_cons (h : list Task) (k : string) (ls : list loc)
    (m : list (string * list loc)) :
  Forall (fun e => e.2 < length h) (entries ((k, ls) :: m)) ->
  Forall (fun l => l < length h) ls /\ Forall (fun e => e.2 < length h) (entries m).
Proof.
  rewrite entries_cons. intros [H1 H2]%Forall_app. split; [|done].
  apply Forall_fmap in H1. eapply Forall_impl; [exact H1 | done].
Qed.

Lemma find_live (h : list Task) (t : Task) (id : Z) (m : list (string * list loc)) :
  Forall (fun e => e.2 < length h) (entries m) ->
  findTaskById_in (h ++ [t]) id m = findTaskById_in h id m.
Proof.
  induction m as [|[k ls] m IH]; intros Hlive; simpl; [done|].
  apply entries_live_cons in Hlive as [Hls Hm].
  rewrite (findIndex_live _ _ _ _ Hls), IH by done. done.
Qed.

Lemma find_after_push_other (h : list Task) (t : Task) (uid : string) (id : Z)
    (m : list (string * list loc)) :
  Forall (fun e => e.2 < length h) (entries m) ->
  id <> t_id t ->
  findTaskById_in (h ++ [t]) id (map_push uid (length h) m) = findTaskById_in h id m.
Proof.
  intros Hlive Hne.
  assert (has_id (h ++ [t]) id (length h) = false) as Hnew.
  { rewrite has_id_new. apply Z.eqb_neq. congruence. }
  induction m as [|[k ls] m IH]; simpl.
  - by rewrite Hnew.
  - apply entries_live_cons in Hlive as [Hls Hm].
    destruct (String.eqb_spec k uid) as [->|Hk]; simpl.
    + rewrite findIndex_snoc, (findIndex_live _ _ _ _ Hls), Hnew.
      destruct (findIndex (has_id h id) ls) as [idx|] eqn:Hidx.
      * apply findIndex_lt in Hidx. by rewrite lookup_app_l.
      * by apply find_live.
    + rewrite (findIndex_live _ _ _ _ Hls). by rewrite IH.
Qed.

Lemma find_after_push_new (h : list Task) (t : Task) (uid : string)
    (m : list (string * list loc)) :
  Forall (fun e => e.2 < length h) (entries m) ->
  findTaskById_in h (t_id t) m = None ->
  findTaskById_in (h ++ [t]) (t_id t) (map_push uid (length h) m)
  = Some {| f_userId := uid; f_index := length (map_get_or_empty uid m);
            f_task := length h |}.
Proof.
  intros Hlive Hnone.
  assert (has_id (h ++ [t]) (t_id t) (length h) = true) as Hnew.
  { rewrite has_id_new. apply Z.eqb_refl. }
  unfold map_get_or_empty.
  induction m as [|[k ls] m IH]; simpl.
  - by rewrite Hnew.
  - apply entries_live_cons in Hlive as [Hls Hm]. simpl in Hnone.
    destruct (findIndex (has_id h (t_id t)) ls) as [idx|] eqn:Hidx.
    { destruct (findIndex_Some _ _ _ Hidx) as (l1 & x & l2 & -> & <- & _).
      by rewrite list_lookup_middle in Hnone. }
    destruct (String.eqb_spec k uid) as [->|Hk]; simpl.
    + rewrite findIndex_snoc, (findIndex_live _ _ _ _ Hls), Hidx, Hnew.
      by rewrite list_lookup_middle.
    + rewrite (findIndex_live _ _ _ _ Hls), Hidx. by apply IH.
Qed.

Section CreateLookup.

Context {K : Clock}.

(** /task-create stores one new task object, Pending, assigned to its
    creator and with the clock reading as id, at the end of the creator's
    collection. A lookup by any other id gives what it gave before; a
    lookup by the new id finds the new task, when no stored task had that
    id. *)
Theorem task_create_then_find (c : Caller) (ttl : string) (desc dueStr : option string)
    (now : Z) (s : Store) :
  Forall (fun e => e.2 < length (heap s)) (entries (tasks s)) ->
  let result := task_create c ttl desc dueStr now s in
  let mine := map_get_or_empty (u_id (user c)) (tasks s) in
  exists t,
    result.1 = Accepted
    /\ heap result.2 = heap s ++ [t]
    /\ t_id t = now /\ title t = ttl /\ status t = "Pending"
    /\ assignedTo t = [u_id (user c)] /\ due t = parseDue dueStr
    /\ map_get (u_id (user c)) (tasks result.2) = Some (mine ++ [length (heap s)])
    /\ (forall uid, uid <> u_id (user c) ->
          map_get uid (tasks result.2) = map_get uid (tasks s))
    /\ (forall id, id <> now -> findTaskById id result.2 = findTaskById id s)
    /\ (findTaskById now s = None ->
        findTaskById now result.2
        = Some {| f_userId := u_id (user c); f_index := length mine;
                  f_task := length (heap s) |}).
Proof.
  intros Hlive result mine. unfold result, task_create, alloc. cbn [fst snd heap tasks].
  eexists. split; [done|]. split; [done|]. cbn [t_id title status assignedTo due].
  repeat (split; [done|]). split; [apply map_push_get|]. split.
  { intros uid Hne. apply map_push_get_ne. congruence. }
  unfold findTaskById. cbn [heap tasks]. split.
  - intros id Hne. by apply find_after_push_other.
  - intros Hnone.
    match goal with
    | |- findTaskById_in (_ ++ [?t]) _ _ = _ =>
        exact (find_after_push_new (heap s) t (u_id (user c)) (tasks s) Hlive Hnone)
    end.
Qed.

End CreateLookup.

(** ** Adding an assignee and taking the assignee off again *)

Lemma entries_push_delete (u : string) (l : loc) (m : list (string * list loc)) :
  entries (map_delete_at u (length (map_get_or_empty u m)) (map_push u l m)) = entries m.
Proof.
  unfold map_get_or_empty. induction m as [|[k ls] m IH]; simpl.
  - by rewrite String.eqb_refl.
  - destruct (String.eqb_spec k u) as [->|Hne]; simpl.
    + rewrite String.eqb_refl. rewrite delete_take_drop, take_app_length.
      rewrite drop_ge by (rewrite length_app; simpl; lia).
      by rewrite app_nil_r.
    + destruct (String.eqb_spec k u); [done|]. rewrite !entries_cons. by rewrite IH.
Qed.

Section AddRemove.

Context {K : Clock}.

(** Who is added to a task by /task-add-assignee and then taken off it by
    /task-remove-assignee leaves the index and the assignees of the task
    as they were, with two more entries in the log of the task: provided
    the user was no assignee, held no task of that id, and the id is the id
    of one task object only. *)
Theorem add_then_remove_assignee (reg : Registry) (c : Caller) (id : Z) (u : User)
    (now1 now2 : Z) (s : Store) (f : Found) (t : Task) :
  isAdminOrManager reg (u_id (user c)) (guild c) = true ->
  findTaskById id s = Some f ->
  heap s !! f_task f = Some t ->
  (forall e, e ∈ entries (tasks s) -> has_id (heap s) id e.2 = true -> e.2 = f_task f) ->
  u_id u ∉ assignedTo t ->
  findIndex (has_id (heap s) id) (map_get_or_empty (u_id u) (tasks s)) = None ->
  let s1 := (task_add_assignee reg c (Some id) None (OneMention u) now1 s).2 in
  let s2 := (task_remove_assignee reg c (Some id) (OneMention u) now2 s1).2 in
  entries (tasks s2) = entries (tasks s)
  /\ (forall l, l <> f_task f -> heap s2 !! l = heap s !! l)
  /\ exists t2,
       heap s2 !! f_task f = Some t2
       /\ assignedTo t2 = assignedTo t
       /\ status t2 = status t /\ due t2 = due t /\ t_id t2 = t_id t
       /\ logs t2
          = logs t ++ [log_entry now1 ("Assignees added by " +:+ username (user c));
                       log_entry now2 ("Assignees removed by " +:+ username (user c))].
Proof.
  intros Hpriv Hf Ht Huniq Hnew Hnone s1 s2.
  set (l := f_task f) in *.
  assert (t_id t = id) as Hid.
  { unfold findTaskById in Hf.
    destruct (findTaskById_in_Some _ _ _ _ Hf) as (m1 & ls & m2 & _ & _ & Hh & _).
    fold l in Hh. unfold has_id in Hh. rewrite Ht in Hh. by apply Z.eqb_eq. }
  (* the store after the addition *)
  set (e1 := log_entry now1 ("Assignees added by " +:+ username (user c))).
  set (e2 := log_entry now2 ("Assignees removed by " +:+ username (user c))).
  set (t1 := push_log e1 (set_assignees (assignedTo t ++ [u_id u]) t)).
  assert (s1 = {| heap := alter (fun _ => t1) l (heap s);
                  tasks := map_push (u_id u) l (tasks s) |}) as Hs1.
  { unfold s1, task_add_assignee. rewrite Hpriv. cbn [negb findTaskById_opt].
    rewrite Hf. fold l. cbn [fst snd]. unfold named_ids. cbn [truthyS].
    cbn [safeMentionableArray map app foldl]. unfold add_step, mutate.
    cbn [heap tasks]. f_equal. rewrite list_alter_alter_eq.
    apply list_alter_ext; [|done]. intros x Hx. rewrite Ht in Hx. injection Hx as <-.
    cbn. unfold add_assignee. by rewrite bool_decide_eq_false_2. }
  assert (forall l', has_id (heap s1) id l' = has_id (heap s) id l') as Hhas.
  { intros l'. rewrite Hs1. cbn [heap]. unfold has_id. rewrite list_lookup_alter.
    case_decide as Hl; [|done]. subst l'. rewrite Ht. simpl. by rewrite <- Hid. }
  (* the lookup after the addition finds the same object *)
  assert (exists f1, findTaskById id s1 = Some f1 /\ f_task f1 = l) as (f1 & Hf1 & Hl1).
  { unfold findTaskById.
    destruct (findTaskById_in (heap s1) id (tasks s1)) as [f1|] eqn:Hf1.
    - exists f1. split; [done|].
      destruct (findTaskById_in_Some _ _ _ _ Hf1) as (m1 & ls & m2 & _ & _ & Hh & e2' & He & _).
      assert ((f_userId f1, f_task f1) ∈ entries (tasks s1)) as Hin.
      { rewrite He. apply elem_of_app. right. apply elem_of_cons. by left. }
      rewrite Hs1 in Hin. cbn [tasks] in Hin.
      apply entries_push in Hin as [Hin|[= _ ->]]; [|done].
      apply (Huniq _ Hin). simpl. by rewrite <- Hhas.
    - exfalso. apply findTaskById_in_None in Hf1. apply Hf1.
      apply (ids_of_has _ _ (u_id u) l).
      + rewrite Hs1. cbn [tasks]. apply entries_push. by right.
      + rewrite Hhas. unfold has_id. rewrite Ht. by apply Z.eqb_eq. }
  (* the removal *)
  assert (heap s1 !! l = Some t1) as Ht1.
  { rewrite Hs1. cbn [heap]. by rewrite list_lookup_alter_eq, Ht. }
  set (t2 := push_log e2 (drop_assignee (u_id u) t1)).
  assert (s2 = {| heap := alter (fun _ => t2) l (heap s1);
                  tasks := map_delete_at (u_id u)
                             (length (map_get_or_empty (u_id u) (tasks s)))
                             (tasks s1) |}) as Hs2.
  { unfold s2, task_remove_assignee. rewrite Hpriv. cbn [negb findTaskById_opt].
    rewrite Hf1, Hl1. cbn [fst snd safeMentionableArray foldl].
    unfold remove_step, mutate. cbn [heap tasks].
    rewrite list_lookup_alter_eq, Ht1. cbn [fmap option_fmap option_map].
    rewrite drop_assignee_id.
    assert (t_id t1 = id) as -> by (by rewrite <- Hid).
    rewrite (findIndex_ext (has_id (alter (drop_assignee (u_id u)) l (heap s1)) id)
                           (has_id (heap s) id)).
    2:{ intros x. by rewrite has_id_alter, Hhas. }
    assert (map_get_or_empty (u_id u) (tasks s1)
            = map_get_or_empty (u_id u) (tasks s) ++ [l]) as Hmine.
    { rewrite Hs1. cbn [tasks]. unfold map_get_or_empty at 1. by rewrite map_push_get. }
    rewrite Hmine, findIndex_snoc, Hnone.
    assert (has_id (heap s) id l = true) as ->.
    { unfold has_id. rewrite Ht. by apply Z.eqb_eq. }
    cbn [heap tasks]. f_equal. rewrite list_alter_alter_eq.
    apply list_alter_ext; [|done]. intros x Hx. rewrite Ht1 in Hx. by injection Hx as <-. }
  rewrite Hs2. cbn [heap tasks]. split.
  - rewrite Hs1. cbn [tasks]. apply entries_push_delete.
  - split.
    + intros l' Hl'. rewrite list_lookup_alter_ne by done.
      rewrite Hs1. cbn [heap]. by rewrite list_lookup_alter_ne.
    + exists t2. split; [by rewrite list_lookup_alter_eq, Ht1|].
      unfold t2, t1. cbn. split.
      { by apply filter_other_snoc. }
      split; [done|]. split; [done|]. split; [done|]. by rewrite <- app_assoc.
Qed.

End AddRemove.

(** ** The search with an empty query *)

Lemma prefix_empty (s : string) : String.prefix EmptyString s = true.
Proof. by destruct s. Qed.

Lemma includes_empty (s : string) : includes EmptyString s = true.
Proof. destruct s; [done|]. by rewrite includes_cons, prefix_empty. Qed.

Lemma toLowerCase_empty (s : string) :
  String.eqb (toLowerCase s) EmptyString = String.eqb s EmptyString.
Proof. by destruct s. Qed.

Lemma score_empty (t : Task) :
  score EmptyString t = if String.eqb (title t) EmptyString then 170%Z else 70%Z.
Proof.
  unfold score. rewrite !includes_empty, toLowerCase_empty.
  by destruct (String.eqb (title t) "").
Qed.

(** A list in falling order whose keys take two values is the elements of
    the larger key followed by those of the smaller. *)
Lemma sorted_two_keys {A} (key : A -> Z) (a b : Z) (l : list A) :
  (b < a)%Z ->
  StronglySorted (fun x y => (key y <= key x)%Z) l ->
  Forall (fun x => key x = a \/ key x = b) l ->
  l = List.filter (fun x => (key x =? a)%Z) l ++ List.filter (fun x => (key x =? b)%Z) l.
Proof.
  intros Hab Hs. induction Hs as [|x l Hl IH Hx]; intros Hk; [done|].
  apply Forall_cons in Hk as [Hkx Hk]. cbn [List.filter].
  destruct Hkx as [Hxa|Hxb].
  - rewrite Hxa, Z.eqb_refl, (proj2 (Z.eqb_neq a b)) by lia. simpl.
    f_equal. by apply IH.
  - rewrite Hxb, Z.eqb_refl, (proj2 (Z.eqb_neq b a)) by lia.
    assert (Forall (fun y => key y = b) l) as Hall.
    { rewrite Forall_forall in Hx, Hk |- *. intros y Hy.
      destruct (Hk y Hy) as [Hya|Hyb]; [|done]. specialize (Hx y Hy). lia. }
    rewrite (filter_none (fun y => (key y =? a)%Z)), (filter_all (fun y => (key y =? b)%Z)).
    + done.
    + eapply Forall_impl; [exact Hall|]. simpl. intros y ->. apply Z.eqb_refl.
    + eapply Forall_impl; [exact Hall|]. simpl. intros y ->. apply Z.eqb_neq. lia.
Qed.

Lemma filter_ext_in {A} (p q : A -> bool) (l : list A) :
  (forall x, p x = q x) -> List.filter p l = List.filter q l.
Proof. intros H. induction l as [|x l IH]; simpl; [done|]. by rewrite H, IH. Qed.

(** The search with an empty query leaves no task out: every title and
    every description contains the empty text, so every task of the list of
    all tasks has a positive score, and the result is the first [limit]
    of the tasks with an empty title followed by the others, each group in
    scan order. *)
Theorem fuzzySearchTasks_empty_query (limit : Z) (s : Store) :
  (0 <= limit)%Z ->
  let all := getAllTasksUnique s in
  fuzzySearchTasks EmptyString limit s
  = take (Z.to_nat limit)
      (List.filter (fun e => String.eqb (title (task e)) EmptyString) all
       ++ List.filter (fun e => negb (String.eqb (title (task e)) EmptyString)) all)
  /\ length (fuzzySearchTasks EmptyString limit s)
     = Nat.min (Z.to_nat limit) (length all).
Proof.
  intros Hlimit all.
  set (key := fun e : Tagged => score "" (task e)).
  assert (fuzzySearchTasks "" limit s = take (Z.to_nat limit) (sort_by (falling key) all))
    as Hsearch.
  { rewrite fuzzySearchTasks_unfold. change (toLowerCase "") with "". fold key.
    rewrite filter_all.
    - unfold slice0. by rewrite (proj2 (Z.ltb_ge _ _)) by lia.
    - apply Forall_forall. intros e _. unfold key. rewrite score_empty.
      by destruct (String.eqb (title (task e)) ""). }
  split.
  - rewrite Hsearch. f_equal.
    rewrite (sorted_two_keys key 170 70 (sort_by (falling key) all)); [|lia| |].
    + rewrite !sort_by_stable. f_equal; apply filter_ext_in; intros e; unfold key;
        rewrite score_empty; by destruct (String.eqb (title (task e)) "").
    + apply sort_by_sorted.
    + apply Forall_forall. intros e _. unfold key. rewrite score_empty.
      destruct (String.eqb (title (task e)) ""); [by left | by right].
  - rewrite Hsearch, length_take. by rewrite (Permutation_length (sort_by_perm key all)).
Qed.

(** ** Reminder windows: case and white space *)

Lemma toLowerCase_idem (s : string) : toLowerCase (toLowerCase s) = toLowerCase s.
Proof.
  induction s as [|c s IH]; simpl; [done|]. rewrite IH. f_equal.
  destruct c as [[] [] [] [] [] [] [] []]; reflexivity.
Qed.

Lemma toLowerCase_trimEnd (s : string) :
  toLowerCase (trimEnd s) = trimEnd (toLowerCase s).
Proof.
  induction s as [|c s IH]; simpl; [done|]. rewrite <- IH, is_space_lower.
  destruct (trimEnd s); simpl; [by destruct (is_space c) | done].
Qed.

Lemma normalize_idem (s : string) : normalize (normalize s) = normalize s.
Proof.
  unfold normalize, trim.
  rewrite <- toLowerCase_trimStart, <- toLowerCase_trimEnd.
  fold (trim (trimEnd (trimStart s))). fold (trim s).
  by rewrite trim_idem, toLowerCase_idem.
Qed.

(** Letter case and the white space around a window do not matter: a
    window text reads as its trimmed lower-case form does, when that form
    is not empty. *)
Theorem parseWindowToMinutes_normalized (s : string) :
  normalize s <> EmptyString ->
  parseWindowToMinutes s = parseWindowToMinutes (normalize s).
Proof.
  intros Hn. unfold parseWindowToMinutes. rewrite normalize_idem.
  rewrite (proj2 (String.eqb_neq _ _) Hn).
  destruct (String.eqb_spec s "") as [->|_]; [done | reflexivity].
Qed.

(** ** Backups: what a write may delete *)

Lemma filter_length_perm {A} (p : A -> bool) (l l' : list A) :
  l ≡ₚ l' -> length (List.filter p l) = length (List.filter p l').
Proof.
  induction 1 as [|x l l' _ IH|x y l|l1 l2 l3 _ IH1 _ IH2]; simpl;
    [done | destruct (p x); simpl; by rewrite IH
     | destruct (p x), (p y); done | congruence].
Qed.

Lemma filter_swap {A} (p q : A -> bool) (l : list A) :
  List.filter p (List.filter q l) = List.filter q (List.filter p l).
Proof.
  induction l as [|x l IH]; simpl; [done|].
  destruct (q x) eqn:Hq, (p x) eqn:Hp; simpl; rewrite ?Hq, ?Hp, IH; done.
Qed.

Lemma filter_not_take (m : nat) (l : list string) :
  NoDup l ->
  List.filter (fun f => negb (bool_decide (f ∈ take m l))) l = drop m l.
Proof.
  intros Hnd.
  transitivity (List.filter (fun f => negb (bool_decide (f ∈ take m l)))
                            (take m l ++ drop m l)); [by rewrite take_drop|].
  rewrite List.filter_app.
  rewrite <- (take_drop m l) in Hnd. apply NoDup_app in Hnd as (_ & Hdisj & _).
  rewrite filter_none, filter_all; [done| |].
  - apply Forall_forall. intros x Hx. rewrite bool_decide_eq_false_2; [done|].
    intros Hin. by apply (Hdisj x Hin).
  - apply Forall_forall. intros x Hx. by rewrite bool_decide_eq_true_2.
Qed.

Lemma NoDup_List_filter {A} (p : A -> bool) (l : list A) :
  NoDup l -> NoDup (List.filter p l).
Proof.
  induction 1 as [|x l Hx Hl IH]; simpl; [constructor|].
  destruct (p x); [|done]. constructor; [|done].
  by intros [? _]%elem_of_List_filter.
Qed.

Section BackupBound.

Context {K : Clock}.

(** One write and its clean-up, whatever the names in the backup
    directory. The files that are not backups of the written file are left
    as they are, in their order; no file appears but the new backup; and
    of the [found] backups of the file that the directory holds once the
    new one is written, [keep] are left when there are more than [keep],
    for [keep] the retention in force. With a negative retention none is
    left, the backup just written included. *)
Theorem backupFile_keeps_and_bounds (config : Config) (base : string) (now : Z)
    (dir : list string) :
  NoDup dir ->
  let dest := backup_name base now in
  let after := backupFile config base now dir in
  let found := length (List.filter (is_backup base) dir)
               + (if bool_decide (dest ∈ dir) then 0 else 1) in
  List.filter (fun f => negb (is_backup base f)) after
  = List.filter (fun f => negb (is_backup base f)) dir
  /\ (forall f, f ∈ after -> f ∈ dir \/ f = dest)
  /\ NoDup after
  /\ Z.of_nat (length (List.filter (is_backup base) after))
     = Z.min (Z.of_nat found) (Z.max 0 (keep_count config)).
Proof.
  intros Hnd dest after found.
  set (dir1 := if bool_decide (dest ∈ dir) then dir else dir ++ [dest]).
  assert (NoDup dir1) as Hnd1.
  { unfold dir1. case_bool_decide as Hd; [done|].
    apply NoDup_app. split; [done|]. split; [|apply NoDup_singleton].
    by intros x Hx ->%list_elem_of_singleton. }
  assert (List.filter (fun f => negb (is_backup base f)) dir1
          = List.filter (fun f => negb (is_backup base f)) dir) as Hnb.
  { unfold dir1. case_bool_decide; [done|]. rewrite List.filter_app. simpl.
    unfold dest. rewrite backup_name_is_backup. simpl. apply app_nil_r. }
  assert (forall f, f ∈ dir1 -> f ∈ dir \/ f = dest) as Hsub.
  { intros f. unfold dir1. case_bool_decide; [by left|].
    rewrite elem_of_app, list_elem_of_singleton. done. }
  assert (length (List.filter (is_backup base) dir1) = found) as Hlen.
  { unfold dir1, found. case_bool_decide; [lia|]. rewrite List.filter_app, length_app.
    simpl. unfold dest. by rewrite backup_name_is_backup. }
  unfold after, backupFile. fold dest. fold dir1. rewrite Hlen.
  set (files := List.filter (is_backup base) dir1) in *.
  destruct (Z.ltb_spec (keep_count config) (Z.of_nat found)) as [Hlt|Hge].
  2:{ split; [done|]. split; [done|]. split; [done|]. fold files. lia. }
  unfold slice0. rewrite (proj2 (Z.ltb_ge _ _)) by lia.
  set (m := Z.to_nat (Z.of_nat found - keep_count config)).
  set (remove := take m (string_sort files)).
  assert (forall f, f ∈ remove -> is_backup base f = true) as Hrem.
  { intros f Hf. apply (subseteq_take m) in Hf. rewrite string_sort_perm in Hf.
    by apply elem_of_List_filter in Hf as [_ ?]. }
  split; [|split; [|split]].
  - rewrite <- Hnb. apply filter_filter_keep, Forall_forall. intros f _ Hf.
    rewrite bool_decide_eq_false_2; [done|]. intros Hb%Hrem.
    by rewrite Hb in Hf.
  - intros f [Hf _]%elem_of_List_filter. by apply Hsub.
  - by apply NoDup_List_filter.
  - rewrite filter_swap. fold files.
    rewrite (filter_length_perm _ files (string_sort files))
      by (symmetry; apply string_sort_perm).
    unfold remove. rewrite filter_not_take.
    + rewrite length_drop, (Permutation_length (string_sort_perm files)), Hlen.
      unfold m. lia.
    + rewrite string_sort_perm. by apply NoDup_List_filter.
Qed.

End BackupBound.

(** ** Start-up, then the reminder job *)

Section StartUpThenJob.

Context {K : Clock}.

(** A task that the start-up pass finds past its due date is Overdue
    afterwards, and Overdue is not Done: the first run of the reminder job
    still sends the overdue notice for it, unless it was sent before the
    restart, and leaves the status as the start-up pass set it. *)
Theorem overdue_at_startup_is_reminded (config : Config) (now now' d : Z) (s : Store)
    (uid : string) (l : loc) (t : Task) (txt : string) :
  (uid, l) ∈ entries (tasks s) -> heap s !! l = Some t ->
  due t = Some txt -> txt <> EmptyString -> status t <> "Done" ->
  Date_parse txt = Some d -> (d < now)%Z -> (now <= now')%Z ->
  let s1 := (on_ready now s).1 in
  let r := scheduleReminders config now' s1 in
  exists t1 t',
    heap s1 !! l = Some t1 /\ status t1 = "Overdue"
    /\ heap r.1 !! l = Some t' /\ status t' = "Overdue"
    /\ "overdue" ∈ remindersSent t'
    /\ ("overdue" ∈ remindersSent t \/ "overdue" ∈ keys_sent l r.2).
Proof.
  intros He Hl Hdue Htxt Hst Hd Hlt Hle s1 r.
  assert (l ∈ (entries (tasks s)).*2) as Hin.
  { apply list_elem_of_fmap. by exists (uid, l). }
  assert (heap s1 !! l = Some (mark_overdue now t)) as Hl1.
  { unfold s1. rewrite on_ready_lookup, decide_True by done. by rewrite Hl. }
  assert (status (mark_overdue now t) = "Overdue"
          /\ due (mark_overdue now t) = Some txt
          /\ remindersSent (mark_overdue now t) = remindersSent t) as (Hs1 & Hd1 & Hr1).
  { unfold mark_overdue. destruct (is_overdue now t) eqn:Ho; [done|].
    split; [|done]. destruct (String.eqb_spec (status t) "Overdue") as [?|Hno]; [done|].
    exfalso. apply not_true_iff_false in Ho. apply Ho. apply is_overdue_spec.
    split; [by exists txt, d | done]. }
  assert ((uid, l) ∈ entries (tasks s1)) as He1.
  { unfold s1. by rewrite (proj2 (on_ready_heap now s)). }
  assert (once_each (heap s1) (heap s1) []) as H0.
  { intros l' t0 Hl'. exists t0. unfold keys_sent. simpl. rewrite app_nil_r.
    repeat split; [done | constructor | by intros x ?%elem_of_nil]. }
  pose proof (scheduleReminders_once config now' (heap s1) s1 [] H0) as Honce.
  destruct (Honce l _ Hl1) as (t' & Ht' & Hrs & _). simpl in Hrs. fold r in Ht', Hrs.
  destruct (scheduleReminders_inv config now' (fun _ _ => True) s1) as (_ & _ & Hm & _).
  { intros t0. by apply Forall_forall. }
  { done. }
  destruct (Hm l _ Hl1) as (t2 & Ht2 & Hmark). fold r in Ht2.
  assert (t2 = t') as -> by congruence.
  destruct Hmark as (_ & _ & _ & _ & Hst' & _).
  exists (mark_overdue now t), t'. split; [done|]. split; [done|]. split; [done|].
  split; [congruence|].
  assert ("overdue" ∈ remindersSent t') as Hov.
  { unfold r, scheduleReminders in *. rewrite foldl_locs in *.
    destruct (scan_loop_complete now' d (windows_of config) txt "overdue" None l
                (entries (tasks s1)).*2 s1 [] (mark_overdue now t)) as (t3 & Ht3 & Hk3);
      try done.
    - left. split; [lia | done].
    - by rewrite Hs1.
    - right. apply list_elem_of_fmap. by exists (uid, l).
    - congruence. }
  split; [done|]. rewrite Hrs, Hr1 in Hov. by apply elem_of_app in Hov.
Qed.

End StartUpThenJob.

(** * Worked examples

    The general results at concrete inputs, with the calendar of the
    scenarios for [Date]. *)

Import Scenario.

(** The due text of an unreadable date. *)
Example parseDue_junk : parseDue (Some "tomorrow") = None.
Proof. reflexivity. Qed.

Example parseDue_iso :
  parseDue (Some due_1000) = Some due_1000.
Proof. reflexivity. Qed.

(** *** One entry for a task of three assignees *)

(** A task assigned to dave, bob and carol is listed once, under dave,
    whose collection is scanned first. *)
Example unique_of_three :
  let s :=
    (task_assign registry (as_user alice) "Ship release" None (Some due_1000)
       (Some "ops") (OneMention dave) at_0900 empty_store).2 in
  map fst (tasks s) = [u_id dave; u_id bob; u_id carol]
  /\ map (fun e => (t_id (task e), userId e)) (getAllTasksUnique s)
     = [(at_0900, u_id dave)].
Proof. vm_compute. by split. Qed.

(** *** Reminder windows *)



(** *** The reminder job across a restart *)

(** The example of the specification: a task due in 50 minutes, with the
    window "1h", gets one reminder, which is recorded, and a second run
    before the due time sends nothing. *)
Example reminder_once_while_running :
  let assigned :=
    (task_assign registry (as_user alice) "Ship release"
       None (Some due_1000) (Some "ops") NoMention at_0900 empty_store).2 in
  let first := scheduleReminders one_hour at_0910 assigned in
  let second := scheduleReminders one_hour at_0915 first.1 in
  length (batches_for at_0900 "1h" first.2) = 1
  /\ map remindersSent (heap first.1) = [["1h"]]
  /\ second.2 = [].
Proof. vm_compute. repeat split. Qed.

(** C1 at its failing input. A task assigned to bob and carol is one shared
    object while the process runs and two separate objects after a save and
    a restart; the first run of the job after the restart, 50 minutes
    before the due time, then sends the "1h" batch twice for the one task,
    each time to both assignees. *)
Theorem reminder_repeats_after_restart :
  let assigned :=
    (task_assign registry (as_user alice) "Ship release"
       None (Some due_1000) (Some "ops") NoMention at_0900 empty_store).2 in
  let restarted := reload assigned in
  let trace := (scheduleReminders one_hour at_0910 restarted).2 in
  serialize restarted = serialize assigned
  /\ map (fun e => t_id (task e)) (getAllTasksUnique restarted) = [at_0900]
  /\ length (batches_for at_0900 "1h" trace) = 2
  /\ map (fun x => fired_to x.2) (batches_for at_0900 "1h" trace)
     = [[u_id bob; u_id carol]; [u_id bob; u_id carol]]
  /\ ~ length (batches_for at_0900 "1h" trace) <= 1.
Proof.
  vm_compute. repeat split. intros H. inversion H as [|n H']. inversion H'.
Qed.

(** *** /task-assign in the first handler *)

(** C3 at its failing input. In the first handler a mention of bob together
    with a department that has bob as a member leaves bob twice among the
    assignees, once as the mentioned object and once as his id, and the task
    is stored under both; the upgraded handler resolves the same command to
    bob and carol, once each. *)
Theorem legacy_assign_repeats_user :
  let result :=
    Legacy.task_assign registry (as_user alice) "Ship release" None None (Some "ops")
      (OneMention bob) at_0900 "2025-01-01T09:00:00.000Z" [] in
  Legacy.resolve_assignees registry (Some "ops") [bob]
  = [Legacy.AUser bob; Legacy.AId (u_id bob); Legacy.AId (u_id carol)]
  /\ result.1 = Accepted
  /\ map fst result.2 = [Legacy.AUser bob; Legacy.AId (u_id bob); Legacy.AId (u_id carol)]
  /\ map Legacy.ident (Legacy.resolve_assignees registry (Some "ops") [bob])
     = [u_id bob; u_id bob; u_id carol]
  /\ ~ NoDup (map Legacy.ident (Legacy.resolve_assignees registry (Some "ops") [bob]))
  /\ (resolve_assignees registry (Some "ops") [bob]).1 = [u_id bob; u_id carol].
Proof.
  vm_compute. repeat split.
  intros H. apply NoDup_cons in H as [H _]. apply H. apply elem_of_cons. by left.
Qed.

(** *** /task-update by position *)


(** *** An update by id after a restart *)

(** After the restart bob and carol hold separate copies of the task; bob
    marks it Done by id, and carol's copy still says Pending. *)
Lemma task_update_by_id_one_copy_at_bob :
  let s :=
    reload (task_assign registry (as_user alice) "Ship release"
              None (Some due_1000) (Some "ops") NoMention at_0900 empty_store).2 in
  let after := (task_update registry (as_user bob) (Some at_0900) None "Done" at_0910 s).2 in
  unshared s
  /\ (status <$> heap after !! 0) = Some "Done"
  /\ map_get (u_id carol) (tasks after) = Some [1]
  /\ (status <$> heap after !! 1) = Some "Pending"
  /\ heap after !! 1 = heap s !! 1.
Proof.
  intros s after.
  assert (unshared s) as Hun by apply reload_unshared.
  split; [exact Hun|].
  destruct (task_update_by_id_one_copy registry (as_user bob) at_0900 None "Done" at_0910 s
              {| f_userId := u_id bob; f_index := 0; f_task := 0 |}
              {| t_id := at_0900; title := "Ship release"; description := "";
                 due := Some due_1000; status := "Pending"; createdBy := "alice";
                 assignedTo := [u_id bob; u_id carol]; department := Some "ops";
                 logs := [{| date := "2025-01-01T09:00:00.000Z";
                             action := "Assigned by alice" |}];
                 remindersSent := [] |})
    as (s' & Hres & Htasks & Hmine & Hothers).
  - apply (bool_decide_unpack _). vm_compute. exact I.
  - exact Hun.
  - discriminate.
  - reflexivity.
  - reflexivity.
  - right. simpl. apply elem_of_cons. by left.
  - apply (bool_decide_unpack _). vm_compute. exact I.
  - assert (after = s') as -> by (unfold after; by rewrite Hres).
    simpl in Hmine. split; [by rewrite Hmine|]. split; [by rewrite Htasks|].
    assert (heap s' !! 1 = heap s !! 1) as Hcarol.
    { apply (Hothers (u_id carol) 1); [|discriminate].
      apply (bool_decide_unpack _). vm_compute. exact I. }
    split; [by rewrite Hcarol | exact Hcarol].
Defined.

(** *** A due text that is no date *)

Lemma task_create_invalid_due_at_tomorrow :
  Date_parse "tomorrow" = None
  /\ task_create (as_user bob) "Write notes" None (Some "tomorrow") at_0900 empty_store
     = task_create (as_user bob) "Write notes" None None at_0900 empty_store
  /\ (scheduleReminders one_hour at_1100
        (task_create (as_user bob) "Write notes" None (Some "tomorrow") at_0900 empty_store).2).2
     = [].
Proof.
  assert (Date_parse "tomorrow" = None) as H by reflexivity.
  split; [exact H|].
  destruct (task_create_invalid_due (as_user bob) "Write notes" None "tomorrow" at_0900
              empty_store H) as (_ & Hsame & _).
  split; [exact Hsame | reflexivity].
Defined.

(** *** Search *)



(** *** Start-up *)

(** A task due at 10:00 and still pending at a start at 11:00 is marked
    once, with one more log entry; a second pass changes nothing. *)
Example on_ready_marks_once :
  let assigned :=
    (task_assign registry (as_user alice) "Ship release"
       None (Some due_1000) (Some "ops") NoMention at_0900 empty_store).2 in
  let first := on_ready at_1100 assigned in
  first.2 = true
  /\ map status (heap first.1) = ["Overdue"]
  /\ map (fun t => length (logs t)) (heap first.1) = [2]
  /\ on_ready at_1100 first.1 = (first.1, false).
Proof. vm_compute. repeat split. Qed.

(** *** Backups *)

Lemma backup_retention_at_three_writes :
  let dir := ["notes.txt"; "tasks.json.2024-12-31T09-00-00-000Z.bak.json"] in
  let after := backups_after (keep 2) "tasks.json" [at_0900; at_0910; at_0915] dir in
  backupRetention (keep 2) = Z.of_nat 2
  /\ List.filter (is_backup "tasks.json") after
     = ["tasks.json.2025-01-01T09-10-00-000Z.bak.json";
        "tasks.json.2025-01-01T09-15-00-000Z.bak.json"]
  /\ List.filter (fun f => negb (is_backup "tasks.json" f)) after = ["notes.txt"].
Proof.
  intros dir after. split; [reflexivity|].
  destruct (backup_retention (keep 2) "tasks.json" [at_0900; at_0910; at_0915]
              dir 2 1) as (Hkept & _ & Hrest).
  - reflexivity.
  - lia.
  - constructor; [|constructor; [|constructor]].
    + intros Hb. vm_compute in Hb. discriminate.
    + intros _. repeat constructor.
  - repeat constructor.
  - reflexivity.
  - split; [exact Hkept | exact Hrest].
Defined.

(** C7, as the specification states it, fails in four ways: a retention of
    0 keeps ten backups, not none (one write leaves one backup); with a
    retention of 2, three writes at distinct times leave the two most
    recent backups, which are not the one most recent; three writes within
    one millisecond share a name and leave one backup, not two; and with a
    retention of 1 and a backup of a later date in the directory, a write
    deletes the backup it has just made and leaves the other. *)
Lemma backup_retention_as_stated_fails :
  length (backups_after (keep 0) "tasks.json" [at_0900] []) = 1
  /\ backups_after (keep 2) "tasks.json" [at_0900; at_0910; at_0915] []
     = [backup_name "tasks.json" at_0910; backup_name "tasks.json" at_0915]
  /\ backups_after (keep 2) "tasks.json" [at_0900; at_0910; at_0915] []
     <> [backup_name "tasks.json" at_0915]
  /\ length (backups_after (keep 2) "tasks.json" [at_0900; at_0900; at_0900] []) = 1
  /\ backups_after (keep 1) "tasks.json" [at_0900]
       ["tasks.json.2025-01-02T09-00-00-000Z.bak.json"]
     = ["tasks.json.2025-01-02T09-00-00-000Z.bak.json"].
Proof.
  vm_compute. repeat split. discriminate.
Qed.
(** * Worked examples for the other commands *)

Import Cases.

(** *** Exports *)

(** A tag and the text of its escape are different texts, and so are
    their escapes. *)
Lemma escapeHtml_inj_at_tag :
  escapeHtml "<b>" = "&lt;b&gt;"
  /\ escapeHtml "&lt;b&gt;" = "&amp;lt;b&amp;gt;"
  /\ escapeHtml "<b>" <> escapeHtml "&lt;b&gt;".
Proof.
  split; [reflexivity|]. split; [reflexivity|].
  apply (escapeHtml_inj "<b>" "&lt;b&gt;"). discriminate.
Defined.

(** A title with quotes in it, followed by the next field. *)
Lemma csv_quote_reads_back_at_quoted :
  let ttl := "say " +:+ String dquote ("hi" +:+ String dquote EmptyString) in
  String.prefix (String dquote EmptyString) ",x" = false
  /\ String.length (csv_quote ttl) = 12
  /\ read_quoted (csv_quote ttl +:+ ",x") = Some (ttl, ",x").
Proof.
  intros ttl. split; [reflexivity|]. split; [reflexivity|].
  apply (csv_quote_reads_back ttl ",x"). reflexivity.
Defined.

Example escapeHtml_at_text : escapeHtml "a<b & c>d" = "a&lt;b &amp; c&gt;d".
Proof. reflexivity. Qed.

(** The row of the CSV export for the task of the examples. *)
Example csv_row_at_ship :
  csv_row ship
  = ["1735722000000"; csv_quote "Ship release"; csv_quote ""; due_1000; "Pending";
     "alice"; "100000000000000002;100000000000000003"; "ops";
     csv_quote "Assigned by alice"]
  /\ String.length (tasksToCSV [ship]) = 204.
Proof. vm_compute. split; reflexivity. Qed.

(** *** /set-reminders *)


(** *** The reminder job *)




(** Two runs, at 09:10 and at 09:15: the "1h" batch goes out once. *)
Lemma reminders_once_per_object_at_two_runs :
  let runs := [(one_hour, at_0910); (one_hour, at_0915)] in
  keys_sent 0 (job_runs runs assigned).2 = ["1h"]
  /\ NoDup (keys_sent 0 (job_runs runs assigned).2).
Proof.
  intros runs. split; [vm_compute; reflexivity|].
  destruct (reminders_once_per_object runs assigned 0 ship) as (t & _ & _ & Hnd & _).
  - reflexivity.
  - exact Hnd.
Defined.

(** Two runs after the due time: one overdue notice goes out, and the
    task is still Pending. *)
Example job_runs_keep_status :
  let after := (job_runs [(one_hour, at_1100); (one_hour, at_1100)] assigned).1 in
  map (fun x => fired_key x.2)
      (job_runs [(one_hour, at_1100); (one_hour, at_1100)] assigned).2 = ["overdue"]
  /\ map status (heap after) = ["Pending"]
  /\ map remindersSent (heap after) = [["overdue"]]
  /\ tasks after = tasks assigned.
Proof. vm_compute. repeat split. Qed.

(** A restart at 11:00, an hour after the task was due, and the first run
    of the job. *)
Lemma overdue_at_startup_is_reminded_at_1100 :
  let s1 := (on_ready at_1100 assigned).1 in
  let r := scheduleReminders one_hour at_1100 s1 in
  map status (heap s1) = ["Overdue"]
  /\ map (fun x => fired_key x.2) r.2 = ["overdue"]
  /\ exists t', heap r.1 !! 0 = Some t' /\ status t' = "Overdue"
                /\ "overdue" ∈ remindersSent t'.
Proof.
  intros s1 r. split; [reflexivity|]. split; [vm_compute; reflexivity|].
  destruct (overdue_at_startup_is_reminded one_hour at_1100 at_1100 at_1000 assigned
              (u_id bob) 0 ship due_1000) as (t1 & t' & _ & _ & Ht' & Hst & Hov & _).
  - apply elem_of_cons. by left.
  - reflexivity.
  - reflexivity.
  - discriminate.
  - discriminate.
  - reflexivity.
  - reflexivity.
  - discriminate.
  - by exists t'.
Defined.

(** *** /task-assign *)


(** *** The registry *)

Lemma manager_add_grants_at_bob :
  let reg' := (manager_add (as_user alice) (OneMention bob) registry).2 in
  isManager registry (u_id bob) = false
  /\ isAdminOrManager reg' (u_id bob) None = true
  /\ departments reg' = departments registry.
Proof.
  intros reg'. split; [reflexivity|].
  destruct (manager_add_grants (as_user alice) (OneMention bob) registry)
    as (_ & Hdep & _ & Hgate).
  - reflexivity.
  - split; [|exact Hdep]. apply (Hgate bob None). apply elem_of_cons. by left.
Defined.

Lemma department_add_member_once_at_dave :
  let reg' := (department_add_member (as_user alice) "ops" dave registry).2 in
  departments reg' !! "ops" = Some [u_id bob; u_id carol; u_id dave]
  /\ department_add_member (as_user alice) "ops" dave reg' = (Accepted, reg').
Proof.
  intros reg'.
  destruct (department_add_member_once (as_user alice) "ops" dave registry)
    as (after & _ & _ & _ & _ & _ & _ & _ & _ & Hagain).
  - reflexivity.
  - split; [reflexivity | exact Hagain].
Defined.

Lemma department_remove_member_undoes_add_at_dave :
  departments registry !! "ops" = Some [u_id bob; u_id carol]
  /\ department_remove_member (as_user alice) "ops" dave
       (department_add_member (as_user alice) "ops" dave registry).2
     = (Accepted, registry)
  /\ department_remove_member (as_user alice) "sales" dave registry = (NotFound, registry).
Proof.
  assert (departments registry !! "ops" = Some [u_id bob; u_id carol]) as Hops
    by reflexivity.
  split; [exact Hops|].
  destruct (department_remove_member_undoes_add (as_user alice) "ops" dave registry
              [u_id bob; u_id carol]) as (_ & _ & _ & Hnone & Hback).
  - reflexivity.
  - exact Hops.
  - split.
    + apply Hback. intros Hin. apply (bool_decide_pack _) in Hin.
      vm_compute in Hin. exact Hin.
    + apply Hnone. reflexivity.
Defined.


(** *** /task-delete *)

(** bob deletes the shared task by id: his entry goes, carol's stays, and
    the task is still found. *)
Lemma task_delete_by_id_at_bob :
  let result := task_delete registry (as_user bob) (Some at_0900) None assigned in
  result.1 = Accepted
  /\ heap result.2 = heap assigned
  /\ tasks result.2 = [(u_id bob, []); (u_id carol, [0])]
  /\ findTaskById at_0900 result.2
     = Some {| f_userId := u_id carol; f_index := 0; f_task := 0 |}.
Proof.
  intros result.
  destruct (task_delete_by_id registry (as_user bob) at_0900 None assigned
              {| f_userId := u_id bob; f_index := 0; f_task := 0 |} ship)
    as [_ Hok].
  - apply (bool_decide_unpack _). vm_compute. exact I.
  - discriminate.
  - reflexivity.
  - reflexivity.
  - destruct Hok as (e1 & e2 & Hacc & Hheap & _).
    + right. apply elem_of_cons. by left.
    + split; [exact Hacc|]. split; [exact Hheap|]. split; reflexivity.
Defined.

Lemma task_delete_by_index_at_bob :
  wf assigned
  /\ task_delete registry (as_user bob) None (Some 2%Z) assigned = (NotFound, assigned)
  /\ (task_delete registry (as_user bob) None (Some 1%Z) assigned).1 = Accepted
  /\ map_get (u_id carol)
       (tasks (task_delete registry (as_user bob) None (Some 1%Z) assigned).2)
     = Some [0].
Proof.
  assert (wf assigned) as Hwf.
  { split; [apply (bool_decide_unpack _); vm_compute; exact I|].
    vm_compute. repeat constructor. }
  split; [exact Hwf|].
  pose proof (fun i => task_delete_by_index registry (as_user bob) None i assigned Hwf
                         (or_introl eq_refl)) as H.
  split.
  - apply (H 2%Z). right. vm_compute. reflexivity.
  - destruct (H 1%Z) as [_ Hin].
    destruct (Hin {| task := ship; userId := u_id bob |}) as [_ Hok].
    + vm_compute. discriminate.
    + reflexivity.
    + destruct Hok as (f & ls & _ & _ & _ & _ & Hacc & _).
      * right. apply elem_of_cons. by left.
      * split; [exact Hacc | reflexivity].
Defined.

(** *** /task-add-assignee and /task-remove-assignee *)


(** bob, who holds the task already, is added again: his collection now
    holds it twice, and the list of all tasks has the same one id. *)
Lemma task_add_assignee_keeps_ids_at_bob :
  let result :=
    task_add_assignee registry (as_user alice) (Some at_0900) None (OneMention bob)
      at_0910 assigned in
  map_get (u_id bob) (tasks result.2) = Some [0; 0]
  /\ map (fun e => t_id (task e)) (getAllTasksUnique result.2) = [at_0900]
  /\ is_Some (findTaskById at_0900 result.2).
Proof.
  intros result. split; [reflexivity|]. split; [reflexivity|].
  destruct (task_add_assignee_keeps_ids registry (as_user alice) at_0900 None
              (OneMention bob) at_0910 assigned
              {| f_userId := u_id bob; f_index := 0; f_task := 0 |}) as [_ Hfound].
  - reflexivity.
  - reflexivity.
  - exact Hfound.
Defined.

(** carol is taken off the task. *)
Lemma task_remove_assignee_spec_at_carol :
  let result :=
    task_remove_assignee registry (as_user alice) (Some at_0900) (OneMention carol)
      at_0910 assigned in
  exists t',
    heap result.2 !! 0 = Some t'
    /\ assignedTo t' = [u_id bob]
    /\ map_get_or_empty (u_id carol) (tasks result.2) = []
    /\ map_get (u_id bob) (tasks result.2) = Some [0].
Proof.
  intros result.
  destruct (task_remove_assignee_spec registry (as_user alice) at_0900 (OneMention carol)
              at_0910 assigned {| f_userId := u_id bob; f_index := 0; f_task := 0 |} ship)
    as (t' & _ & Ht' & _ & Has & _ & Hmine & Hothers).
  - reflexivity.
  - reflexivity.
  - reflexivity.
  - apply (bool_decide_unpack _). vm_compute. exact I.
  - exists t'. split; [exact Ht'|]. split; [exact Has|]. split.
    + etrans; [apply (Hmine carol); apply elem_of_cons; by left | reflexivity].
    + etrans; [apply (Hothers (u_id bob)) | reflexivity].
      intros Hin. apply (bool_decide_pack _) in Hin. vm_compute in Hin. exact Hin.
Defined.

(** dave is added and taken off again: the entries are as before, and an
    empty collection is left for dave. *)
Lemma add_then_remove_assignee_at_dave :
  let s1 :=
    (task_add_assignee registry (as_user alice) (Some at_0900) None (OneMention dave)
       at_0910 assigned).2 in
  let s2 :=
    (task_remove_assignee registry (as_user alice) (Some at_0900) (OneMention dave)
       at_0915 s1).2 in
  entries (tasks s2) = entries (tasks assigned)
  /\ tasks s2 = [(u_id bob, [0]); (u_id carol, [0]); (u_id dave, [])]
  /\ (assignedTo <$> heap s2 !! 0) = Some [u_id bob; u_id carol].
Proof.
  intros s1 s2.
  destruct (add_then_remove_assignee registry (as_user alice) at_0900 dave at_0910 at_0915
              assigned {| f_userId := u_id bob; f_index := 0; f_task := 0 |} ship)
    as (Hentries & _ & t2 & Ht2 & Has & _).
  - reflexivity.
  - reflexivity.
  - reflexivity.
  - intros e He _. apply elem_of_cons in He as [->|He]; [reflexivity|].
    apply elem_of_cons in He as [->|He]; [reflexivity|]. by apply elem_of_nil in He.
  - intros Hin. apply (bool_decide_pack _) in Hin. vm_compute in Hin. exact Hin.
  - reflexivity.
  - split; [exact Hentries|]. split; [reflexivity|].
    change (heap s2 !! 0 = Some t2) in Ht2. rewrite Ht2. simpl. by rewrite Has.
Defined.

(** *** Saving and restarting *)

(** The store with the shared task, saved and loaded: the file has the
    task twice, and the loaded store has two task objects. *)
Lemma save_restart_round_trip_at_assigned :
  serialize assigned = [(u_id bob, [ship]); (u_id carol, [ship])]
  /\ heap (reload assigned) = [ship; ship]
  /\ tasks (reload assigned) = [(u_id bob, [0]); (u_id carol, [1])]
  /\ serialize (reload assigned) = serialize assigned
  /\ getAllTasksUnique (reload assigned) = getAllTasksUnique assigned.
Proof.
  split; [reflexivity|]. split; [reflexivity|]. split; [reflexivity|].
  destruct (save_restart_round_trip assigned) as (_ & Hsame & _ & Hall & _).
  - apply (bool_decide_unpack _). vm_compute. exact I.
  - split; [exact Hsame | exact Hall].
Defined.

(** The lookup in that store finds bob's entry, the first of the two. *)
Example findTaskById_at_assigned :
  findTaskById at_0900 assigned
  = Some {| f_userId := u_id bob; f_index := 0; f_task := 0 |}
  /\ findTaskById at_0910 assigned = None
  /\ getAllTasksUnique assigned = [{| task := ship; userId := u_id bob |}].
Proof. repeat split. Qed.

(** *** /task-create and the lookup by id *)

(** bob creates a task at 09:10 in the store that holds the shared one. *)
Lemma task_create_then_find_at_bob :
  let result := task_create (as_user bob) "Write notes" None None at_0910 assigned in
  findTaskById at_0910 assigned = None
  /\ findTaskById at_0910 result.2
     = Some {| f_userId := u_id bob; f_index := 1; f_task := 1 |}
  /\ findTaskById at_0900 result.2 = findTaskById at_0900 assigned.
Proof.
  intros result. split; [reflexivity|].
  destruct (task_create_then_find (as_user bob) "Write notes" None None at_0910 assigned)
    as (t & _ & _ & _ & _ & _ & _ & _ & _ & _ & Hother & Hnew).
  - vm_compute. repeat constructor.
  - split; [exact (Hnew eq_refl) | apply Hother; discriminate].
Defined.

(** *** The search with an empty query *)

Lemma fuzzySearchTasks_empty_query_at_two_titles :
  map (fun e => title (task e)) (fuzzySearchTasks "" 5 two_titles) = ["b"; "a"]
  /\ length (fuzzySearchTasks "" 5 two_titles) = 2.
Proof.
  split; [reflexivity|].
  destruct (fuzzySearchTasks_empty_query 5 two_titles) as [_ Hlen]; [lia|].
  exact Hlen.
Defined.

(** *** Reminder windows *)

Lemma parseWindowToMinutes_normalized_at_2H :
  normalize " 2H " = "2h"
  /\ parseWindowToMinutes " 2H " = parseWindowToMinutes "2h".
Proof.
  split; [reflexivity|].
  apply (parseWindowToMinutes_normalized " 2H "). discriminate.
Defined.

(** *** Backups *)

(** One write with a retention of 1, and one with a retention of -1, in a
    directory that holds an older backup and a file of another kind. *)
Lemma backupFile_keeps_and_bounds_at_0900 :
  NoDup backups
  /\ backupFile (keep 1) "tasks.json" at_0900 backups
     = ["notes.txt"; "tasks.json.2025-01-01T09-00-00-000Z.bak.json"]
  /\ length (List.filter (is_backup "tasks.json")
               (backupFile (keep 1) "tasks.json" at_0900 backups)) = 1
  /\ backupFile (keep (-1)) "tasks.json" at_0900 backups = ["notes.txt"]
  /\ List.filter (fun f => negb (is_backup "tasks.json" f))
       (backupFile (keep (-1)) "tasks.json" at_0900 backups)
     = List.filter (fun f => negb (is_backup "tasks.json" f)) backups.
Proof.
  assert (NoDup backups) as Hnd.
  { apply (bool_decide_unpack _). vm_compute. exact I. }
  split; [exact Hnd|]. split; [reflexivity|].
  destruct (backupFile_keeps_and_bounds (keep 1) "tasks.json" at_0900 backups Hnd)
    as (_ & _ & _ & Hcount).
  destruct (backupFile_keeps_and_bounds (keep (-1)) "tasks.json" at_0900 backups Hnd)
    as (Hrest & _).
  split.
  - apply Nat2Z.inj. rewrite Hcount. reflexivity.
  - split; [reflexivity | exact Hrest].
Defined.

